(** * The bitmap core of mkxp-z (bitmap.cpp): shallow embedding and properties

    The development follows the layout of bitmap.cpp.

    - [Geometry]: IntRect, Vec2i, [normalizedRect], and the two integer
      helpers of util.h the file uses ([clamp], [wrapRange]).
    - [Pixman]: the region operations of the pixman library that the
      tainted-area tracker calls, as operations on lists of boxes.
    - [Float]: IEEE-754 round-to-nearest on rationals; a C++ [float] or
      [double] operation is the exact operation followed by rounding to
      24, respectively 53, significant bits.
    - the data model ([TEXFBO], [SDL_Surface], [Animation],
      [BitmapPrivate], [Bitmap]) and the member functions of
      [BitmapPrivate] and [Bitmap] the properties are about: the
      animation clock and the playback interface, the tainted area,
      [stretchBlt] and [blt], [fillRect], [clearRect], [clear] and
      [gradientFillRect], [setPixel] and [getPixel], [getRaw] and
      [replaceRaw], [addFrame] and [removeFrame], the text helpers
      [fixupString] and [utf8_to_ucs2], and the integer pan stage of
      [childUpdate].

    C++ [int] values are integers of [Z].  Signed overflow is undefined
    behaviour in C++; the products of the hi-res rescaling, which leave the
    range of [int] for large coordinates, are given the value of two's
    complement multiplication, and the other sums and products are not
    given a meaning beyond the range.  Where the source narrows a value to
    a fixed width (the 16-bit boxes of pixman, the 8-bit colour channels)
    the wrap-around is written out. *)

From Stdlib Require Import ZArith QArith Qround Qabs Qreduction Qcanon Qpower Qfield.
From Stdlib Require Import Lia Lqa Bool List.
From stdpp Require Import base option list gmap.
Import ListNotations.

Local Open Scope Z_scope.

(** ** Geometry (etc.h, util.h) *)

Record IntRect := mkIntRect { rect_x : Z; rect_y : Z; rect_w : Z; rect_h : Z }.

Record Vec2i := mkVec2i { vec_x : Z; vec_y : Z }.

Definition IntRect_eqb (a b : IntRect) : bool :=
  (rect_x a =? rect_x b) && (rect_y a =? rect_y b) &&
  (rect_w a =? rect_w b) && (rect_h a =? rect_h b).

Definition Vec2i_eqb (a b : Vec2i) : bool :=
  (vec_x a =? vec_x b) && (vec_y a =? vec_y b).

(** Two's complement narrowing of an integer to [bits] bits. *)
Definition wrap (bits : Z) (z : Z) : Z :=
  (z + 2 ^ (bits - 1)) mod 2 ^ bits - 2 ^ (bits - 1).

(** Normalize (= ensure width and height are positive). *)
Definition normalizedRect (rect : IntRect) : IntRect :=
  let norm := rect in
  let norm :=
    if rect_w norm <? 0
    then let w' := - rect_w norm in
         mkIntRect (rect_x norm - w') (rect_y norm) w' (rect_h norm)
    else norm in
  let norm :=
    if rect_h norm <? 0
    then let h' := - rect_h norm in
         mkIntRect (rect_x norm) (rect_y norm - h') (rect_w norm) h'
    else norm in
  norm.

(** Modelled from the spec: [clamp] of util.h is not part of the sources at
    hand.  "Clamp opacity to [0,255]", "clamped to the valid pan range":
    the value limited to the closed interval [lo, hi], the lower bound
    tested first. *)
Definition clamp (value lo hi : Z) : Z :=
  if value <? lo then lo else if hi <? value then hi else value.

(** Modelled from the spec: [wrapRange] of util.h is not part of the sources
    at hand.  "wrapped modulo source extent", "it wraps modulo parent
    content size": the value brought into [lo, hi) by adding or removing
    multiples of the extent [hi - lo]. *)
Definition wrapRange (value lo hi : Z) : Z :=
  lo + (value - lo) mod (hi - lo).

(** ** Pixman regions

    pixman.h is a library outside the repository.  A region is a finite
    union of boxes; a box [x1, x2) x [y1, y2) holds the pixels whose
    coordinates are at least (x1, y1) and below (x2, y2).  The functions
    are the set operations the pixman documentation gives them: union,
    difference ("subtract reg_s from reg_m and leave the result in
    reg_d"), and the three-way containment test. *)
Module Pixman.

Record box := Box { bx1 : Z; by1 : Z; bx2 : Z; by2 : Z }.

Definition region := list box.

Inductive overlap_t := REGION_OUT | REGION_IN | REGION_PART.

Definition overlap_eqb (a b : overlap_t) : bool :=
  match a, b with
  | REGION_OUT, REGION_OUT | REGION_IN, REGION_IN
  | REGION_PART, REGION_PART => true
  | _, _ => false
  end.

(** GOOD_RECT of pixman-region.c *)
Definition good_box (b : box) : bool :=
  (bx1 b <? bx2 b) && (by1 b <? by2 b).

Definition in_box (b : box) (px py : Z) : bool :=
  (bx1 b <=? px) && (px <? bx2 b) && (by1 b <=? py) && (py <? by2 b).

(** pixman_region_contains_point *)
Definition contains_point (r : region) (px py : Z) : bool :=
  existsb (fun b => in_box b px py) r.

Definition overlaps (a b : box) : bool :=
  (bx1 a <? bx2 b) && (bx1 b <? bx2 a) &&
  (by1 a <? by2 b) && (by1 b <? by2 a).

(** The part of box [a] outside box [b]: a band above, one to the left,
    one to the right and a band below, the empty ones dropped. *)
Definition box_subtract (a b : box) : list box :=
  if overlaps a b then
    let ya := Z.max (by1 a) (by1 b) in
    let yb := Z.min (by2 a) (by2 b) in
    List.filter good_box
      [ Box (bx1 a) (by1 a) (bx2 a) ya;
        Box (bx1 a) ya (Z.max (bx1 a) (bx1 b)) yb;
        Box (Z.min (bx2 a) (bx2 b)) ya (bx2 a) yb;
        Box (bx1 a) yb (bx2 a) (by2 a) ]
  else [a].

(** pixman_region_subtract (reg_d, reg_m, reg_s): reg_d = reg_m - reg_s *)
Definition subtract (reg_m reg_s : region) : region :=
  fold_left (fun acc b => flat_map (fun a => box_subtract a b) acc)
            reg_s reg_m.

(** pixman_region_union: the boxes of the first region and what the second
    adds to them, so that the boxes stay disjoint. *)
Definition union (r1 r2 : region) : region := r1 ++ subtract r2 r1.

(** pixman_region_init *)
Definition init : region := [].

(** An x, y, width, height rectangle as a box whose coordinates are stored
    in [bits]-bit signed integers (pixman_box16_t, pixman_box32_t). *)
Definition box_of (bits : Z) (x y w h : Z) : box :=
  Box (wrap bits x) (wrap bits y) (wrap bits (x + w)) (wrap bits (y + h)).

(** pixman_region_init_rect: a rectangle that is not GOOD_RECT gives the
    empty region. *)
Definition init_rect (bits : Z) (x y w h : Z) : region :=
  let b := box_of bits x y w h in
  if good_box b then [b] else init.

(** pixman_region_union_rect: a rectangle that is not GOOD_RECT leaves a
    copy of the source. *)
Definition union_rect (bits : Z) (source : region) (x y w h : Z) : region :=
  let b := box_of bits x y w h in
  if good_box b then union source [b] else source.

(** pixman_region_contains_rectangle *)
Definition contains_rectangle (r : region) (prect : box) : overlap_t :=
  if existsb (overlaps prect) r then
    match subtract [prect] r with
    | [] => REGION_IN
    | _ => REGION_PART
    end
  else REGION_OUT.

(** Two regions are the same region when they hold the same pixels. *)
Definition region_equiv (r1 r2 : region) : Prop :=
  forall px py, contains_point r1 px py = contains_point r2 px py.

End Pixman.

(** ** Floating point

    A finite IEEE-754 value is a rational; an operation of the source on
    [float] or [double] operands is the exact operation on rationals followed
    by rounding to nearest, ties to even, at 24 (float) or 53 (double)
    significant bits.  The exponent range is not limited: overflow to
    infinity and gradual underflow do not arise at the magnitudes the
    bitmap code works with (pixel coordinates, frame counts, seconds). *)
Module Float.

Local Open Scope Q_scope.

Definition Qltb (a b : Q) : bool := negb (Qle_bool b a).

Definition pow2 (z : Z) : Q := Qpower 2 z.

(** Round to the nearest integer, ties to the even one. *)
Definition rne (x : Q) : Z :=
  let f := Qfloor x in
  match Qcompare (x - inject_Z f) (1 # 2) with
  | Lt => f
  | Gt => (f + 1)%Z
  | Eq => if Z.even f then f else (f + 1)%Z
  end.

(** The exponent e of a positive x: 2^e <= x < 2^(e+1). *)
Definition binade (x : Q) : Z :=
  if Qle_bool 1 x then Z.log2 (Qfloor x)
  else (- Z.log2_up (Qceiling (/ x)))%Z.

Definition round_pos (prec : Z) (x : Q) : Q :=
  let s := (binade x + 1 - prec)%Z in
  inject_Z (rne (x / pow2 s)) * pow2 s.

(** Rounding to [prec] significant bits; the result is in lowest terms. *)
Definition round (prec : Z) (x : Q) : Q :=
  Qred (match Qcompare x 0 with
        | Eq => 0
        | Gt => round_pos prec x
        | Lt => - round_pos prec (- x)
        end).

(** C++ [float]: binary32. *)
Definition fl32 : Q -> Q := round 24.
(** C++ [double]: binary64. *)
Definition fl64 : Q -> Q := round 53.

(** Conversion of an [int] to [float]. *)
Definition float_of_int (z : Z) : Q := fl32 (inject_Z z).

(** [round()] of math.h: to the nearest integer, halves away from zero. *)
Definition c_round (x : Q) : Z :=
  if Qle_bool 0 x then Qfloor (x + (1 # 2)) else Qceiling (x - (1 # 2)).

End Float.

(** ** Errors

    The exceptions the bitmap code throws (exception.h), and one more
    outcome for an access outside a [std::vector], which the C++ standard
    leaves undefined. *)
Inductive Exception :=
| RGSSError_disposed        (* guardDisposed: "disposed bitmap" *)
| MKXPError_mega            (* GUARD_MEGA *)
| MKXPError_animated        (* GUARD_ANIMATED *)
| MKXPError_static          (* GUARD_UNANIMATED *)
| MKXPError_dimensions      (* addFrame: varying dimensions *)
| Undefined_out_of_range.   (* frames[i] with i outside the vector *)

Inductive result (A : Type) :=
| Ok (a : A)
| Err (e : Exception).
Arguments Ok {A} a.
Arguments Err {A} e.

#[global] Instance result_ret : MRet result := fun A a => Ok a.

#[global] Instance result_bind : MBind result := fun A B k r =>
  match r with Ok a => k a | Err e => Err e end.

Definition guard_not (b : bool) (e : Exception) : result unit :=
  if b then Err e else Ok tt.

(** ** Data model *)

(** A texture with its framebuffer object (gl-util.h). *)
Record TEXFBO := mkTEXFBO {
  tex : nat;
  fbo : nat;
  tf_width : Z;
  tf_height : Z
}.

(** [TEXFBO()] *)
Definition TEXFBO_null : TEXFBO := mkTEXFBO 0 0 0 0.

(** The pixels of an image, row by row, one 32-bit ABGR8888 word each. *)
Abbreviation Image := (list Z).

(** An SDL surface in the format the bitmap code allocates
    (SDL_PIXELFORMAT_ABGR8888, four bytes per pixel, pitch 4 * w). *)
Record SDL_Surface := mkSurface {
  surf_w : Z;
  surf_h : Z;
  surf_pixels : Image
}.

(** The contents of the textures on the GPU, by texture id. *)
Abbreviation VRam := (gmap nat Image).

(** [BitmapPrivate::animation] *)
Record Animation := mkAnimation {
  anim_width : Z;
  anim_height : Z;
  enabled : bool;
  playing : bool;
  needsReset : bool;
  loop : bool;
  frames : list TEXFBO;
  fps : Q;                      (* float *)
  lastFrame : Z;
  startTime : Q;                (* double *)
  playTime : Q                  (* double *)
}.

(** [BitmapPrivate].  The [selfHires] pointer is the recursive field of
    [Bitmap] below. *)
Record BitmapPrivate := mkBitmapPrivate {
  animation : Animation;
  gl : TEXFBO;
  megaSurface : option SDL_Surface;
  surface : option SDL_Surface;
  tainted : Pixman.region;
  tainted32 : Pixman.region;
  pixmanUseRegion32 : bool
}.

(** [Bitmap] with the [Disposable] flag of its base class. *)
#[warnings="-register-all"]
Inductive Bitmap := mkBitmap {
  disposed : bool;
  p : BitmapPrivate;
  selfHires : option Bitmap
}.

(** ** The animation sequencer ([BitmapPrivate::animation]) *)
Module Anim.

Import Float.

Definition set_lastFrame (a : Animation) (v : Z) : Animation :=
  mkAnimation (anim_width a) (anim_height a) (enabled a) (playing a)
    (needsReset a) (loop a) (frames a) (fps a) v (startTime a) (playTime a).

Definition set_playing (a : Animation) (v : bool) : Animation :=
  mkAnimation (anim_width a) (anim_height a) (enabled a) v
    (needsReset a) (loop a) (frames a) (fps a) (lastFrame a)
    (startTime a) (playTime a).

Definition set_needsReset (a : Animation) (v : bool) : Animation :=
  mkAnimation (anim_width a) (anim_height a) (enabled a) (playing a)
    v (loop a) (frames a) (fps a) (lastFrame a) (startTime a) (playTime a).

Definition set_times (a : Animation) (start play : Q) : Animation :=
  mkAnimation (anim_width a) (anim_height a) (enabled a) (playing a)
    (needsReset a) (loop a) (frames a) (fps a) (lastFrame a) start play.

(** [frames.size()] *)
Definition size (a : Animation) : Z := Z.of_nat (length (frames a)).

(** The value before its conversion to the [unsigned int] return type:
    [floor(lastFrame + (playTime / (1 / fps)))], with [1 / fps] a float
    division and the rest in double. *)
Definition rawFrame (a : Animation) : Z :=
  Qfloor (fl64 (inject_Z (lastFrame a)
                + fl64 (playTime a / fl32 (1 / fps a))))%Q.

(** [currentFrameIRaw] *)
Definition currentFrameIRaw (a : Animation) : Z :=
  if Qle_bool (fps a) 0 then (lastFrame a) mod 2 ^ 32
  else (rawFrame a) mod 2 ^ 32.

(** [currentFrameI].  [fmod(i, frames.size())] has the sign of [i]
    ([Z.rem]); the result is returned as [unsigned int]. *)
Definition currentFrameI (a : Animation) : Z :=
  if negb (playing a) || needsReset a then (lastFrame a) mod 2 ^ 32
  else
    let i := wrap 32 (currentFrameIRaw a) in
    (if loop a then Z.rem i (size a)
     else if size a - 1 <? i then size a - 1 else i) mod 2 ^ 32.

(** [currentFrame]: [int i = currentFrameI(); return frames[i];] *)
Definition currentFrame (a : Animation) : result TEXFBO :=
  let i := wrap 32 (currentFrameI a) in
  if i <? 0 then Err Undefined_out_of_range
  else match frames a !! Z.to_nat i with
       | Some f => Ok f
       | None => Err Undefined_out_of_range
       end.

Definition play (a : Animation) : Animation :=
  set_needsReset (set_playing a true) true.

Definition stop (a : Animation) : Animation :=
  set_playing (set_lastFrame a (wrap 32 (currentFrameI a))) false.

Definition seek (a : Animation) (frame : Z) : Animation :=
  set_lastFrame a (clamp frame 0 (size a)).

(** [updateTimer], with the value of [shState->runTime()] *)
Definition updateTimer (runTime : Q) (a : Animation) : Animation :=
  if needsReset a then
    let a := set_lastFrame a (wrap 32 (currentFrameI a)) in
    set_needsReset (set_times a runTime 0%Q) false
  else
    set_times a (startTime a) (fl64 (runTime - startTime a))%Q.

End Anim.

(** ** The tainted area ([BitmapPrivate]) *)

Definition set_tainted (d : BitmapPrivate) (r : Pixman.region) : BitmapPrivate :=
  mkBitmapPrivate (animation d) (gl d) (megaSurface d) (surface d)
    r (tainted32 d) (pixmanUseRegion32 d).

Definition set_tainted32 (d : BitmapPrivate) (r : Pixman.region) : BitmapPrivate :=
  mkBitmapPrivate (animation d) (gl d) (megaSurface d) (surface d)
    (tainted d) r (pixmanUseRegion32 d).

Definition set_surface (d : BitmapPrivate) (s : option SDL_Surface) : BitmapPrivate :=
  mkBitmapPrivate (animation d) (gl d) (megaSurface d) s
    (tainted d) (tainted32 d) (pixmanUseRegion32 d).

Definition set_megaSurface (d : BitmapPrivate) (s : option SDL_Surface) : BitmapPrivate :=
  mkBitmapPrivate (animation d) (gl d) s (surface d)
    (tainted d) (tainted32 d) (pixmanUseRegion32 d).

Definition set_gl (d : BitmapPrivate) (t : TEXFBO) : BitmapPrivate :=
  mkBitmapPrivate (animation d) t (megaSurface d) (surface d)
    (tainted d) (tainted32 d) (pixmanUseRegion32 d).

Definition set_animation (d : BitmapPrivate) (a : Animation) : BitmapPrivate :=
  mkBitmapPrivate a (gl d) (megaSurface d) (surface d)
    (tainted d) (tainted32 d) (pixmanUseRegion32 d).

(** The region in use: [tainted32] for bitmaps larger than INT16_MAX,
    [tainted] for the others. *)
Definition taintedRegion (d : BitmapPrivate) : Pixman.region :=
  if pixmanUseRegion32 d then tainted32 d else tainted d.

Definition clearTaintedArea (d : BitmapPrivate) : BitmapPrivate :=
  if pixmanUseRegion32 d then set_tainted32 d Pixman.init
  else set_tainted d Pixman.init.

Definition addTaintedArea (d : BitmapPrivate) (rect : IntRect) : BitmapPrivate :=
  let norm := normalizedRect rect in
  if pixmanUseRegion32 d then
    set_tainted32 d
      (Pixman.union_rect 32 (tainted32 d)
         (rect_x norm) (rect_y norm) (rect_w norm) (rect_h norm))
  else
    set_tainted d
      (Pixman.union_rect 16 (tainted d)
         (rect_x norm) (rect_y norm) (rect_w norm) (rect_h norm)).

Definition touchesTaintedArea (d : BitmapPrivate) (rect : IntRect) : bool :=
  let result :=
    if pixmanUseRegion32 d then
      let box := Pixman.box_of 32 (rect_x rect) (rect_y rect)
                                  (rect_w rect) (rect_h rect) in
      Pixman.contains_rectangle (tainted32 d) box
    else
      let box := Pixman.box_of 16 (rect_x rect) (rect_y rect)
                                  (rect_w rect) (rect_h rect) in
      Pixman.contains_rectangle (tainted d) box in
  negb (Pixman.overlap_eqb result Pixman.REGION_OUT).

Definition substractTaintedArea (d : BitmapPrivate) (rect : IntRect) : BitmapPrivate :=
  if negb (touchesTaintedArea d rect) then d
  else if pixmanUseRegion32 d then
    let m_reg := Pixman.init_rect 32 (rect_x rect) (rect_y rect)
                                     (rect_w rect) (rect_h rect) in
    set_tainted32 d (Pixman.subtract m_reg (tainted32 d))
  else
    let m_reg := Pixman.init_rect 16 (rect_x rect) (rect_y rect)
                                     (rect_w rect) (rect_h rect) in
    set_tainted d (Pixman.subtract m_reg (tainted d)).

(** A rectangle whose corners fit the coordinate width of the region. *)
Definition valid_rect (use32 : bool) (r : IntRect) : Prop :=
  let half := 2 ^ ((if use32 then 32 else 16) - 1) in
  - half <= rect_x r /\ rect_x r + rect_w r < half /\
  - half <= rect_y r /\ rect_y r + rect_h r < half.

(** ** [Bitmap]: guards and accessors *)

Definition has {A} (o : option A) : bool :=
  match o with Some _ => true | None => false end.

Definition set_p (b : Bitmap) (d : BitmapPrivate) : Bitmap :=
  mkBitmap (disposed b) d (selfHires b).

Definition set_selfHires (b : Bitmap) (h : option Bitmap) : Bitmap :=
  mkBitmap (disposed b) (p b) h.

(** Modelled from the spec: [Disposable::guardDisposed] of disposable.h is
    not part of the sources at hand.  "disposed-access (operating on a bitmap
    after disposal)": the call raises when the object is disposed. *)
Definition guardDisposed (b : Bitmap) : result unit :=
  guard_not (disposed b) RGSSError_disposed.

Definition isDisposed (b : Bitmap) : bool := disposed b.

Definition GUARD_MEGA (b : Bitmap) : result unit :=
  guard_not (has (megaSurface (p b))) MKXPError_mega.

Definition GUARD_ANIMATED (b : Bitmap) : result unit :=
  guard_not (enabled (animation (p b))) MKXPError_animated.

Definition GUARD_UNANIMATED (b : Bitmap) : result unit :=
  guard_not (negb (enabled (animation (p b)))) MKXPError_static.

Definition width (b : Bitmap) : result Z :=
  _ ← guardDisposed b;
  match megaSurface (p b) with
  | Some s => Ok (surf_w s)
  | None =>
      if enabled (animation (p b)) then Ok (anim_width (animation (p b)))
      else Ok (tf_width (gl (p b)))
  end.

Definition height (b : Bitmap) : result Z :=
  _ ← guardDisposed b;
  match megaSurface (p b) with
  | Some s => Ok (surf_h s)
  | None =>
      if enabled (animation (p b)) then Ok (anim_height (animation (p b)))
      else Ok (tf_height (gl (p b)))
  end.

Definition hasHires (b : Bitmap) : result bool :=
  _ ← guardDisposed b; Ok (has (selfHires b)).

Definition rect (b : Bitmap) : result IntRect :=
  _ ← guardDisposed b;
  w ← width b; h ← height b; Ok (mkIntRect 0 0 w h).

(** [BitmapPrivate::getGLTypes] *)
Definition getGLTypes (d : BitmapPrivate) : result TEXFBO :=
  if enabled (animation d) then Anim.currentFrame (animation d) else Ok (gl d).

(** ** [Bitmap]: animation control *)

Definition gotoAndStop (b : Bitmap) (frame : Z) : result Bitmap :=
  _ ← guardDisposed b;
  _ ← GUARD_UNANIMATED b;
  let a := Anim.stop (animation (p b)) in
  let a := Anim.seek a frame in
  Ok (set_p b (set_animation (p b) a)).

Definition gotoAndPlay (b : Bitmap) (frame : Z) : result Bitmap :=
  _ ← guardDisposed b;
  _ ← GUARD_UNANIMATED b;
  let a := Anim.stop (animation (p b)) in
  let a := Anim.seek a frame in
  let a := Anim.play a in
  Ok (set_p b (set_animation (p b) a)).

(** [Bitmap::currentFrameI] *)
Definition Bitmap_currentFrameI (b : Bitmap) : result Z :=
  _ ← guardDisposed b;
  if negb (enabled (animation (p b))) then Ok 0
  else Ok (wrap 32 (Anim.currentFrameI (animation (p b)))).

(** ** Colours and surfaces *)

(** [Color] of etc.h: four doubles. *)
Record Color := mkColor { red : Q; green : Q; blue : Q; alpha : Q }.

(** [Vec4] of etc.h: four floats, [Vec4()] being the zero vector. *)
Record Vec4 := mkVec4 { v4_x : Q; v4_y : Q; v4_z : Q; v4_w : Q }.

Definition Vec4_zero : Vec4 := mkVec4 0%Q 0%Q 0%Q 0%Q.

(** Modelled from the spec: the conversion [Color(const Vec4 &)] of etc.h is
    not part of the sources at hand.  A [Vec4] colour is normalized to
    [0, 1] ("weighted by normalized opacity"), a [Color] ranges over
    [0, 255]: each channel is scaled by 255. *)
Definition Color_of_Vec4 (v : Vec4) : Color :=
  mkColor (Float.fl64 (v4_x v * 255)%Q) (Float.fl64 (v4_y v * 255)%Q)
          (Float.fl64 (v4_z v * 255)%Q) (Float.fl64 (v4_w v * 255)%Q).

(** [clamp<double>] *)
Definition clampQ (value lo hi : Q) : Q :=
  if Float.Qltb value lo then lo
  else if Float.Qltb hi value then hi else value.

(** The conversion [(uint8_t)] of a double: the fraction is dropped and the
    integer narrowed to eight bits. *)
Definition uint8_of_double (x : Q) : Z :=
  (if Qle_bool 0%Q x then Qfloor x else Qceiling x) mod 256.

(** SDL_MapRGBA for SDL_PIXELFORMAT_ABGR8888: red in the low byte. *)
Definition SDL_MapRGBA (r g b a : Z) : Z :=
  Z.lor (Z.lor (Z.lor (Z.shiftl r 0) (Z.shiftl g 8)) (Z.shiftl b 16))
        (Z.shiftl a 24).

(** The index of pixel (x, y) in the pixel list: byte offset
    x * BytesPerPixel + y * pitch with four bytes per pixel. *)
Definition pixelIndex (surf : SDL_Surface) (x y : Z) : Z :=
  (x * 4 + y * (4 * surf_w surf)) / 4.

Definition inSurface (surf : SDL_Surface) (x y : Z) : bool :=
  (0 <=? pixelIndex surf x y) &&
  (pixelIndex surf x y <? Z.of_nat (length (surf_pixels surf))).

(** Reading through [getPixelAt]; outside the buffer the C++ access is
    undefined, here it reads 0. *)
Definition getPixelAt (surf : SDL_Surface) (x y : Z) : Z :=
  if inSurface surf x y
  then default 0 (surf_pixels surf !! Z.to_nat (pixelIndex surf x y))
  else 0.

(** Writing through [getPixelAt]; outside the buffer the C++ access is
    undefined, here it writes nothing. *)
Definition setPixelAt (surf : SDL_Surface) (x y v : Z) : SDL_Surface :=
  if inSurface surf x y
  then mkSurface (surf_w surf) (surf_h surf)
         (<[Z.to_nat (pixelIndex surf x y) := v]> (surf_pixels surf))
  else surf.

(** The integers lo, lo + 1, ..., hi - 1. *)
Definition zrange (lo hi : Z) : list Z :=
  List.map (fun i => lo + Z.of_nat i) (seq 0 (Z.to_nat (hi - lo))).

Definition tex_image (vram : VRam) (t : TEXFBO) : Image :=
  default [] (vram !! tex t).

(** ** Blitting *)

(** The float overload of [shrinkRects].  The results are the return value
    and the four reference parameters sourcePos, sourceLen, destPos,
    destLen. *)
Definition shrinkRectsF (sourcePos sourceLen : Q) (sBitmapLen : Z)
    (destPos destLen : Q) (dBitmapLen : Z) (normalize : bool)
  : bool * (Q * Q * Q * Q) :=
  let fl := Float.fl32 in
  let sB := Float.float_of_int sBitmapLen in
  let srcPositive := Float.Qltb 0%Q sourceLen in
  let dstPositive := Float.Qltb 0%Q destLen in
  let sStart := if srcPositive then sourcePos else fl (sourceLen + sourcePos)%Q in
  let sEnd := if srcPositive then fl (sourceLen + sourcePos)%Q else sourcePos in
  let sLength := fl (sEnd - sStart)%Q in
  if Qle_bool 0%Q sStart && Float.Qltb sEnd sB then
    (false, (sourcePos, sourceLen, destPos, destLen))
  else if Qle_bool sB sStart || Float.Qltb sEnd 0%Q then
    (true, (sourcePos, sourceLen, destPos, destLen))
  else
    let dStart := if dstPositive then destPos else fl (destLen + destPos)%Q in
    let dEnd := if dstPositive then fl (destLen + destPos)%Q else destPos in
    let dLength := fl (dEnd - dStart)%Q in
    let delta := fl (sEnd - sB)%Q in
    let '(sLength, sEnd, dEnd, dLength) :=
      if Float.Qltb 0%Q delta then
        let dDelta := fl (fl (delta / sLength)%Q * dLength)%Q in
        (fl (sLength - delta)%Q, sB, fl (dEnd - dDelta)%Q, fl (dLength - dDelta)%Q)
      else (sLength, sEnd, dEnd, dLength) in
    let '(sLength, sStart, dStart, dLength) :=
      if Float.Qltb sStart 0%Q then
        let dDelta := fl (fl (sStart / sLength)%Q * dLength)%Q in
        (fl (sLength + sStart)%Q, 0%Q, fl (dStart - dDelta)%Q, fl (dLength + dDelta)%Q)
      else (sLength, sStart, dStart, dLength) in
    if negb normalize then
      (false,
       (if srcPositive then sStart else sEnd,
        if srcPositive then sLength else (- sLength)%Q,
        if dstPositive then dStart else dEnd,
        if dstPositive then dLength else (- dLength)%Q))
    else
      (* Ensure the source rect has positive dimensions, for blitting from
         mega surfaces *)
      let same := Bool.eqb dstPositive srcPositive in
      (false,
       (sStart, sLength,
        if same then dStart else dEnd,
        if same then dLength else (- dLength)%Q)).

(** The int overload of [shrinkRects]: the return value and the reference
    parameters sourcePos, sourceLen, destPos, destLen. *)
Definition shrinkRects (sourcePos sourceLen sBitmapLen
                        destPos destLen dBitmapLen : Z)
  : bool * (Z * Z * Z * Z) :=
  let fSourcePos := Float.float_of_int sourcePos in
  let fSourceLen := Float.float_of_int sourceLen in
  let fDestPos := Float.float_of_int destPos in
  let fDestLen := Float.float_of_int destLen in
  let '(ret, (fSourcePos, fSourceLen, fDestPos, fDestLen)) :=
    shrinkRectsF fSourcePos fSourceLen sBitmapLen
                 fDestPos fDestLen dBitmapLen true in
  let '(ret, (fDestPos, fDestLen, fSourcePos, fSourceLen)) :=
    if negb ret then
      shrinkRectsF fDestPos fDestLen dBitmapLen
                   fSourcePos fSourceLen sBitmapLen false
    else (ret, (fDestPos, fDestLen, fSourcePos, fSourceLen)) in
  let sourcePos := Float.c_round fSourcePos in
  let sourceLen := Float.c_round fSourceLen in
  let destPos := Float.c_round fDestPos in
  let destLen := Float.c_round fDestLen in
  (ret || (sourceLen =? 0) || (destLen =? 0),
   (sourcePos, sourceLen, destPos, destLen)).

(** The rectangle rescaled to a hi-res mirror:
    [rect.x * hires->width() / width()], and so on.  The product is formed
    in [int]: beyond the range of [int] it is undefined in C++, and has
    here the value of the 32-bit two's complement multiplication that
    x86-64 performs.  The division of C++ truncates. *)
Definition scaleRect (r : IntRect) (hiresW w hiresH h : Z) : IntRect :=
  mkIntRect (Z.quot (wrap 32 (rect_x r * hiresW)) w)
            (Z.quot (wrap 32 (rect_y r * hiresH)) h)
            (Z.quot (wrap 32 (rect_w r * hiresW)) w)
            (Z.quot (wrap 32 (rect_h r * hiresH)) h).

(** The composition path [stretchBlt] takes. *)
Inductive BlitPath :=
| MegaBlit (manualFlip blend scaled : bool)
    (* the destination is a mega surface: SDL blit in client memory *)
| FastBlit
    (* "Fast blit": GLMeta rectangle copy, no blending *)
| UploadBlit (direct : bool)
    (* a mega source uploaded into the texture, directly or through the
       general purpose TexFBO *)
| ShaderBlit.
    (* "Fragment pipeline": the blt shader *)

Record BlitOutcome := mkOutcome {
  out_vram : VRam;
  out_dest : Bitmap;
  out_path : option BlitPath
}.

(** [BitmapPrivate::onModified]; the [modified] signal of the bitmap, which
    marks child bitmaps dirty, has no receiver here. *)
Definition onModified (d : BitmapPrivate) (freeSurface : bool) : BitmapPrivate :=
  if has (surface d) && freeSurface then set_surface d None else d.

Section BitmapOps.

(** The services the bitmap code takes from its environment. *)
Variable maxTexSize : Z.          (* glState.caps.maxTexSize *)
Variable subImageFix : bool.      (* shState->config().subImageFix *)
Variable frameRate : Q.           (* shState->graphics().getFrameRate() *)
(** GLMeta::blitBegin / blitSource / blitRectangle / blitEnd: source
    image and rectangle, destination image and rectangle. *)
Variable GLMeta_blit : Image -> IntRect -> Image -> IntRect -> Image.
(** TEX::uploadSubImage: destination image, rectangle, pixels. *)
Variable TEX_uploadSubImage : Image -> IntRect -> Image -> Image.
(** The blt shader drawing a quad: source, destination, opacity. *)
Variable BltShader_draw : Image -> IntRect -> Image -> IntRect -> Z -> Image.
(** SDL_BlitSurface (scaled = false) and SDL_BlitScaled (scaled = true)
    with the blend mode and alpha modulation set on the source. *)
Variable SDL_Blit :
  forall (scaled blend : bool) (alphaMod : Z),
    SDL_Surface -> IntRect -> SDL_Surface -> IntRect -> SDL_Surface.
(** The texture pool. *)
Variable TexPool : Type.
Variable texPool_request : TexPool -> Z -> Z -> result (TEXFBO * TexPool).
Variable texPool_release : TexPool -> TEXFBO -> TexPool.

(** [Bitmap::createSurface], for its result: the cached surface, read
    back from the texture when there is none. *)
Definition createSurface (vram : VRam) (d : BitmapPrivate)
  : result SDL_Surface :=
  match surface d with
  | Some s => Ok s
  | None =>
      t ← getGLTypes d;
      Ok (mkSurface (tf_width t) (tf_height t) (tex_image vram t))
  end.

(** The manual flip of [stretchBlt]: "SDL can't handle negative
    dimensions when blitting, so we have to do it manually". *)
Definition flipCopy (srcSurf : SDL_Surface) (sourceRect : IntRect)
    (flipW flipH : bool) : SDL_Surface :=
  let sx dx := if flipW then rect_x sourceRect + rect_w sourceRect - 1 - dx
               else rect_x sourceRect + dx in
  let sy dy := if flipH then rect_y sourceRect + rect_h sourceRect - 1 - dy
               else rect_y sourceRect + dy in
  mkSurface (rect_w sourceRect) (rect_h sourceRect)
    (flat_map (fun dy =>
       List.map (fun dx => getPixelAt srcSurf (sx dx) (sy dy))
                (zrange 0 (rect_w sourceRect)))
       (zrange 0 (rect_h sourceRect))).

(** The part of [stretchBlt] after the clipping, for a destination that
    is a mega surface. *)
Definition blitMega (vram : VRam) (self source : Bitmap)
    (destSurf : SDL_Surface) (destRect sourceRect : IntRect)
    (opacity : Z) (touches : bool)
  : result (VRam * BitmapPrivate * IntRect * option BlitPath) :=
  srcSurf ← match megaSurface (p source) with
            | Some s => Ok s
            | None => createSurface vram (p source)
            end;
  let flip := (rect_w destRect <? 0) || (rect_h destRect <? 0) in
  let '(srcSurf, sourceRect, destRect) :=
    if flip then
      let flipW := rect_w destRect <? 0 in
      let flipH := rect_y destRect <? 0 in
      (flipCopy srcSurf sourceRect flipW flipH,
       mkIntRect 0 0 (rect_w sourceRect) (rect_h sourceRect),
       normalizedRect destRect)
    else (srcSurf, sourceRect, destRect) in
  let scaled := negb ((rect_w sourceRect =? rect_w destRect) &&
                      (rect_h sourceRect =? rect_h destRect)) in
  let destSurf :=
    SDL_Blit scaled touches opacity srcSurf sourceRect destSurf destRect in
  Ok (vram, set_megaSurface (p self) (Some destSurf), destRect,
      Some (MegaBlit flip touches scaled)).

(** The part of [stretchBlt] after the clipping, for a destination that
    is a texture.  The last component of the result is the composition
    step that was executed. *)
Definition blitTexture (vram : VRam) (self source : Bitmap)
    (destRect sourceRect : IntRect) (opacity : Z) (touches : bool)
  : result (VRam * BitmapPrivate * IntRect * option BlitPath) :=
  let srcSurf := megaSurface (p source) in
  if negb (has srcSurf) && (opacity =? 255) && negb touches then
    (* Fast blit *)
    dst ← getGLTypes (p self);
    src ← getGLTypes (p source);
    let img := GLMeta_blit (tex_image vram src) sourceRect
                           (tex_image vram dst) destRect in
    Ok (<[tex dst := img]> vram, p self, destRect, Some FastBlit)
  else
    (* if (srcSurf) { ... } *)
    '(vram, srcSurf, sourceRect, opacity, path) ←
      match srcSurf with
      | Some s =>
          let srcRectTooBig := (maxTexSize <? rect_w sourceRect) ||
                               (maxTexSize <? rect_h sourceRect) in
          let srcSurfTooBig := (maxTexSize <? surf_w s) ||
                               (maxTexSize <? surf_h s) in
          let '(s, sourceRect, opacity) :=
            if srcRectTooBig || srcSurfTooBig then
              let blitTemp :=
                if srcRectTooBig then
                  (* We have to resize it here anyway, so use software
                     resizing *)
                  let tmp := mkSurface (Z.abs (rect_w destRect))
                                       (Z.abs (rect_h destRect)) [] in
                  SDL_Blit true false opacity s sourceRect tmp
                    (mkIntRect 0 0 (surf_w tmp) (surf_h tmp))
                else
                  (* Just crop it, let the shader resize it later *)
                  let tmp := mkSurface (rect_w sourceRect)
                                       (rect_h sourceRect) [] in
                  SDL_Blit false false opacity s sourceRect tmp
                    (mkIntRect 0 0 (surf_w tmp) (surf_h tmp)) in
              (blitTemp,
               mkIntRect 0 0 (surf_w blitTemp) (surf_h blitTemp), 255)
            else (s, sourceRect, opacity) in
          if (opacity =? 255) && negb touches then
            if negb subImageFix &&
               (surf_w s =? rect_w destRect) &&
               (surf_h s =? rect_h destRect) &&
               (surf_w s =? rect_w sourceRect) &&
               (surf_h s =? rect_h sourceRect)
            then
              (* No scaling needed *)
              dst ← getGLTypes (p self);
              let img := TEX_uploadSubImage (tex_image vram dst) destRect
                                            (surf_pixels s) in
              Ok (<[tex dst := img]> vram, Some s, sourceRect, opacity,
                  Some (UploadBlit true))
            else
              (* Resizing or subImageFix involved: need to use
                 intermediary TexFBO *)
              let dst := gl (p self) in
              let img := GLMeta_blit (surf_pixels s) sourceRect
                                     (tex_image vram dst) destRect in
              Ok (<[tex dst := img]> vram, Some s, sourceRect, opacity,
                  Some (UploadBlit false))
          else Ok (vram, Some s, sourceRect, opacity, None)
      | None => Ok (vram, None, sourceRect, opacity, None)
      end;
    if (opacity <? 255) || touches then
      (* We're touching a tainted area or still need to reduce opacity:
         fragment pipeline *)
      dst ← getGLTypes (p self);
      src ← match srcSurf with
            | Some s => Ok (surf_pixels s)
            | None => t ← getGLTypes (p source); Ok (tex_image vram t)
            end;
      let img := BltShader_draw src sourceRect
                                (tex_image vram dst) destRect opacity in
      Ok (<[tex dst := img]> vram, p self, destRect, Some ShaderBlit)
    else Ok (vram, p self, destRect, path).

Definition unchanged (vram : VRam) (self : Bitmap) : result BlitOutcome :=
  Ok (mkOutcome vram self None).

(** The part of [stretchBlt] after the hi-res indirections: opacity,
    clipping, composition, taint and cache invalidation. *)
Definition blitClipped (vram : VRam) (self source : Bitmap)
    (destRect sourceRect : IntRect) (opacity : Z) : result BlitOutcome :=
  let opacity := clamp opacity 0 255 in
  if opacity =? 0 then unchanged vram self
  else
    sW ← width source; dW ← width self;
    let '(ret, (sx, sw, dx, dw)) :=
      shrinkRects (rect_x sourceRect) (rect_w sourceRect) sW
                  (rect_x destRect) (rect_w destRect) dW in
    if ret then unchanged vram self
    else
      sH ← height source; dH ← height self;
      let '(ret, (sy, sh, dy, dh)) :=
        shrinkRects (rect_y sourceRect) (rect_h sourceRect) sH
                    (rect_y destRect) (rect_h destRect) dH in
      if ret then unchanged vram self
      else
        let sourceRect := mkIntRect sx sy sw sh in
        let destRect := mkIntRect dx dy dw dh in
        let touches := touchesTaintedArea (p self) destRect in
        '(vram, d, destRect, path) ←
          match megaSurface (p self) with
          | Some destSurf =>
              blitMega vram self source destSurf
                       destRect sourceRect opacity touches
          | None =>
              blitTexture vram self source
                          destRect sourceRect opacity touches
          end;
        let d := addTaintedArea d destRect in
        let d := onModified d true in
        Ok (mkOutcome vram (set_p self d) path).

(** [Bitmap::stretchBlt].  The read-back of the source into its own CPU
    cache (the mega path calls [source.createSurface()]) is not recorded:
    the source is an input only. *)
Fixpoint stretchBlt (vram : VRam) (self : Bitmap) {struct self}
  : Bitmap -> IntRect -> IntRect -> Z -> result BlitOutcome :=
  fix from (source : Bitmap) {struct source}
    : IntRect -> IntRect -> Z -> result BlitOutcome :=
    fun destRect sourceRect opacity =>
    _ ← guardDisposed self;
    if isDisposed source then unchanged vram self
    else
      match selfHires self with
      | Some hires =>
          hiresW ← width hires; w ← width self;
          hiresH ← height hires; h ← height self;
          out ← stretchBlt vram hires source
                  (scaleRect destRect hiresW w hiresH h) sourceRect opacity;
          Ok (mkOutcome (out_vram out)
                        (set_selfHires self (Some (out_dest out)))
                        (out_path out))
      | None =>
          match selfHires source with
          | Some sourceHires =>
              hiresW ← width sourceHires; w ← width source;
              hiresH ← height sourceHires; h ← height source;
              from sourceHires destRect
                   (scaleRect sourceRect hiresW w hiresH h) opacity
          | None =>
              blitClipped vram self source destRect sourceRect opacity
          end
      end.

(** [Bitmap::blt] *)
Definition blt (vram : VRam) (self : Bitmap) (x y : Z) (source : Bitmap)
    (rect : IntRect) (opacity : Z) : result BlitOutcome :=
  if isDisposed source then unchanged vram self
  else stretchBlt vram self source
         (mkIntRect x y (rect_w rect) (rect_h rect)) rect opacity.

(** A loop whose body may raise. *)
Fixpoint foldM {A S : Type} (f : S -> A -> result S) (l : list A) (s : S)
  : result S :=
  match l with
  | [] => Ok s
  | a :: l => s ← f s a; foldM f l s
  end.

(** The pixels of the mirror a pixel (x, y) stands for: thisX from xHires
    while [thisX < xHires + w && thisX < hires->width()], and the same for
    thisY.  The products are formed in [int], as in [scaleRect]. *)
Definition hiresPixels (x y hiresW w hiresH h : Z) : list (Z * Z) :=
  let xHires := Z.quot (wrap 32 (x * hiresW)) w in
  let yHires := Z.quot (wrap 32 (y * hiresH)) h in
  let w' := Z.quot hiresW w in
  let h' := Z.quot hiresH h in
  if (1 <=? w') && (1 <=? h') then
    flat_map (fun thisX =>
      List.map (fun thisY => (thisX, thisY))
               (zrange yHires (Z.min (yHires + h') hiresH)))
      (zrange xHires (Z.min (xHires + w') hiresW))
  else [].

(** The number of mirrors behind a bitmap. *)
Fixpoint mirrors (b : Bitmap) : nat :=
  match selfHires b with Some hires => S (mirrors hires) | None => O end.

(** [Bitmap::setPixel].  The calls on the mirror follow one another on the
    mirror as the previous call left it; [fuel] bounds the number of
    mirrors the call descends through. *)
Fixpoint setPixel_fuel (fuel : nat) (vram : VRam) (self : Bitmap)
    (x y : Z) (color : Color) : result (VRam * Bitmap) :=
  _ ← guardDisposed self;
  _ ← GUARD_ANIMATED self;
  '(vram, self) ←
    match selfHires self, fuel with
    | Some hires, S fuel =>
        hiresW ← width hires; w ← width self;
        hiresH ← height hires; h ← height self;
        '(vram, hires) ←
          foldM (fun '(vram, hires) '(thisX, thisY) =>
                   setPixel_fuel fuel vram hires thisX thisY color)
                (hiresPixels x y hiresW w hiresH h) (vram, hires);
        Ok (vram, set_selfHires self (Some hires))
    | _, _ => Ok (vram, self)
    end;
  let pixel :=
    [ uint8_of_double (clampQ (red color) 0 255);
      uint8_of_double (clampQ (green color) 0 255);
      uint8_of_double (clampQ (blue color) 0 255);
      uint8_of_double (clampQ (alpha color) 0 255) ] in
  let word := SDL_MapRGBA (uint8_of_double (clampQ (red color) 0 255))
                          (uint8_of_double (clampQ (green color) 0 255))
                          (uint8_of_double (clampQ (blue color) 0 255))
                          (uint8_of_double (clampQ (alpha color) 0 255)) in
  let d := p self in
  let vram :=
    if negb (has (megaSurface d)) then
      <[tex (gl d) := TEX_uploadSubImage (tex_image vram (gl d))
                        (mkIntRect x y 1 1) pixel]> vram
    else vram in
  let d := addTaintedArea d (mkIntRect x y 1 1) in
  let d :=
    match megaSurface d with
    | Some surf => set_megaSurface d (Some (setPixelAt surf x y word))
    | None =>
        (* Setting just a single pixel is no reason to throw away the
           whole cached surface; we can just apply the same change *)
        match surface d with
        | Some surf => set_surface d (Some (setPixelAt surf x y word))
        | None => d
        end
    end in
  let d := onModified d false in
  Ok (vram, set_p self d).

Definition setPixel (vram : VRam) (self : Bitmap) (x y : Z) (color : Color)
  : result (VRam * Bitmap) :=
  setPixel_fuel (mirrors self) vram self x y color.

(** The sums of the averaging loop of [getPixel]. *)
Record ColorSum := mkColorSum {
  rSum : Q; gSum : Q; bSum : Q; aSum : Q;
  rgbCount : Z; aCount : Z
}.

Definition addColor (s : ColorSum) (c : Color) : ColorSum :=
  let opaque := Qle_bool 1 (alpha c) in
  mkColorSum
    (if opaque then Float.fl64 (rSum s + red c) else rSum s)
    (if opaque then Float.fl64 (gSum s + green c) else gSum s)
    (if opaque then Float.fl64 (bSum s + blue c) else bSum s)
    (Float.fl64 (aSum s + alpha c))
    (if opaque then rgbCount s + 1 else rgbCount s)
    (aCount s + 1).

(** The averages; a division by a zero count gives 0 here, where the C++
    division of doubles gives a NaN. *)
Definition averageColor (s : ColorSum) : Color :=
  mkColor (Float.fl64 (rSum s / inject_Z (rgbCount s)))
          (Float.fl64 (gSum s / inject_Z (rgbCount s)))
          (Float.fl64 (bSum s / inject_Z (rgbCount s)))
          (Float.fl64 (aSum s / inject_Z (aCount s))).

(** [Bitmap::getPixel]: the colour, and the bitmap with the CPU cache the
    call may have created ([createSurface] on a [const] bitmap). *)
Fixpoint getPixel_fuel (fuel : nat) (vram : VRam) (self : Bitmap) (x y : Z)
  : result (Color * Bitmap) :=
  _ ← guardDisposed self;
  _ ← GUARD_ANIMATED self;
  averaged ←
    match selfHires self, fuel with
    | Some hires, S fuel =>
        hiresW ← width hires; w ← width self;
        hiresH ← height hires; h ← height self;
        if (1 <=? Z.quot hiresW w) && (1 <=? Z.quot hiresH h) then
          '(sum, hires) ←
            foldM (fun '(sum, hires) '(thisX, thisY) =>
                     '(thisColor, hires) ←
                       getPixel_fuel fuel vram hires thisX thisY;
                     Ok (addColor sum thisColor, hires))
                  (hiresPixels x y hiresW w hiresH h)
                  (mkColorSum 0 0 0 0 0 0, hires);
          Ok (Some (averageColor sum, set_selfHires self (Some hires)))
        else Ok None
    | _, _ => Ok None
    end;
  match averaged with
  | Some r => Ok r
  | None =>
      w ← width self; h ← height self;
      if (x <? 0) || (y <? 0) || (w <=? x) || (h <=? y) then
        Ok (Color_of_Vec4 Vec4_zero, self)
      else
        '(surf, self) ←
          match megaSurface (p self), surface (p self) with
          | Some surf, _ => Ok (surf, self)
          | None, Some surf => Ok (surf, self)
          | None, None =>
              surf ← createSurface vram (p self);
              Ok (surf, set_p self (set_surface (p self) (Some surf)))
          end;
        let pixel := getPixelAt surf x y in
        Ok (mkColor (inject_Z (Z.land (Z.shiftr pixel 0) 255))
                    (inject_Z (Z.land (Z.shiftr pixel 8) 255))
                    (inject_Z (Z.land (Z.shiftr pixel 16) 255))
                    (inject_Z (Z.land (Z.shiftr pixel 24) 255)),
            self)
  end.

Definition getPixel (vram : VRam) (self : Bitmap) (x y : Z)
  : result (Color * Bitmap) :=
  getPixel_fuel (mirrors self) vram self x y.

(** [Bitmap::taintArea] *)
Fixpoint taintArea (self : Bitmap) (rect : IntRect) : result Bitmap :=
  _ ← guardDisposed self;
  self ←
    match selfHires self with
    | Some hires =>
        hiresW ← width hires; w ← width self;
        hiresH ← height hires; h ← height self;
        hires ← taintArea hires (scaleRect rect hiresW w hiresH h);
        Ok (set_selfHires self (Some hires))
    | None => Ok self
    end;
  Ok (set_p self (addTaintedArea (p self) rect)).

(** [frames.insert(frames.begin() + k, newframe)] *)
Definition insertFrame (k : Z) (newframe : TEXFBO) (l : list TEXFBO)
  : list TEXFBO :=
  take (Z.to_nat k) l ++ newframe :: drop (Z.to_nat k) l.

(** [Bitmap::addFrame]: the return value, the textures, the pool and the
    bitmap.  The source is another object than the bitmap itself. *)
Definition addFrame (vram : VRam) (pool : TexPool) (self source : Bitmap)
    (position : Z) : result (Z * VRam * TexPool * Bitmap) :=
  _ ← guardDisposed self;
  _ ← GUARD_MEGA self;
  _ ← hasHires self;
  _ ← hasHires source;
  sourceH ← height source; h ← height self;
  sourceW ← width source; w ← width self;
  if negb (sourceH =? h) || negb (sourceW =? w) then Err MKXPError_dimensions
  else
    '(newframe, pool) ← texPool_request pool sourceW sourceH;
    (* Convert the bitmap into an animated bitmap if it isn't already one *)
    let d := p self in
    let d :=
      if negb (enabled (animation d)) then
        let a := animation d in
        let a :=
          mkAnimation (tf_width (gl d)) (tf_height (gl d)) true (playing a)
            (needsReset a) (loop a) (frames a ++ [gl d])
            (if Qle_bool (fps a) 0 then frameRate else fps a)
            0 0%Q 0%Q in
        set_gl (set_surface (set_animation d a) None) TEXFBO_null
      else d in
    let self := set_p self d in
    '(vram, d) ←
      match surface (p source) with
      | Some surf =>
          Ok (<[tex newframe := surf_pixels surf]> vram, set_surface d None)
      | None =>
          src ← getGLTypes (p source);
          r ← rect self;
          Ok (<[tex newframe := GLMeta_blit (tex_image vram src) r
                                  (tex_image vram newframe) r]> vram, d)
      end;
    let a := animation d in
    let '(fs, ret) :=
      if position <? 0 then
        let fs := frames a ++ [newframe] in
        (fs, Z.of_nat (length fs))
      else
        (insertFrame (clamp position 0 (Anim.size a)) newframe (frames a),
         position) in
    let a := mkAnimation (anim_width a) (anim_height a) (enabled a)
               (playing a) (needsReset a) (loop a) fs (fps a)
               (lastFrame a) (startTime a) (playTime a) in
    Ok (ret, vram, pool, set_p self (set_animation d a)).

(** [Bitmap::removeFrame] *)
Definition removeFrame (pool : TexPool) (self : Bitmap) (position : Z)
  : result (TexPool * Bitmap) :=
  _ ← guardDisposed self;
  _ ← GUARD_UNANIMATED self;
  let d := p self in
  let a := animation d in
  let pos := if position <? 0 then Anim.size a - 1
             else clamp position 0 (Anim.size a - 1) in
  if pos <? 0 then Err Undefined_out_of_range
  else
    match frames a !! Z.to_nat pos with
    | None => Err Undefined_out_of_range
    | Some released =>
        let pool := texPool_release pool released in
        let fs := delete (Z.to_nat pos) (frames a) in
        (* Change the animated bitmap back to a normal one if there's only
           one frame left *)
        match fs with
        | [remaining] =>
            let a := mkAnimation 0 0 false false (needsReset a) (loop a) []
                       (fps a) 0 (startTime a) (playTime a) in
            let self := set_p self (set_gl (set_animation d a) remaining) in
            r ← rect self;
            self ← taintArea self r;
            Ok (pool, self)
        | _ =>
            let a := mkAnimation (anim_width a) (anim_height a) (enabled a)
                       (playing a) (needsReset a) (loop a) fs (fps a)
                       (lastFrame a) (startTime a) (playTime a) in
            Ok (pool, set_p self (set_animation d a))
        end
    end.

End BitmapOps.

(** ** The child viewport: pan position

    [Bitmap::childUpdate] from the line that computes [selfWidth] to the
    line that wraps [newParentPos] for rendering.  What the earlier part of
    the function computes, in floats for the shrink factor, is given:
    [selfWidth] and [selfHeight], the visible rectangle, the adjusted source
    rectangle, the offsets, and whether an update is already needed. *)
Record ChildView := mkChildView {
  cv_updateNeeded : bool;       (* pChild->dirty, or the shrink changed *)
  cv_wrap : bool;               (* pChild->shared.wrap *)
  cv_mirror : bool;             (* isSprite && pChild->shared.mirrored *)
  cv_lateUpdate : bool;         (* the sprite branch asks for an update *)
  cv_selfWidth : Z;             (* round(width() / shrink.x) *)
  cv_selfHeight : Z;            (* round(height() / shrink.y) *)
  cv_visibleRect : IntRect;
  cv_adjustedSrcRect : IntRect;
  cv_realOX : Z;
  cv_realOY : Z
}.

Record PanResult := mkPanResult {
  pan_parentPos : Vec2i;        (* pChild->parentPos after the call *)
  pan_newParentPos : Vec2i;     (* newParentPos as the rendering uses it *)
  pan_stored : bool;            (* pChild->parentPos was assigned *)
  pan_updateNeeded : bool       (* the child is rendered again *)
}.

(** One axis of the loop body: the new value of newParentPos.x (or .y). *)
Definition panAxis (updateNeeded wrap : bool)
    (adjustedrealO minO maxO maxO2 selfLen srcLen overflow current : Z) : Z :=
  if updateNeeded ||
     ((adjustedrealO <? minO) &&
      (negb wrap || (maxO2 =? maxO) || (maxO2 <? adjustedrealO))) ||
     (maxO <? adjustedrealO)
  then
    let pos := if srcLen <=? selfLen then 0
               else adjustedrealO - Z.quot overflow 2 in
    if negb wrap then clamp pos 0 (Z.max (srcLen - selfLen) 0) else pos
  else current.

(** [for (int i = 0; i < 2; i++)]: the iterations left, the flag, the
    stored and the new position. *)
Fixpoint panLoop (iterations : nat) (step : bool -> Vec2i -> Vec2i)
    (updateNeeded : bool) (parentPos newParentPos : Vec2i)
  : bool * Vec2i * Vec2i :=
  match iterations with
  | O => (updateNeeded, parentPos, newParentPos)
  | S iterations =>
      let newParentPos := step updateNeeded newParentPos in
      let parentPos := if updateNeeded then newParentPos else parentPos in
      (* If either x or y was updated, run through it again to update the
         other one *)
      if negb (Vec2i_eqb newParentPos parentPos)
      then panLoop iterations step true parentPos newParentPos
      else (updateNeeded, parentPos, newParentPos)
  end.

Definition childUpdate_pan (v : ChildView) (parentPos : Vec2i) : PanResult :=
  let wrap := cv_wrap v in
  let selfWidth := cv_selfWidth v in
  let selfHeight := cv_selfHeight v in
  let visibleRect := cv_visibleRect v in
  let adjustedSrcRect := cv_adjustedSrcRect v in
  let overflowX := Z.max (selfWidth - rect_w visibleRect) 0 in
  let overflowY := Z.max (selfHeight - rect_h visibleRect) 0 in
  let minOX := vec_x parentPos in
  let minOY := vec_y parentPos in
  let maxOX := minOX + overflowX in
  let maxOY := minOY + overflowY in
  let maxOX2 := wrapRange maxOX 0 (rect_w adjustedSrcRect) in
  let maxOY2 := wrapRange maxOY 0 (rect_h adjustedSrcRect) in
  let adjustedrealOX := - rect_x visibleRect + cv_realOX v in
  let adjustedrealOY := - rect_y visibleRect + cv_realOY v in
  let adjustedrealOX :=
    if wrap then wrapRange adjustedrealOX 0 (rect_w adjustedSrcRect)
    else adjustedrealOX in
  let adjustedrealOY :=
    if wrap then wrapRange adjustedrealOY 0 (rect_h adjustedSrcRect)
    else adjustedrealOY in
  let step updateNeeded newParentPos :=
    mkVec2i
      (panAxis updateNeeded wrap adjustedrealOX minOX maxOX maxOX2
               selfWidth (rect_w adjustedSrcRect) overflowX
               (vec_x newParentPos))
      (panAxis updateNeeded wrap adjustedrealOY minOY maxOY maxOY2
               selfHeight (rect_h adjustedSrcRect) overflowY
               (vec_y newParentPos)) in
  let '(stored, parentPos, newParentPos) :=
    panLoop 2 step (cv_updateNeeded v) parentPos parentPos in
  let newParentPos :=
    if cv_mirror v then
      mkVec2i (Z.max (rect_w adjustedSrcRect - selfWidth) 0
               - vec_x newParentPos)
              (vec_y newParentPos)
    else newParentPos in
  let updateNeeded := stored || cv_lateUpdate v in
  let newParentPos :=
    if updateNeeded && wrap then
      mkVec2i (wrapRange (vec_x newParentPos) 0 (rect_w adjustedSrcRect))
              (wrapRange (vec_y newParentPos) 0 (rect_h adjustedSrcRect))
    else newParentPos in
  mkPanResult parentPos newParentPos stored updateNeeded.

(** ** Predicates on the arguments of [stretchBlt] *)

(** A coordinate that single precision holds exactly, together with the
    sum of two such coordinates. *)
Definition small (z : Z) : Prop := Z.abs z <= 2 ^ 23.

Definition rect_small (r : IntRect) : Prop :=
  small (rect_x r) /\ small (rect_y r) /\ small (rect_w r) /\ small (rect_h r).

(** The span from [pos] to [pos + len], in either direction, has no pixel
    in common with a bitmap of length [bitmapLen]. *)
Definition outside_axis (pos len bitmapLen : Z) : Prop :=
  Z.max pos (pos + len) <= 0 \/ bitmapLen <= Z.min pos (pos + len).

(** [width()] and [height()] of a bitmap that is not disposed. *)
Definition width_of (b : Bitmap) : Z :=
  match megaSurface (p b) with
  | Some s => surf_w s
  | None => if enabled (animation (p b)) then anim_width (animation (p b))
            else tf_width (gl (p b))
  end.

Definition height_of (b : Bitmap) : Z :=
  match megaSurface (p b) with
  | Some s => surf_h s
  | None => if enabled (animation (p b)) then anim_height (animation (p b))
            else tf_height (gl (p b))
  end.

(** The source rectangle lies outside the source bitmap on either axis. *)
Definition outside (source : Bitmap) (sourceRect : IntRect) : Prop :=
  outside_axis (rect_x sourceRect) (rect_w sourceRect) (width_of source) \/
  outside_axis (rect_y sourceRect) (rect_h sourceRect) (height_of source).

(** The bitmap and rectangle [stretchBlt] ends up working on: the hi-res
    mirror in place of the bitmap, the rectangle rescaled. *)
Fixpoint mirrored (b : Bitmap) (r : IntRect) : Bitmap * IntRect :=
  match selfHires b with
  | Some hires =>
      mirrored hires (scaleRect r (width_of hires) (width_of b)
                                  (height_of hires) (height_of b))
  | None => (b, r)
  end.

(** A value of the C++ type [int]. *)
Definition int_range (z : Z) : Prop := - 2 ^ 31 <= z < 2 ^ 31.

(** The rescaling of the rectangle to the mirrors is defined in C++: each
    bitmap that has a mirror has positive dimensions to divide by, and the
    products of the coordinates and the dimensions of the mirror stay
    within [int]. *)
Fixpoint scalable (b : Bitmap) (r : IntRect) : Prop :=
  match selfHires b with
  | Some hires =>
      0 < width_of b /\ 0 < height_of b /\
      int_range (rect_x r * width_of hires) /\
      int_range (rect_y r * height_of hires) /\
      int_range (rect_w r * width_of hires) /\
      int_range (rect_h r * height_of hires) /\
      scalable hires (scaleRect r (width_of hires) (width_of b)
                                  (height_of hires) (height_of b))
  | None => True
  end.

(** Neither the bitmap nor its mirror is disposed. *)
Fixpoint live (b : Bitmap) : Prop :=
  disposed b = false /\
  match selfHires b with Some hires => live hires | None => True end.

(** The bitmap and its mirror have positive dimensions, as the
    constructors ensure, of at most 2^24 pixels. *)
Fixpoint dimensioned (b : Bitmap) : Prop :=
  0 < width_of b <= 2 ^ 24 /\ 0 < height_of b <= 2 ^ 24 /\
  match selfHires b with Some hires => dimensioned hires | None => True end.

(** The two clipping steps of [stretchBlt] on bitmaps that are not
    disposed: the clipped destination and source rectangles, or nothing when
    either step reports that there is nothing to blit. *)
Definition clipRects (self source : Bitmap) (destRect sourceRect : IntRect)
  : option (IntRect * IntRect) :=
  let '(ret, (sx, sw, dx, dw)) :=
    shrinkRects (rect_x sourceRect) (rect_w sourceRect) (width_of source)
                (rect_x destRect) (rect_w destRect) (width_of self) in
  if ret then None
  else
    let '(ret, (sy, sh, dy, dh)) :=
      shrinkRects (rect_y sourceRect) (rect_h sourceRect) (height_of source)
                  (rect_y destRect) (rect_h destRect) (height_of self) in
    if ret then None
    else Some (mkIntRect dx dy dw dh, mkIntRect sx sy sw sh).

(** srcRectTooBig || srcSurfTooBig of [stretchBlt], for a mega source. *)
Definition sourceTooBig (maxTexSize : Z) (source : Bitmap)
    (sourceRect : IntRect) : bool :=
  match megaSurface (p source) with
  | Some s =>
      (maxTexSize <? rect_w sourceRect) || (maxTexSize <? rect_h sourceRect) ||
      ((maxTexSize <? surf_w s) || (maxTexSize <? surf_h s))
  | None => false
  end.

(** The word [setPixel] stores for a colour: the channels limited to
    [0, 255], cut to bytes and packed as ABGR8888. *)
Definition colorWord (color : Color) : Z :=
  SDL_MapRGBA (uint8_of_double (clampQ (red color) 0 255))
              (uint8_of_double (clampQ (green color) 0 255))
              (uint8_of_double (clampQ (blue color) 0 255))
              (uint8_of_double (clampQ (alpha color) 0 255)).

(** ** [Bitmap]: the animation interface *)

Definition set_fps (a : Animation) (v : Q) : Animation :=
  mkAnimation (anim_width a) (anim_height a) (enabled a) (playing a)
    (needsReset a) (loop a) (frames a) v (lastFrame a)
    (startTime a) (playTime a).

Definition set_frames (a : Animation) (v : list TEXFBO) : Animation :=
  mkAnimation (anim_width a) (anim_height a) (enabled a) (playing a)
    (needsReset a) (loop a) v (fps a) (lastFrame a)
    (startTime a) (playTime a).

(** The bitmap with its animation record replaced. *)
Definition with_animation (b : Bitmap) (a : Animation) : Bitmap :=
  set_p b (set_animation (p b) a).

(** A value of type [size_t]: unsigned, 64 bits on the platforms the
    engine is built for. *)
Definition size_t (z : Z) : Z := z mod 2 ^ 64.

(** [Bitmap::isAnimated] *)
Definition isAnimated (b : Bitmap) : result bool :=
  _ ← guardDisposed b; Ok (enabled (animation (p b))).

(** [Bitmap::stop] *)
Definition Bitmap_stop (b : Bitmap) : result Bitmap :=
  _ ← guardDisposed b;
  _ ← GUARD_UNANIMATED b;
  if negb (playing (animation (p b))) then Ok b
  else
    _ ← hasHires b;
    Ok (with_animation b (Anim.stop (animation (p b)))).

(** [Bitmap::isPlaying]; the comparison of the [unsigned int] raw index
    with [frames.size()] is one of unsigned values. *)
Definition isPlaying (b : Bitmap) : result bool :=
  _ ← guardDisposed b;
  _ ← hasHires b;
  let a := animation (p b) in
  if negb (playing a) then Ok false
  else if loop a then Ok true
  else Ok (Anim.currentFrameIRaw a <? size_t (Anim.size a)).

(** [Bitmap::numFrames] *)
Definition numFrames (b : Bitmap) : result Z :=
  _ ← guardDisposed b;
  _ ← hasHires b;
  if negb (enabled (animation (p b))) then Ok 1
  else Ok (Anim.size (animation (p b))).

(** [Bitmap::nextFrame]; [(uint32_t)lastFrame >= frames.size() - 1]
    compares unsigned values. *)
Definition nextFrame (b : Bitmap) : result Bitmap :=
  _ ← guardDisposed b;
  _ ← GUARD_UNANIMATED b;
  _ ← hasHires b;
  b ← Bitmap_stop b;
  let a := animation (p b) in
  if size_t (Anim.size a - 1) <=? size_t (lastFrame a mod 2 ^ 32) then
    if negb (loop a) then Ok b
    else Ok (with_animation b (Anim.set_lastFrame a 0))
  else Ok (with_animation b (Anim.set_lastFrame a (lastFrame a + 1))).

(** [Bitmap::previousFrame] *)
Definition previousFrame (b : Bitmap) : result Bitmap :=
  _ ← guardDisposed b;
  _ ← GUARD_UNANIMATED b;
  _ ← hasHires b;
  b ← Bitmap_stop b;
  let a := animation (p b) in
  if lastFrame a <=? 0 then
    if negb (loop a) then Ok (with_animation b (Anim.set_lastFrame a 0))
    else Ok (with_animation b (Anim.set_lastFrame a (Anim.size a - 1)))
  else Ok (with_animation b (Anim.set_lastFrame a (lastFrame a - 1))).

(** [Bitmap::setAnimationFPS] *)
Definition setAnimationFPS (b : Bitmap) (FPS : Q) : result Bitmap :=
  _ ← guardDisposed b;
  _ ← GUARD_MEGA b;
  _ ← hasHires b;
  let a := animation (p b) in
  let restart := playing a in
  let a := Anim.stop a in
  let a := set_fps a (if Float.Qltb FPS 0 then 0%Q else FPS) in
  let a := if restart then Anim.play a else a in
  Ok (with_animation b a).

(** [Bitmap::getAnimationFPS] *)
Definition getAnimationFPS (b : Bitmap) : result Q :=
  _ ← guardDisposed b;
  _ ← GUARD_MEGA b;
  _ ← hasHires b;
  Ok (fps (animation (p b))).

(** [BitmapPrivate::prepare], the slot of the prepareDraw signal, with the
    value of [shState->runTime()]. *)
Definition prepare (runTime : Q) (d : BitmapPrivate) : BitmapPrivate :=
  let a := animation d in
  if negb (enabled a) || negb (playing a) then d
  else set_animation d (Anim.updateTimer runTime a).

(** ** Text helpers *)

(** A C string is the list of its bytes before the terminating NUL, each
    an [unsigned char] value.  [str[i]] reads a byte of the string, the
    terminator at offset [length str]; further offsets are outside the
    array. *)
Definition char_at (str : list Z) (i : nat) : result Z :=
  match str !! i with
  | Some c => Ok c
  | None => if (i =? length str)%nat then Ok 0
            else Err Undefined_out_of_range
  end.

(** [fixupString] *)
Definition fixupString (str : list Z) : list Z :=
  List.map (fun c => if (c =? 13) || (c =? 10) then 32 else c) str.

(** [utf8_to_ucs2]: the [uint16_t] return value and the offset of
    [*end_ptr] from [_input]. *)
Definition utf8_to_ucs2 (input : list Z) : result (Z * nat) :=
  c0 ← char_at input 0;
  if c0 =? 0 then Ok ((-1) mod 2 ^ 16, 0%nat)
  else if c0 <? 128 then Ok (c0 mod 2 ^ 16, 1%nat)
  else if Z.land c0 224 =? 224 then
    c1 ← char_at input 1;
    if c1 =? 0 then Ok ((-1) mod 2 ^ 16, 0%nat)
    else
      c2 ← char_at input 2;
      if c2 =? 0 then Ok ((-1) mod 2 ^ 16, 0%nat)
      else
        Ok (Z.lor (Z.lor (Z.shiftl (Z.land c0 15) 12)
                         (Z.shiftl (Z.land c1 63) 6))
                  (Z.land c2 63) mod 2 ^ 16,
            3%nat)
  else if Z.land c0 192 =? 192 then
    c1 ← char_at input 1;
    if c1 =? 0 then Ok ((-1) mod 2 ^ 16, 0%nat)
    else
      Ok (Z.lor (Z.shiftl (Z.land c0 31) 6) (Z.land c1 63) mod 2 ^ 16,
          2%nat)
  else Ok ((-1) mod 2 ^ 16, 0%nat).

(** The UTF-8 encoding of a code point of the Basic Multilingual Plane
    (RFC 3629), for the statement of what [utf8_to_ucs2] decodes. *)
Definition utf8_encode (c : Z) : list Z :=
  if c <? 128 then [c]
  else if c <? 2048 then [192 + c / 64; 128 + c mod 64]
  else [224 + c / 4096; 128 + (c / 64) mod 64; 128 + c mod 64].

(** The checks and the value of the decoder on the encoding of [c], for
    the two- and the three-byte forms. *)
Definition decodes2 (c : Z) : bool :=
  let b0 := 192 + c / 64 in
  let b1 := 128 + c mod 64 in
  negb (b0 =? 0) && negb (b0 <? 128) && negb (Z.land b0 224 =? 224) &&
  (Z.land b0 192 =? 192) && negb (b1 =? 0) &&
  (Z.lor (Z.shiftl (Z.land b0 31) 6) (Z.land b1 63) mod 2 ^ 16 =? c).

Definition decodes3 (c : Z) : bool :=
  let b0 := 224 + c / 4096 in
  let b1 := 128 + (c / 64) mod 64 in
  let b2 := 128 + c mod 64 in
  negb (b0 =? 0) && negb (b0 <? 128) && (Z.land b0 224 =? 224) &&
  negb (b1 =? 0) && negb (b2 =? 0) &&
  (Z.lor (Z.lor (Z.shiftl (Z.land b0 15) 12) (Z.shiftl (Z.land b1 63) 6))
         (Z.land b2 63) mod 2 ^ 16 =? c).

(** The surface [getPixel] reads when there is one: the mega surface, or
    else the cached surface. *)
Definition cpuSurface (d : BitmapPrivate) : option SDL_Surface :=
  match megaSurface d with
  | Some s => Some s
  | None => surface d
  end.

(** ** Drawing operations *)

(** What the functions below raise besides the exceptions above, and the
    outcomes the C++ standard leaves undefined. *)
Inductive Failure :=
| Raised (e : Exception)
| MKXPError_raw_size      (* "Replacement bitmap data is not large enough" *)
| Undefined_conversion.   (* a NaN converted to an integer *)

Inductive outcome (A : Type) :=
| Done (a : A)
| Failed (f : Failure).
Arguments Done {A} a.
Arguments Failed {A} f.

#[global] Instance outcome_ret : MRet outcome := fun A a => Done a.

#[global] Instance outcome_bind : MBind outcome := fun A B k r =>
  match r with Done a => k a | Failed f => Failed f end.

Definition lift {A} (r : result A) : outcome A :=
  match r with Ok a => Done a | Err e => Failed (Raised e) end.

(** [memcpy(dst, src, n)] for [n] pixels of four bytes: the first [n]
    words of [dst] are those of [src]; either buffer being shorter is an
    access outside it. *)
Definition memcpy (dst src : Image) (n : Z) : result Image :=
  if (Z.of_nat (length src) <? n) || (Z.of_nat (length dst) <? n)
  then Err Undefined_out_of_range
  else Ok (take (Z.to_nat n) src ++ drop (Z.to_nat n) dst).

Section Drawing.

(** FBO::clear on the bound framebuffer: the image, the scissor box when
    the call sets one, the clear colour. *)
Variable FBO_clear : Image -> option IntRect -> Vec4 -> Image.
(** SDL_FillRect: surface, rectangle, pixel value; the pixels of the
    surface after the call. *)
Variable SDL_FillRect : SDL_Surface -> IntRect -> Z -> Image.
(** The simpleColor shader drawing a quad over the rectangle, with the
    colours of the two ends and the direction. *)
Variable SimpleColorShader_draw :
  Image -> IntRect -> Vec4 -> Vec4 -> bool -> Image.

(** The surface after SDL_FillRect. *)
Definition fillSurface (s : SDL_Surface) (rect : IntRect) (color : Z)
  : SDL_Surface :=
  mkSurface (surf_w s) (surf_h s) (SDL_FillRect s rect color).

(** [BitmapPrivate::fillRect] *)
Definition BitmapPrivate_fillRect (vram : VRam) (d : BitmapPrivate)
    (rect : IntRect) (color : Vec4) : result (VRam * BitmapPrivate) :=
  match megaSurface d with
  | Some s =>
      let channel v :=
        uint8_of_double (Float.fl32 (clampQ v 0 1 * 255)%Q) in
      let r := channel (v4_x color) in
      let g := channel (v4_y color) in
      let b := channel (v4_z color) in
      let a := channel (v4_w color) in
      Ok (vram,
          set_megaSurface d (Some (fillSurface s rect (SDL_MapRGBA r g b a))))
  | None =>
      t ← getGLTypes d;
      Ok (<[tex t := FBO_clear (tex_image vram t)
                       (Some (normalizedRect rect)) color]> vram, d)
  end.

(** [Bitmap::fillRect] *)
Fixpoint fillRect (vram : VRam) (self : Bitmap) (rect : IntRect)
    (color : Vec4) {struct self} : result (VRam * Bitmap) :=
  _ ← guardDisposed self;
  _ ← GUARD_ANIMATED self;
  '(vram, self) ←
    match selfHires self with
    | Some hires =>
        hiresW ← width hires; w ← width self;
        hiresH ← height hires; h ← height self;
        '(vram, hires) ←
          fillRect vram hires (scaleRect rect hiresW w hiresH h) color;
        Ok (vram, set_selfHires self (Some hires))
    | None => Ok (vram, self)
    end;
  '(vram, d) ← BitmapPrivate_fillRect vram (p self) rect color;
  let d :=
    if Qeq_bool (v4_w color) 0
    then (* Clear op *) substractTaintedArea d rect
    else (* Fill op *) addTaintedArea d rect in
  Ok (vram, set_p self (onModified d true)).

(** [Bitmap::clearRect] *)
Fixpoint clearRect (vram : VRam) (self : Bitmap) (rect : IntRect)
    {struct self} : result (VRam * Bitmap) :=
  _ ← guardDisposed self;
  _ ← GUARD_ANIMATED self;
  '(vram, self) ←
    match selfHires self with
    | Some hires =>
        hiresW ← width hires; w ← width self;
        hiresH ← height hires; h ← height self;
        '(vram, hires) ←
          clearRect vram hires (scaleRect rect hiresW w hiresH h);
        Ok (vram, set_selfHires self (Some hires))
    | None => Ok (vram, self)
    end;
  '(vram, d) ← BitmapPrivate_fillRect vram (p self) rect Vec4_zero;
  let d := substractTaintedArea d rect in
  Ok (vram, set_p self (onModified d true)).

(** [Bitmap::clear] *)
Fixpoint clear (vram : VRam) (self : Bitmap) {struct self}
  : result (VRam * Bitmap) :=
  _ ← guardDisposed self;
  _ ← GUARD_ANIMATED self;
  '(vram, self) ←
    match selfHires self with
    | Some hires =>
        '(vram, hires) ← clear vram hires;
        Ok (vram, set_selfHires self (Some hires))
    | None => Ok (vram, self)
    end;
  let d := p self in
  '(vram, d) ←
    match megaSurface d with
    | Some s =>
        fRect ← rect self;
        Ok (vram, set_megaSurface d (Some (fillSurface s fRect 0)))
    | None =>
        t ← getGLTypes d;
        Ok (<[tex t := FBO_clear (tex_image vram t) None Vec4_zero]> vram, d)
    end;
  let d := clearTaintedArea d in
  Ok (vram, set_p self (onModified d true)).

(** One step of the loop of [gradientFillRect] on a mega surface: the
    line at [current] is filled with the colour between [c1] and [c2];
    [max] is the float [rect.h - 1] (or [rect.w - 1]).  With [max] zero
    the progress is 0/0. *)
Definition gradientLine (c1 c2 : Color) (orig : Z) (max : Q)
    (line : Z -> IntRect) (s : SDL_Surface) (current : Z)
  : outcome SDL_Surface :=
  if Qeq_bool max 0 then Failed Undefined_conversion
  else
    let progress := Float.fl32 (inject_Z (current - orig) / max)%Q in
    let invProgress := Float.fl32 (1 - progress)%Q in
    let mix (x1 x2 : Q) : Z :=
      Float.c_round
        (Float.fl64 (Float.fl64 (x1 * invProgress)
                     + Float.fl64 (x2 * progress)))%Q mod 256 in
    let r := mix (red c1) (red c2) in
    let g := mix (green c1) (green c2) in
    let b := mix (blue c1) (blue c2) in
    let a := mix (alpha c1) (alpha c2) in
    Done (fillSurface s (line current) (SDL_MapRGBA r g b a)).

Fixpoint gradientLines (step : SDL_Surface -> Z -> outcome SDL_Surface)
    (lines : list Z) (s : SDL_Surface) : outcome SDL_Surface :=
  match lines with
  | [] => Done s
  | current :: lines => s ← step s current; gradientLines step lines s
  end.

(** [Bitmap::gradientFillRect] *)
Fixpoint gradientFillRect (vram : VRam) (self : Bitmap) (rect : IntRect)
    (color1 color2 : Vec4) (vertical : bool) {struct self}
  : outcome (VRam * Bitmap) :=
  _ ← lift (guardDisposed self);
  _ ← lift (GUARD_ANIMATED self);
  w ← lift (width self); h ← lift (height self);
  if (rect_w rect <=? 0) || (rect_h rect <=? 0) ||
     (w <=? rect_x rect) || (h <=? rect_y rect) ||
     (rect_w rect <? - rect_x rect) || (rect_h rect <? - rect_y rect)
  then Done (vram, self)
  else
    '(vram, self) ←
      match selfHires self with
      | Some hires =>
          hiresW ← lift (width hires); hiresH ← lift (height hires);
          '(vram, hires) ←
            gradientFillRect vram hires (scaleRect rect hiresW w hiresH h)
                             color1 color2 vertical;
          Done (vram, set_selfHires self (Some hires))
      | None => Done (vram, self)
      end;
    let d := p self in
    '(vram, d) ←
      match megaSurface d with
      | Some s =>
          let c1 := Color_of_Vec4 color1 in
          let c2 := Color_of_Vec4 color2 in
          s ← (if vertical then
                 let lineW := Z.min (rect_w rect) (w - rect_x rect) in
                 gradientLines
                   (gradientLine c1 c2 (rect_y rect)
                      (Float.float_of_int (rect_h rect - 1))
                      (fun y => mkIntRect (rect_x rect) y lineW 1))
                   (zrange (rect_y rect)
                           (Z.min (rect_y rect + rect_h rect) h)) s
               else
                 let lineH := Z.min (rect_h rect) (h - rect_y rect) in
                 gradientLines
                   (gradientLine c1 c2 (rect_x rect)
                      (Float.float_of_int (rect_w rect - 1))
                      (fun x => mkIntRect x (rect_y rect) 1 lineH))
                   (zrange (rect_x rect)
                           (Z.min (rect_x rect + rect_w rect) w)) s);
          Done (vram, set_megaSurface d (Some s))
      | None =>
          t ← lift (getGLTypes d);
          Done (<[tex t := SimpleColorShader_draw (tex_image vram t) rect
                             color1 color2 vertical]> vram, d)
      end;
    let d := addTaintedArea d rect in
    Done (vram, set_p self (onModified d true)).

(** [Bitmap::getRaw]: the return value and the output buffer, of which
    [output] is the content before the call.  [output_size] bytes are
    [w * h] pixels. *)
Definition getRaw (vram : VRam) (self : Bitmap) (output : Image)
    (output_size : Z) : result (bool * Image) :=
  w ← width self; h ← height self;
  if negb (output_size =? w * h * 4) then Ok (false, output)
  else
    _ ← guardDisposed self;
    _ ← hasHires self;
    let d := p self in
    let readPixels :=
      (* gl.ReadPixels of the framebuffer of the texture *)
      t ← getGLTypes d; Ok (true, tex_image vram t) in
    match cpuSurface d with
    | Some src =>
        if negb (enabled (animation d)) then
          output ← memcpy output (surf_pixels src) (w * h);
          Ok (true, output)
        else readPixels
    | None => readPixels
    end.

(** [Bitmap::replaceRaw]; [TEX::uploadImage] reads [w * h] pixels of the
    data. *)
Definition replaceRaw (vram : VRam) (self : Bitmap) (pixel_data : Image)
    (size : Z) : outcome (VRam * Bitmap) :=
  _ ← lift (guardDisposed self);
  _ ← lift (hasHires self);
  w ← lift (width self); h ← lift (height self);
  if negb (size =? w * h * 4) then Failed MKXPError_raw_size
  else
    let d := p self in
    '(vram, d) ←
      match megaSurface d with
      | Some s =>
          pixels ← lift (memcpy (surf_pixels s) pixel_data (w * h));
          Done (vram,
                set_megaSurface d
                  (Some (mkSurface (surf_w s) (surf_h s) pixels)))
      | None =>
          t ← lift (getGLTypes d);
          if Z.of_nat (length pixel_data) <? w * h
          then Failed (Raised Undefined_out_of_range)
          else Done (<[tex t := take (Z.to_nat (w * h)) pixel_data]> vram, d)
      end;
    self ← lift (taintArea (set_p self d) (mkIntRect 0 0 w h));
    Done (vram, set_p self (onModified (p self) true)).

End Drawing.

(** ** Predicates on animations *)

(** The bitmap is an animation of [n] frames that shows frame [c]. *)
Definition showing (b : Bitmap) (c n : Z) : Prop :=
  disposed b = false /\ enabled (animation (p b)) = true /\
  Anim.size (animation (p b)) = n /\ n < 2 ^ 31 /\
  int_range (lastFrame (animation (p b))) /\
  Bitmap_currentFrameI b = Ok c /\ 0 <= c < n.

(** The textures a bitmap holds: its frames when it is an animation,
    its one texture when it is not. *)
Definition textures (d : BitmapPrivate) : list TEXFBO :=
  if enabled (animation d) then frames (animation d) else [gl d].

(** ** Further predicates on rectangles and bitmaps *)

(** A rectangle of positive extent inside a bitmap [w] wide and [h]
    high. *)
Definition inside (r : IntRect) (w h : Z) : Prop :=
  0 <= rect_x r /\ 0 < rect_w r /\ rect_x r + rect_w r <= w /\
  0 <= rect_y r /\ 0 < rect_h r /\ rect_y r + rect_h r <= h.

(** Neither the bitmap nor its mirror is an animation. *)
Fixpoint unanimated (b : Bitmap) : Prop :=
  enabled (animation (p b)) = false /\
  match selfHires b with Some hires => unanimated hires | None => True end.

(** Nothing is tainted and no surface is cached, in the bitmap and in its
    mirror. *)
Fixpoint cleared (b : Bitmap) : Prop :=
  taintedRegion (p b) = [] /\ surface (p b) = None /\
  match selfHires b with Some hires => cleared hires | None => True end.

(** The rectangle as a pixman box, for a rectangle of positive extent. *)
Definition rect_box (r : IntRect) : Pixman.box :=
  Pixman.Box (rect_x r) (rect_y r)
             (rect_x r + rect_w r) (rect_y r + rect_h r).


(** ** Example objects *)

(** [BitmapPrivate::animation] as the constructor leaves it. *)
Definition no_animation : Animation :=
  mkAnimation 0 0 false false false true [] 0%Q 0 0%Q 0%Q.

(** A freshly constructed [BitmapPrivate]: nothing tainted. *)
Definition blank (use32 : bool) : BitmapPrivate :=
  mkBitmapPrivate no_animation TEXFBO_null None None [] [] use32.

Definition frame (i : nat) : TEXFBO := mkTEXFBO i i 32 32.

(** A stopped animation of three frames. *)
Definition three_frames : Animation :=
  mkAnimation 32 32 true false false true
    [frame 1; frame 2; frame 3] 10%Q 0 0%Q 0%Q.

Definition animated_bitmap (a : Animation) : Bitmap :=
  mkBitmap false (mkBitmapPrivate a TEXFBO_null None None [] [] false) None.

(** An animation of five frames at 10 fps that has played for [t] seconds
    from frame 0. *)
Definition five_frames (looping : bool) (t : Q) : Animation :=
  mkAnimation 32 32 true true false looping
    [frame 1; frame 2; frame 3; frame 4; frame 5] 10%Q 0 0%Q t.

(** Stand-ins for the rendering services, for the examples: a copy puts the
    source image in place of the destination image. *)
Definition sample_blit : Image -> IntRect -> Image -> IntRect -> Image :=
  fun src _ _ _ => src.

Definition sample_upload : Image -> IntRect -> Image -> Image :=
  fun _ _ pixels => pixels.

Definition sample_shader : Image -> IntRect -> Image -> IntRect -> Z -> Image :=
  fun src _ _ _ _ => src.

Definition sample_SDL_Blit (scaled blend : bool) (alphaMod : Z)
    (src : SDL_Surface) (srcRect : IntRect)
    (dst : SDL_Surface) (dstRect : IntRect) : SDL_Surface :=
  mkSurface (surf_w dst) (surf_h dst) (surf_pixels src).

(** A static bitmap on texture [id], nothing tainted, with an optional CPU
    cache. *)
Definition texture_bitmap (id : nat) (w h : Z) (cache : option SDL_Surface)
  : Bitmap :=
  mkBitmap false
    (mkBitmapPrivate no_animation (mkTEXFBO id id w h) None cache [] [] false)
    None.

(** A bitmap with a hi-res mirror. *)
Definition with_mirror (b hires : Bitmap) : Bitmap :=
  set_selfHires b (Some hires).

(** A bitmap with a rectangle tainted. *)
Definition tainted_bitmap (b : Bitmap) (r : IntRect) : Bitmap :=
  set_p b (addTaintedArea (p b) r).

(** A mega surface of the given size. *)
Definition mega_bitmap (w h : Z) (pixels : Image) : Bitmap :=
  mkBitmap false
    (mkBitmapPrivate no_animation TEXFBO_null
       (Some (mkSurface w h pixels)) None [] [] false)
    None.

(** A disposed bitmap. *)
Definition disposed_bitmap : Bitmap :=
  mkBitmap true (blank false) None.

(** Texture 1 holds zeros, texture 2 holds sevens. *)
Definition sample_vram : VRam :=
  <[1%nat := [0; 0; 0; 0]]> (<[2%nat := [7; 7; 7; 7]]> ∅).

(** A texture pool for the examples: the pool is the next free id. *)
Definition sample_request (pool : nat) (w h : Z) : result (TEXFBO * nat) :=
  Ok (mkTEXFBO pool pool w h, S pool).

Definition sample_release (pool : nat) (t : TEXFBO) : nat := pool.

(** A plane (wrap mode) whose child, 10 pixels wide, shows 4 pixels of a
    source 100 pixels wide, at offset 0, after the parent changed. *)
Definition sample_plane : ChildView :=
  mkChildView true true false false 10 10
    (mkIntRect 0 0 4 4) (mkIntRect 0 0 100 100) 0 0.

(** The same plane scrolled to the offset (201, 250). *)
Definition sample_plane_scrolled : ChildView :=
  mkChildView true true false false 10 10
    (mkIntRect 0 0 4 4) (mkIntRect 0 0 100 100) 201 250.

(** The same child for a sprite (no wrap) at offset 200. *)
Definition sample_sprite : ChildView :=
  mkChildView true false false false 10 10
    (mkIntRect 0 0 4 4) (mkIntRect 0 0 100 100) 200 0.

(** A sprite whose source rectangle shrank to 50 pixels while the child,
    showing all of its 10 pixels, stays where it was. *)
Definition sample_sprite_shrunk : ChildView :=
  mkChildView false false false false 10 10
    (mkIntRect 0 0 10 10) (mkIntRect 0 0 50 50) 90 0.

(** Three frames, playing in a loop from frame 1 since 0.25 s, at 10 fps. *)
Definition three_frames_playing : Animation :=
  mkAnimation 32 32 true true false true
    [frame 1; frame 2; frame 3] 10%Q 1 0%Q (1 # 4).

(** Stand-ins for the clearing, filling and gradient services: a clear
    leaves zeros, a fill leaves the pixel value everywhere, the gradient
    shader leaves the image. *)
Definition sample_clear : Image -> option IntRect -> Vec4 -> Image :=
  fun img _ _ => List.map (fun _ => 0) img.

Definition sample_fill : SDL_Surface -> IntRect -> Z -> Image :=
  fun s _ color => List.map (fun _ => color) (surf_pixels s).

Definition sample_gradient
  : Image -> IntRect -> Vec4 -> Vec4 -> bool -> Image :=
  fun img _ _ _ _ => img.

(* ================================================================== *)
(** * Properties *)

(** ** Pixman regions as sets of pixels *)
Module PixmanFacts.

Import Pixman.

Lemma in_box_iff b px py :
  in_box b px py = true <->
  bx1 b <= px < bx2 b /\ by1 b <= py < by2 b.
Proof.
  unfold in_box. rewrite !andb_true_iff, !Z.leb_le, !Z.ltb_lt. lia.
Qed.

Lemma overlaps_iff a b :
  overlaps a b = true <->
  bx1 a < bx2 b /\ bx1 b < bx2 a /\ by1 a < by2 b /\ by1 b < by2 a.
Proof.
  unfold overlaps. rewrite !andb_true_iff, !Z.ltb_lt. lia.
Qed.

Lemma good_box_iff b :
  good_box b = true <-> bx1 b < bx2 b /\ by1 b < by2 b.
Proof. unfold good_box. rewrite andb_true_iff, !Z.ltb_lt. lia. Qed.

Lemma contains_point_iff r px py :
  contains_point r px py = true <->
  exists b, In b r /\ in_box b px py = true.
Proof. unfold contains_point. apply existsb_exists. Qed.

Lemma contains_point_app r1 r2 px py :
  contains_point (r1 ++ r2) px py =
  contains_point r1 px py || contains_point r2 px py.
Proof. unfold contains_point. apply existsb_app. Qed.

Lemma contains_point_filter_good r px py :
  contains_point (List.filter good_box r) px py = contains_point r px py.
Proof.
  induction r as [|b r IH]; simpl; [reflexivity|].
  destruct (good_box b) eqn:Hg; simpl; rewrite IH; [reflexivity|].
  destruct (in_box b px py) eqn:Hin; [|reflexivity].
  apply in_box_iff in Hin.
  assert (good_box b = true) by (apply good_box_iff; lia).
  congruence.
Qed.

(** The pieces of [box_subtract a b] hold the pixels of [a] outside [b]. *)
Lemma box_subtract_point a b px py :
  contains_point (box_subtract a b) px py =
  in_box a px py && negb (in_box b px py).
Proof.
  apply eq_true_iff_eq.
  unfold box_subtract.
  destruct (overlaps a b) eqn:Ho.
  - rewrite contains_point_filter_good. simpl.
    rewrite !orb_true_iff, andb_true_iff, negb_true_iff.
    rewrite <- not_true_iff_false, !in_box_iff. simpl.
    apply overlaps_iff in Ho. lia.
  - simpl. rewrite orb_false_r, andb_true_iff, negb_true_iff.
    rewrite <- not_true_iff_false, !in_box_iff.
    assert (~ (bx1 a < bx2 b /\ bx1 b < bx2 a /\ by1 a < by2 b /\ by1 b < by2 a))
      by (rewrite <- overlaps_iff; congruence).
    lia.
Qed.

Lemma flat_map_subtract_point acc b px py :
  contains_point (flat_map (fun a => box_subtract a b) acc) px py =
  contains_point acc px py && negb (in_box b px py).
Proof.
  induction acc as [|a acc IH]; simpl; [reflexivity|].
  rewrite contains_point_app, box_subtract_point, IH.
  destruct (in_box a px py), (in_box b px py), (contains_point acc px py);
    reflexivity.
Qed.

(** [subtract] is set difference. *)
Lemma subtract_point reg_m reg_s px py :
  contains_point (subtract reg_m reg_s) px py =
  contains_point reg_m px py && negb (contains_point reg_s px py).
Proof.
  unfold subtract. revert reg_m.
  induction reg_s as [|b s IH]; intros m; simpl.
  - now rewrite andb_true_r.
  - rewrite IH, flat_map_subtract_point.
    destruct (contains_point m px py), (in_box b px py),
      (contains_point s px py); reflexivity.
Qed.

(** [union] is set union. *)
Lemma union_point r1 r2 px py :
  contains_point (union r1 r2) px py =
  contains_point r1 px py || contains_point r2 px py.
Proof.
  unfold union. rewrite contains_point_app, subtract_point.
  destruct (contains_point r1 px py), (contains_point r2 px py); reflexivity.
Qed.

(** A box that holds a pixel of the region overlaps one of its boxes. *)
Lemma point_overlaps r prect px py :
  contains_point r px py = true -> in_box prect px py = true ->
  existsb (overlaps prect) r = true.
Proof.
  intros Hr Hb. apply contains_point_iff in Hr as (b & Hin & Hpt).
  apply existsb_exists. exists b. split; [assumption|].
  apply overlaps_iff. apply in_box_iff in Hb, Hpt. lia.
Qed.

Lemma contains_rectangle_out r prect :
  contains_rectangle r prect = REGION_OUT <->
  existsb (overlaps prect) r = false.
Proof.
  unfold contains_rectangle.
  destruct (existsb (overlaps prect) r); [|tauto].
  destruct (subtract [prect] r); split; discriminate.
Qed.

(** A box minus itself leaves no piece. *)
Lemma box_subtract_self b : good_box b = true -> box_subtract b b = [].
Proof.
  intros Hg. unfold box_subtract.
  assert (overlaps b b = true) as ->.
  { apply overlaps_iff. apply good_box_iff in Hg. lia. }
  simpl. unfold good_box; simpl.
  rewrite !Z.max_id, !Z.min_id, !Z.ltb_irrefl.
  rewrite !andb_false_r. reflexivity.
Qed.

Lemma wrap_id bits z :
  0 < bits -> - 2 ^ (bits - 1) <= z < 2 ^ (bits - 1) -> wrap bits z = z.
Proof.
  intros Hb Hz. unfold wrap.
  assert (2 ^ bits = 2 * 2 ^ (bits - 1)) as ->.
  { replace bits with (Z.succ (bits - 1)) at 1 by lia.
    apply Z.pow_succ_r. lia. }
  rewrite Z.mod_small by lia. lia.
Qed.

End PixmanFacts.

(** ** The tainted area *)
Module TaintedArea.

Import Pixman PixmanFacts.

Lemma normalizedRect_positive r :
  0 < rect_w r -> 0 < rect_h r -> normalizedRect r = r.
Proof.
  intros Hw Hh. unfold normalizedRect.
  destruct (rect_w r <? 0) eqn:E1; [apply Z.ltb_lt in E1; lia|].
  destruct (rect_h r <? 0) eqn:E2; [apply Z.ltb_lt in E2; lia|].
  reflexivity.
Qed.

Lemma box_of_valid use32 r :
  valid_rect use32 r -> 0 < rect_w r -> 0 < rect_h r ->
  box_of (if use32 then 32 else 16)
         (rect_x r) (rect_y r) (rect_w r) (rect_h r)
  = Box (rect_x r) (rect_y r) (rect_x r + rect_w r) (rect_y r + rect_h r).
Proof.
  intros (Hx1 & Hx2 & Hy1 & Hy2) Hw Hh. unfold box_of.
  rewrite !wrap_id; destruct use32; simpl in *; try lia; reflexivity.
Qed.

Lemma touches_iff d r :
  touchesTaintedArea d r = true <->
  existsb (overlaps (box_of (if pixmanUseRegion32 d then 32 else 16)
                       (rect_x r) (rect_y r) (rect_w r) (rect_h r)))
          (taintedRegion d) = true.
Proof.
  unfold touchesTaintedArea, taintedRegion.
  rewrite negb_true_iff.
  destruct (pixmanUseRegion32 d);
    unfold contains_rectangle;
    match goal with |- context [existsb ?f ?l] => destruct (existsb f l) end;
    try (match goal with |- context [subtract ?a ?b] => destruct (subtract a b) end);
    simpl; split; congruence.
Qed.

Lemma taintedRegion_add d r :
  valid_rect (pixmanUseRegion32 d) r -> 0 < rect_w r -> 0 < rect_h r ->
  taintedRegion (addTaintedArea d r)
  = union (taintedRegion d)
      [Box (rect_x r) (rect_y r) (rect_x r + rect_w r) (rect_y r + rect_h r)].
Proof.
  intros Hv Hw Hh. unfold addTaintedArea, taintedRegion.
  rewrite (normalizedRect_positive r Hw Hh).
  pose proof (box_of_valid _ r Hv Hw Hh) as Hb.
  unfold union_rect.
  destruct (pixmanUseRegion32 d) eqn:E; simpl; rewrite ?E; simpl;
    rewrite Hb; unfold good_box; simpl;
    (replace (rect_x r <? rect_x r + rect_w r) with true
       by (symmetry; apply Z.ltb_lt; lia));
    (replace (rect_y r <? rect_y r + rect_h r) with true
       by (symmetry; apply Z.ltb_lt; lia)); reflexivity.
Qed.

(** For a rectangle of positive width and height within the coordinate
    range, and a region of boxes of positive extent (as the pixman
    operations keep it), [touchesTaintedArea] answers "not fully out"
    exactly when the rectangle holds a tainted pixel. *)
Lemma touches_positive d r :
  valid_rect (pixmanUseRegion32 d) r -> 0 < rect_w r -> 0 < rect_h r ->
  Forall (fun b => good_box b = true) (taintedRegion d) ->
  touchesTaintedArea d r = true <->
  exists px py,
    rect_x r <= px < rect_x r + rect_w r /\
    rect_y r <= py < rect_y r + rect_h r /\
    contains_point (taintedRegion d) px py = true.
Proof.
  intros Hv Hw Hh Hgood.
  rewrite touches_iff, (box_of_valid _ r Hv Hw Hh). split.
  - intros H. apply existsb_exists in H as (b & Hin & Ho).
    rewrite List.Forall_forall in Hgood. specialize (Hgood b Hin).
    apply good_box_iff in Hgood. apply overlaps_iff in Ho. simpl in Ho.
    exists (Z.max (rect_x r) (bx1 b)), (Z.max (rect_y r) (by1 b)).
    split; [lia|]. split; [lia|].
    apply contains_point_iff. exists b. split; [exact Hin|].
    apply in_box_iff. lia.
  - intros (px & py & Hx & Hy & Hpt).
    apply point_overlaps with (px := px) (py := py); [exact Hpt|].
    apply in_box_iff. simpl. lia.
Qed.

Lemma use32_add d r :
  pixmanUseRegion32 (addTaintedArea d r) = pixmanUseRegion32 d.
Proof. unfold addTaintedArea. destruct (pixmanUseRegion32 d) eqn:E; simpl; auto. Qed.

(** The parts of the claimed behaviour that hold.  For a rectangle [r] of
    positive width and height whose corners fit the coordinate width of the
    region (16 or 32 bits): after [addTaintedArea r], [touchesTaintedArea r]
    answers "not fully out"; when nothing was tainted before,
    [addTaintedArea r] followed by [substractTaintedArea r] gives back the
    state before the add; and while nothing is tainted, [touchesTaintedArea]
    answers "fully out" for every rectangle. *)
Lemma add_touches_subtract_empty (d : BitmapPrivate) (r : IntRect) :
  valid_rect (pixmanUseRegion32 d) r -> 0 < rect_w r -> 0 < rect_h r ->
  touchesTaintedArea (addTaintedArea d r) r = true /\
  (taintedRegion d = [] ->
   substractTaintedArea (addTaintedArea d r) r = d) /\
  (taintedRegion d = [] -> forall r', touchesTaintedArea d r' = false).
Proof.
  intros Hv Hw Hh.
  pose proof (box_of_valid _ r Hv Hw Hh) as Hb.
  set (b := Box (rect_x r) (rect_y r)
                (rect_x r + rect_w r) (rect_y r + rect_h r)) in *.
  assert (Hg : good_box b = true) by (apply good_box_iff; simpl; lia).
  assert (Hin : in_box b (rect_x r) (rect_y r) = true)
    by (apply in_box_iff; simpl; lia).
  assert (Htouch : touchesTaintedArea (addTaintedArea d r) r = true).
  { apply touches_iff. rewrite use32_add, Hb.
    apply point_overlaps with (px := rect_x r) (py := rect_y r); [|exact Hin].
    rewrite taintedRegion_add by assumption. fold b.
    rewrite union_point. simpl. rewrite Hin. apply orb_true_r. }
  split; [exact Htouch|]. split.
  - intros Hempty. unfold substractTaintedArea. rewrite Htouch.
    cbv beta iota delta [negb]. rewrite use32_add.
    unfold addTaintedArea, taintedRegion in *.
    rewrite (normalizedRect_positive r Hw Hh).
    unfold union_rect, init_rect.
    destruct d as [a g m s t t32 u]; simpl in *.
    destruct u; simpl in *; subst; rewrite Hb, Hg;
      unfold union, subtract; simpl;
      rewrite box_subtract_self by exact Hg; reflexivity.
  - intros Hempty r'. unfold touchesTaintedArea, taintedRegion in *.
    destruct (pixmanUseRegion32 d); rewrite Hempty; reflexivity.
Qed.

(** [substractTaintedArea] hands pixman_region_subtract the rectangle as
    the minuend and the tainted region as the subtrahend.  After
    [addTaintedArea r] the tainted region holds [r], so that
    [substractTaintedArea r] leaves no tainted pixel at all, whatever was
    tainted before. *)
Lemma add_substract_clears (d : BitmapPrivate) (r : IntRect) :
  valid_rect (pixmanUseRegion32 d) r -> 0 < rect_w r -> 0 < rect_h r ->
  forall px py,
    contains_point
      (taintedRegion (substractTaintedArea (addTaintedArea d r) r)) px py
    = false.
Proof.
  intros Hv Hw Hh px py.
  destruct (add_touches_subtract_empty d r Hv Hw Hh) as (Htouch & _ & _).
  pose proof (taintedRegion_add d r Hv Hw Hh) as Hadd.
  pose proof (box_of_valid _ r Hv Hw Hh) as Hb.
  pose proof (use32_add d r) as Hu.
  set (b := Box (rect_x r) (rect_y r)
                (rect_x r + rect_w r) (rect_y r + rect_h r)) in *.
  assert (Hg : good_box b = true) by (apply good_box_iff; simpl; lia).
  unfold substractTaintedArea. rewrite Htouch. cbv beta iota delta [negb].
  set (d1 := addTaintedArea d r) in *.
  unfold taintedRegion in *. unfold init_rect. rewrite Hu.
  destruct (pixmanUseRegion32 d); rewrite Hb, Hg;
    destruct d1 as [a g m s t t32 u]; simpl in *; subst u;
    rewrite subtract_point, Hadd, union_point; simpl;
    destruct (in_box b px py); rewrite ?orb_true_r; reflexivity.
Qed.

(** The claimed behaviour fails as well when the rectangle was tainted
    before the add: the add changes nothing, and the subtract then removes
    what was there. *)
Example add_subtract_loses_baseline :
  let r := mkIntRect 0 0 4 4 in
  let d := addTaintedArea (blank false) r in
  taintedRegion d = [Box 0 0 4 4] /\
  taintedRegion (substractTaintedArea (addTaintedArea d r) r) = [] /\
  ~ region_equiv
      (taintedRegion (substractTaintedArea (addTaintedArea d r) r))
      (taintedRegion d).
Proof.
  simpl. split; [reflexivity|]. split; [reflexivity|].
  intros H. specialize (H 0 0). vm_compute in H. discriminate.
Qed.

(** C2 at a failing input, in the 16-bit and in the 32-bit mode.  The area
    (100, 100, 8, 8) is tainted, far from the rectangle r = (0, 0, 4, 4).
    After [addTaintedArea r], [touchesTaintedArea r] answers "not fully
    out", as claimed; [substractTaintedArea r] then leaves nothing tainted,
    where the state before the add had the far area tainted.  The call
    pixman_region_subtract(&tainted, &m_reg, &tainted) computes the
    rectangle minus the tainted region; with the operands in the order the
    name of the function announces, the tainted region minus the rectangle,
    the result is the state before the add. *)
Theorem substract_drops_disjoint_baseline :
  Forall (fun use32 : bool =>
    let base := addTaintedArea (blank use32) (mkIntRect 100 100 8 8) in
    let r := mkIntRect 0 0 4 4 in
    let added := addTaintedArea base r in
    taintedRegion base = [Box 100 100 108 108] /\
    touchesTaintedArea added r = true /\
    taintedRegion (substractTaintedArea added r) = [] /\
    ~ region_equiv (taintedRegion (substractTaintedArea added r))
                   (taintedRegion base) /\
    subtract (taintedRegion added)
             (init_rect (if use32 then 32 else 16) 0 0 4 4)
    = taintedRegion base)
  [false; true].
Proof.
  repeat constructor; try (vm_compute; reflexivity);
    intros H; specialize (H 100 100); vm_compute in H; discriminate.
Qed.

End TaintedArea.

(** ** The animation sequencer *)
Module AnimFacts.

Import Float Anim.

Lemma wrap32_small z : 0 <= z < 2 ^ 31 -> wrap 32 (z mod 2 ^ 32) = z.
Proof.
  intros Hz. rewrite Z.mod_small by lia.
  apply PixmanFacts.wrap_id; lia.
Qed.

Lemma clamp_range v lo hi : lo <= hi -> lo <= clamp v lo hi <= hi.
Proof.
  intros H. unfold clamp.
  destruct (v <? lo) eqn:E1; [lia|]. apply Z.ltb_ge in E1.
  destruct (hi <? v) eqn:E2; [lia|]. apply Z.ltb_ge in E2. lia.
Qed.

(** [seek] keeps [lastFrame] between 0 and the number of frames, the
    number of frames included. *)
Lemma seek_range a frame :
  0 <= lastFrame (seek a frame) <= size a.
Proof. unfold seek; simpl. apply clamp_range. unfold size. lia. Qed.

Lemma seek_at_size a frame :
  size a <= frame -> lastFrame (seek a frame) = size a.
Proof.
  intros H. unfold seek, clamp; simpl.
  assert (0 <= size a) by (unfold size; lia).
  destruct (frame <? 0) eqn:E1; [apply Z.ltb_lt in E1; lia|].
  destruct (size a <? frame) eqn:E2; [reflexivity|].
  apply Z.ltb_ge in E2. lia.
Qed.

(** C3 at a failing input.  With three frames, [seek(3)] stores 3 in
    [lastFrame], one past the last valid index 2, and the lookup of the
    current frame that follows is outside the frame list; the same after
    [gotoAndStop(3)] and [gotoAndPlay(3)]. *)
Theorem seek_past_last_frame :
  lastFrame (seek three_frames 3) = 3 /\
  size (seek three_frames 3) = 3 /\
  currentFrame (seek three_frames 3) = Err Undefined_out_of_range /\
  (exists b, gotoAndStop (animated_bitmap three_frames) 3 = Ok b /\
             lastFrame (animation (p b)) = 3 /\
             getGLTypes (p b) = Err Undefined_out_of_range) /\
  (exists b, gotoAndPlay (animated_bitmap three_frames) 3 = Ok b /\
             lastFrame (animation (p b)) = 3 /\
             getGLTypes (p b) = Err Undefined_out_of_range).
Proof.
  repeat split; try reflexivity;
    eexists; (split; [reflexivity|]); split; reflexivity.
Qed.

(** C4 as stated fails: after half a second at 10 fps the claim's
    floor(lastFrame + t*f) is 5, frame 0 of a looping five-frame
    animation, while the code's floor(lastFrame + playTime / (1 / fps))
    is 4, since the float 1/10 lies above one tenth. *)
Lemma currentFrameI_half_second :
  let a := five_frames true (1 # 2) in
  currentFrameI a = 4 /\
  Qfloor (inject_Z (lastFrame a) + playTime a * fps a) mod size a = 0.
Proof. split; vm_compute; reflexivity. Qed.

(** C4, as the code has it.  For a playing animation that is not waiting
    for a timer reset, with fps > 0, the current frame index is
    floor(lastFrame + playTime / (1 / fps)), the quotient 1 / fps rounded
    to single and the rest to double precision ([rawFrame]), taken modulo
    the number of frames when looping, and limited to the last frame when
    not looping.  With lastFrame = 0, fps = 10 and five frames: frame 4
    after 0.45 s when looping, frame 4 after 10 s when not looping. *)
Theorem currentFrameI_playing (a : Animation) :
  playing a = true -> needsReset a = false -> (0 < fps a)%Q ->
  0 < size a -> 0 <= rawFrame a < 2 ^ 31 ->
  currentFrameI a =
    (if loop a then rawFrame a mod size a
     else if size a - 1 <? rawFrame a then size a - 1 else rawFrame a) /\
  currentFrameI (five_frames true (fl64 (45 # 100))) = 4 /\
  currentFrameI (five_frames false 10%Q) = 4.
Proof.
  intros Hp Hr Hf Hn Hraw. split; [|split; vm_compute; reflexivity].
  unfold currentFrameI, currentFrameIRaw. rewrite Hp, Hr. simpl.
  assert (Qle_bool (fps a) 0 = false) as ->.
  { apply not_true_iff_false. rewrite Qle_bool_iff. lra. }
  rewrite wrap32_small by exact Hraw.
  destruct (loop a).
  - rewrite Z.rem_mod_nonneg by lia.
    apply Z.mod_small.
    pose proof (Z.mod_pos_bound (rawFrame a) (size a) Hn).
    assert (rawFrame a mod size a <= rawFrame a)
      by (apply Z.mod_le; lia).
    lia.
  - destruct (size a - 1 <? rawFrame a) eqn:E.
    + apply Z.ltb_lt in E. apply Z.mod_small. lia.
    + apply Z.mod_small. lia.
Qed.

Lemma currentFrameI_playing_witness :
  currentFrameI (five_frames true (fl64 (45 # 100))) = 4 mod 5.
Proof.
  destruct (currentFrameI_playing (five_frames true (fl64 (45 # 100))))
    as (H & _).
  - reflexivity.
  - reflexivity.
  - reflexivity.
  - vm_compute; reflexivity.
  - vm_compute; split; [discriminate|reflexivity].
  - rewrite H. vm_compute. reflexivity.
Defined.

End AnimFacts.

(** ** Floating point: representable integers *)
Module FloatFacts.

Import Float.
Local Open Scope Q_scope.

Lemma rne_comp x y : x == y -> rne x = rne y.
Proof.
  intros H. unfold rne. rewrite (Qfloor_comp x y H).
  assert (E : x - inject_Z (Qfloor y) == y - inject_Z (Qfloor y))
    by (apply Qplus_comp; [exact H|reflexivity]).
  rewrite (Qcompare_comp _ _ E _ _ (Qeq_refl _)). reflexivity.
Qed.

Lemma rne_Z k : rne (inject_Z k) = k.
Proof.
  unfold rne. rewrite Qfloor_Z.
  assert (E : inject_Z k - inject_Z k == 0) by ring.
  rewrite (Qcompare_comp _ _ E _ _ (Qeq_refl _)). reflexivity.
Qed.

Lemma binade_comp x y : x == y -> binade x = binade y.
Proof.
  intros H. unfold binade.
  rewrite (Qleb_comp 1 1 (Qeq_refl 1) x y H), (Qfloor_comp x y H),
    (Qceiling_comp (/ x) (/ y) (Qinv_comp x y H)).
  reflexivity.
Qed.

Lemma round_pos_comp prec x y :
  x == y -> round_pos prec x == round_pos prec y.
Proof.
  intros H. unfold round_pos. rewrite (binade_comp x y H).
  rewrite (rne_comp (x / pow2 (binade y + 1 - prec))
                    (y / pow2 (binade y + 1 - prec))).
  - reflexivity.
  - apply Qmult_comp; [exact H|reflexivity].
Qed.

(** Rounding does not depend on how the rational is written. *)
Lemma round_comp prec x y : x == y -> round prec x = round prec y.
Proof.
  intros H. unfold round. rewrite (Qcompare_comp x y H 0 0 (Qeq_refl 0)).
  destruct (Qcompare y 0); apply Qred_complete.
  - reflexivity.
  - apply Qopp_comp, round_pos_comp, Qopp_comp, H.
  - apply round_pos_comp, H.
Qed.

Lemma pow2_nonzero s : ~ pow2 s == 0.
Proof. apply Qpower_not_0. discriminate. Qed.

Lemma pow2_nonneg z : (0 <= z)%Z -> pow2 z == inject_Z (2 ^ z).
Proof. intros H. unfold pow2. rewrite Zpower_Qpower by exact H. reflexivity. Qed.

Lemma binade_int z : (0 < z)%Z -> binade (inject_Z z) = Z.log2 z.
Proof.
  intros H. unfold binade.
  assert (Qle_bool 1 (inject_Z z) = true) as ->.
  { apply Qle_bool_iff. unfold Qle; simpl. lia. }
  now rewrite Qfloor_Z.
Qed.

(** An integer of at most [prec] bits, or the power 2^prec itself, is a
    multiple of the unit in the last place of its binade. *)
Lemma int_on_grid prec z :
  (0 < prec)%Z -> (0 < z <= 2 ^ prec)%Z ->
  exists k, inject_Z z == inject_Z k * pow2 (Z.log2 z + 1 - prec).
Proof.
  intros Hp Hz.
  assert (He : (Z.log2 z <= prec)%Z).
  { rewrite <- (Z.log2_pow2 prec) by lia. apply Z.log2_le_mono. lia. }
  destruct (Z.eq_dec (Z.log2 z) prec) as [Heq|Hne].
  - (* z = 2^prec *)
    assert (z = 2 ^ prec)%Z.
    { pose proof (Z.log2_spec z ltac:(lia)) as Hs. rewrite Heq in Hs. lia. }
    exists (2 ^ (prec - 1))%Z. rewrite Heq.
    replace (prec + 1 - prec)%Z with 1%Z by lia.
    subst z. replace prec with (Z.succ (prec - 1)) at 1 by lia.
    rewrite Z.pow_succ_r by lia.
    rewrite inject_Z_mult. unfold pow2. simpl. ring.
  - exists (z * 2 ^ (prec - 1 - Z.log2 z))%Z.
    rewrite inject_Z_mult.
    rewrite <- pow2_nonneg by lia.
    rewrite <- Qmult_assoc. unfold pow2.
    rewrite <- Qpower_plus by discriminate.
    replace (prec - 1 - Z.log2 z + (Z.log2 z + 1 - prec))%Z with 0%Z by lia.
    simpl. ring.
Qed.

Lemma round_pos_int prec z :
  (0 < prec)%Z -> (0 < z <= 2 ^ prec)%Z ->
  round_pos prec (inject_Z z) == inject_Z z.
Proof.
  intros Hp Hz. unfold round_pos. rewrite binade_int by lia.
  destruct (int_on_grid prec z Hp Hz) as (k & Hk).
  set (s := (Z.log2 z + 1 - prec)%Z) in *.
  assert (Hq : inject_Z z / pow2 s == inject_Z k).
  { rewrite Hk. field. apply pow2_nonzero. }
  rewrite (rne_comp _ _ Hq), rne_Z. symmetry. exact Hk.
Qed.

Lemma Qred_int z : Qred (inject_Z z) = inject_Z z.
Proof.
  apply Qred_identity. simpl. apply Z.gcd_1_r.
Qed.

(** Integers of magnitude at most 2^prec are representable: rounding
    leaves them as they are. *)
Lemma round_int prec z :
  (0 < prec)%Z -> (Z.abs z <= 2 ^ prec)%Z ->
  round prec (inject_Z z) = inject_Z z.
Proof.
  intros Hp Hz.
  assert (G : round prec (inject_Z z) = Qred (inject_Z z)).
  { unfold round.
    destruct (Qcompare (inject_Z z) 0) eqn:Hc; apply Qred_complete.
    - apply Qeq_alt in Hc. symmetry. exact Hc.
    - apply Qlt_alt in Hc.
      assert (z < 0)%Z by (unfold Qlt in Hc; simpl in Hc; lia).
      change (- inject_Z z) with (inject_Z (- z)).
      pose proof (round_pos_int prec (- z) Hp ltac:(lia)) as E.
      apply Qopp_comp in E. etransitivity; [exact E|].
      unfold Qeq; simpl; lia.
    - apply Qgt_alt in Hc.
      assert (0 < z)%Z by (unfold Qlt in Hc; simpl in Hc; lia).
      apply round_pos_int; lia. }
  rewrite G. apply Qred_int.
Qed.

Lemma fl32_int z : (Z.abs z <= 2 ^ 24)%Z -> fl32 (inject_Z z) = inject_Z z.
Proof. intros H. apply round_int; [lia|exact H]. Qed.

Lemma fl32_eq_int x z :
  x == inject_Z z -> (Z.abs z <= 2 ^ 24)%Z -> fl32 x = inject_Z z.
Proof.
  intros Hx Hz. unfold fl32. rewrite (round_comp 24 x (inject_Z z) Hx).
  apply round_int; [lia|exact Hz].
Qed.

Lemma float_of_int_small z :
  (Z.abs z <= 2 ^ 24)%Z -> float_of_int z = inject_Z z.
Proof. apply fl32_int. Qed.

Lemma Qfloor_unique x z :
  inject_Z z <= x -> x < inject_Z z + 1 -> Qfloor x = z.
Proof.
  intros H1 H2.
  pose proof (Qfloor_le x) as F1. pose proof (Qlt_floor x) as F2.
  rewrite inject_Z_plus in F2.
  assert (A : inject_Z (Qfloor x) < inject_Z (z + 1))
    by (rewrite inject_Z_plus; change (inject_Z 1) with 1; lra).
  assert (B : inject_Z z < inject_Z (Qfloor x + 1))
    by (rewrite inject_Z_plus; change (inject_Z 1) with 1 in *; lra).
  rewrite <- Zlt_Qlt in A, B. lia.
Qed.

Lemma c_round_int z : c_round (inject_Z z) = z.
Proof.
  unfold c_round. destruct (Qle_bool 0 (inject_Z z)).
  - apply Qfloor_unique; lra.
  - unfold Qceiling.
    assert (Qfloor (- (inject_Z z - (1 # 2))) = (- z)%Z); [|lia].
    apply Qfloor_unique; rewrite inject_Z_opp; lra.
Qed.

Lemma Qltb_int a b : Qltb (inject_Z a) (inject_Z b) = (a <? b)%Z.
Proof.
  unfold Qltb. apply eq_true_iff_eq.
  rewrite negb_true_iff, <- not_true_iff_false, Qle_bool_iff, Z.ltb_lt.
  unfold Qle; simpl. lia.
Qed.

Lemma Qleb_int a b : Qle_bool (inject_Z a) (inject_Z b) = (a <=? b)%Z.
Proof.
  apply eq_true_iff_eq. rewrite Qle_bool_iff, Z.leb_le.
  unfold Qle; simpl. lia.
Qed.

End FloatFacts.

(** ** Clipping *)
Module ShrinkFacts.
Import Float FloatFacts.

Lemma fl32_zero x : (x == 0)%Q -> fl32 x = 0%Q.
Proof. intros H. apply (fl32_eq_int x 0); [exact H|simpl; lia]. Qed.

Lemma Qltb_irrefl x : Qltb x x = false.
Proof.
  unfold Qltb. apply negb_false_iff, Qle_bool_iff, Qle_refl.
Qed.

(** Clipping a rectangle of length zero against the other bitmap leaves its
    length zero. *)
Lemma shrinkRectsF_zero_dest sourcePos sourceLen sBitmapLen k dBitmapLen :
  Z.abs k <= 2 ^ 24 ->
  exists ret a b c,
    shrinkRectsF sourcePos sourceLen sBitmapLen (inject_Z k) 0%Q dBitmapLen false
    = (ret, (a, b, c, 0%Q)).
Proof.
  intros Hk. unfold shrinkRectsF. cbv zeta.
  rewrite (Qltb_irrefl 0). cbv iota.
  destruct (Qle_bool 0 _ && Qltb _ _); [do 4 eexists; reflexivity|].
  destruct (Qle_bool _ _ || Qltb _ _); [do 4 eexists; reflexivity|].
  assert (E0 : fl32 (0 + inject_Z k) = inject_Z k)
    by (apply fl32_eq_int; [ring|exact Hk]).
  rewrite E0.
  assert (E1 : fl32 (inject_Z k - inject_Z k) = 0%Q)
    by (apply fl32_zero; ring).
  rewrite E1.
  match goal with |- context [if Qltb 0 ?d then _ else _] =>
    destruct (Qltb 0 d) end.
  - rewrite (fl32_zero (_ * 0)) by ring.
    rewrite (fl32_zero (0 - 0)) by ring.
    match goal with |- context [if Qltb ?d 0 then _ else _] =>
      destruct (Qltb d 0) end.
    + rewrite (fl32_zero (_ * 0)) by ring.
      rewrite (fl32_zero (0 + 0)) by ring.
      simpl. do 4 eexists; reflexivity.
    + simpl. do 4 eexists; reflexivity.
  - match goal with |- context [if Qltb ?d 0 then _ else _] =>
      destruct (Qltb d 0) end.
    + rewrite (fl32_zero (_ * 0)) by ring.
      rewrite (fl32_zero (0 + 0)) by ring.
      simpl. do 4 eexists; reflexivity.
    + simpl. do 4 eexists; reflexivity.
Qed.


Lemma fl_add a b :
  Z.abs (a + b) <= 2 ^ 24 -> fl32 (inject_Z a + inject_Z b) = inject_Z (a + b).
Proof. intros H. apply fl32_eq_int; [|exact H]. rewrite inject_Z_plus. reflexivity. Qed.

Lemma fl_sub a b :
  Z.abs (a - b) <= 2 ^ 24 -> fl32 (inject_Z a - inject_Z b) = inject_Z (a - b).
Proof.
  intros H. apply fl32_eq_int; [|exact H].
  unfold Z.sub. rewrite inject_Z_plus, inject_Z_opp. reflexivity.
Qed.

Lemma fl_neg_mul d :
  Z.abs d <= 2 ^ 24 -> fl32 (inject_Z (-1) * inject_Z d) = inject_Z (- d).
Proof.
  intros H. apply fl32_eq_int; [|lia].
  rewrite <- inject_Z_mult. replace (-1 * d) with (- d) by lia. reflexivity.
Qed.

Lemma fl_div_opp s :
  s <> 0 -> fl32 (inject_Z s / inject_Z (0 - s)) = inject_Z (-1).
Proof.
  intros H. apply fl32_eq_int; [|simpl; lia].
  replace (0 - s) with (- s) by lia. rewrite inject_Z_opp.
  change (inject_Z (-1)) with (- (1))%Q.
  field. intros E. apply H. unfold Qeq in E. simpl in E. lia.
Qed.

Lemma Qltb_0_int z : Qltb 0 (inject_Z z) = (0 <? z).
Proof. apply (Qltb_int 0 z). Qed.

Lemma Qltb_int_0 z : Qltb (inject_Z z) 0 = (z <? 0).
Proof. apply (Qltb_int z 0). Qed.

Lemma Qleb_0_int z : Qle_bool 0 (inject_Z z) = (0 <=? z).
Proof. apply (Qleb_int 0 z). Qed.

Ltac zbool :=
  repeat match goal with
  | |- context [?a <? ?b] =>
      first [ replace (a <? b) with true by (symmetry; apply Z.ltb_lt; lia)
            | replace (a <? b) with false by (symmetry; apply Z.ltb_ge; lia) ]
  | |- context [?a <=? ?b] =>
      first [ replace (a <=? b) with true by (symmetry; apply Z.leb_le; lia)
            | replace (a <=? b) with false by (symmetry; apply Z.leb_gt; lia) ]
  end.

Lemma shrinkRectsF_outside sp sl sB dp dl dB :
  small sp -> small sl -> small dp -> small dl ->
  0 < sB <= 2 ^ 24 -> outside_axis sp sl sB ->
  fst (shrinkRectsF (inject_Z sp) (inject_Z sl) sB
                    (inject_Z dp) (inject_Z dl) dB true) = true \/
  exists k c d,
    Z.abs k <= 2 ^ 24 /\
    shrinkRectsF (inject_Z sp) (inject_Z sl) sB
                 (inject_Z dp) (inject_Z dl) dB true
    = (false, (inject_Z k, 0%Q, c, d)).
Proof.
  unfold small, outside_axis. intros Hsp Hsl Hdp Hdl HsB Hout.
  unfold shrinkRectsF. cbv zeta.
  rewrite (float_of_int_small sB) by lia.
  rewrite !Qltb_0_int.
  rewrite (fl_add sl sp) by lia. rewrite (fl_add dl dp) by lia.
  destruct (0 <? sl) eqn:Esl.
  - apply Z.ltb_lt in Esl.
    rewrite !Qleb_0_int, !Qltb_int, !Qleb_int, Qltb_int_0.
    destruct Hout as [Hout|Hout].
    + (* left of the bitmap *)
      destruct (Z.eq_dec (sl + sp) 0) as [E0|N0].
      * rewrite E0. zbool. simpl.
        rewrite (fl_sub 0 sp) by lia.
        rewrite (fl_sub 0 sB) by lia.
        rewrite Qltb_0_int, Qltb_int_0. zbool.
        destruct (0 <? dl) eqn:Edl.
        -- rewrite (fl_sub (dl + dp) dp) by lia.
           rewrite (fl_div_opp sp) by lia.
           rewrite (fl_neg_mul (dl + dp - dp)) by lia.
           rewrite (fl_add (0 - sp) sp) by lia.
           rewrite (fl_add (dl + dp - dp) (- (dl + dp - dp))) by lia.
           replace (0 - sp + sp) with 0 by lia.
           replace (dl + dp - dp + - (dl + dp - dp)) with 0 by lia.
           right. exists 0. do 2 eexists. split; [simpl; lia|]. reflexivity.
        -- rewrite (fl_sub dp (dl + dp)) by lia.
           rewrite (fl_div_opp sp) by lia.
           rewrite (fl_neg_mul (dp - (dl + dp))) by lia.
           rewrite (fl_add (0 - sp) sp) by lia.
           rewrite (fl_add (dp - (dl + dp)) (- (dp - (dl + dp)))) by lia.
           replace (0 - sp + sp) with 0 by lia.
           replace (dp - (dl + dp) + - (dp - (dl + dp))) with 0 by lia.
           right. exists 0. do 2 eexists. split; [simpl; lia|]. reflexivity.
      * zbool. simpl. left. reflexivity.
    + zbool. simpl. left. reflexivity.
  - apply Z.ltb_ge in Esl.
    rewrite !Qleb_0_int, !Qltb_int, !Qleb_int, Qltb_int_0.
    destruct Hout as [Hout|Hout].
    + destruct (Z.eq_dec sp 0) as [E0|N0].
      * subst sp. destruct (Z.eq_dec sl 0) as [El|Nl].
        -- subst sl. simpl. zbool. simpl.
           right. exists 0. do 2 eexists. split; [simpl; lia|]. reflexivity.
        -- zbool. simpl.
           rewrite (fl_sub 0 (sl + 0)) by lia.
           rewrite (fl_sub 0 sB) by lia.
           rewrite Qltb_0_int, Qltb_int_0. zbool.
           destruct (0 <? dl) eqn:Edl.
           ++ rewrite (fl_sub (dl + dp) dp) by lia.
              replace (0 - (sl + 0)) with (0 - sl) by lia.
              replace (sl + 0) with sl by lia.
              rewrite (fl_div_opp sl) by lia.
              rewrite (fl_neg_mul (dl + dp - dp)) by lia.
              rewrite (fl_add (0 - sl) sl) by lia.
              rewrite (fl_add (dl + dp - dp) (- (dl + dp - dp))) by lia.
              replace (0 - sl + sl) with 0 by lia.
              replace (dl + dp - dp + - (dl + dp - dp)) with 0 by lia.
              right. exists 0. do 2 eexists. split; [simpl; lia|]. reflexivity.
           ++ rewrite (fl_sub dp (dl + dp)) by lia.
              replace (0 - (sl + 0)) with (0 - sl) by lia.
              replace (sl + 0) with sl by lia.
              rewrite (fl_div_opp sl) by lia.
              rewrite (fl_neg_mul (dp - (dl + dp))) by lia.
              rewrite (fl_add (0 - sl) sl) by lia.
              rewrite (fl_add (dp - (dl + dp)) (- (dp - (dl + dp)))) by lia.
              replace (0 - sl + sl) with 0 by lia.
              replace (dp - (dl + dp) + - (dp - (dl + dp))) with 0 by lia.
              right. exists 0. do 2 eexists. split; [simpl; lia|]. reflexivity.
      * zbool. simpl. left. reflexivity.
    + zbool. simpl. left. reflexivity.
Qed.


(** [shrinkRects] reports "nothing to blit" for a rectangle outside the
    source bitmap. *)
Lemma shrinkRects_outside sp sl sB dp dl dB :
  small sp -> small sl -> small dp -> small dl ->
  0 < sB <= 2 ^ 24 -> outside_axis sp sl sB ->
  fst (shrinkRects sp sl sB dp dl dB) = true.
Proof.
  intros Hsp Hsl Hdp Hdl HsB Hout. unfold shrinkRects.
  unfold small in *.
  rewrite !float_of_int_small by lia.
  destruct (shrinkRectsF_outside sp sl sB dp dl dB Hsp Hsl Hdp Hdl HsB Hout)
    as [Ht|(k & c & d & Hk & Heq)].
  - destruct (shrinkRectsF _ _ _ _ _ _ _) as [ret [[[a b] c] d]].
    simpl in Ht. subst ret. reflexivity.
  - rewrite Heq. cbv iota beta. simpl negb. cbv iota.
    destruct (shrinkRectsF_zero_dest c d dB k sB Hk) as (ret & a & b & c' & E).
    rewrite E. cbv iota beta.
    change (c_round 0) with 0. simpl. rewrite orb_true_r. reflexivity.
Qed.

End ShrinkFacts.

(** ** Blitting *)
Section BlitFacts.

Variable maxTexSize : Z.
Variable subImageFix : bool.
Variable GLMeta_blit : Image -> IntRect -> Image -> IntRect -> Image.
Variable TEX_uploadSubImage : Image -> IntRect -> Image -> Image.
Variable BltShader_draw : Image -> IntRect -> Image -> IntRect -> Z -> Image.
Variable SDL_Blit :
  forall (scaled blend : bool) (alphaMod : Z),
    SDL_Surface -> IntRect -> SDL_Surface -> IntRect -> SDL_Surface.

Local Abbreviation stretchBlt' :=
  (stretchBlt maxTexSize subImageFix GLMeta_blit TEX_uploadSubImage
              BltShader_draw SDL_Blit).
Local Abbreviation blitClipped' :=
  (blitClipped maxTexSize subImageFix GLMeta_blit TEX_uploadSubImage
               BltShader_draw SDL_Blit).
Local Abbreviation blitTexture' :=
  (blitTexture maxTexSize subImageFix GLMeta_blit TEX_uploadSubImage
               BltShader_draw).
Local Abbreviation blt' :=
  (blt maxTexSize subImageFix GLMeta_blit TEX_uploadSubImage
       BltShader_draw SDL_Blit).

Lemma Bitmap_mirror_ind (P : Bitmap -> Prop) :
  (forall d pp, P (mkBitmap d pp None)) ->
  (forall d pp hires, P hires -> P (mkBitmap d pp (Some hires))) ->
  forall b, P b.
Proof.
  intros H0 H1. fix IH 1. intros [d pp [hires|]].
  - apply H1, IH.
  - apply H0.
Qed.

Lemma width_live b : disposed b = false -> width b = Ok (width_of b).
Proof.
  intros H. unfold width, width_of, guardDisposed, guard_not. rewrite H. simpl.
  destruct (megaSurface (p b)); [reflexivity|].
  destruct (enabled (animation (p b))); reflexivity.
Qed.

Lemma height_live b : disposed b = false -> height b = Ok (height_of b).
Proof.
  intros H. unfold height, height_of, guardDisposed, guard_not. rewrite H. simpl.
  destruct (megaSurface (p b)); [reflexivity|].
  destruct (enabled (animation (p b))); reflexivity.
Qed.

(** [stretchBlt'] on bitmaps without mirrors is the clipped blit. *)
Lemma stretchBlt_plain vram self source destRect sourceRect opacity :
  disposed self = false -> disposed source = false ->
  selfHires self = None -> selfHires source = None ->
  stretchBlt' vram self source destRect sourceRect opacity
  = blitClipped' vram self source destRect sourceRect opacity.
Proof.
  intros H1 H2 H3 H4. destruct self, source; simpl in *. subst. reflexivity.
Qed.

(** [stretchBlt'] on a destination with a mirror blits into the mirror. *)
Lemma stretchBlt_self_hires vram self hires source destRect sourceRect opacity :
  disposed self = false -> disposed source = false ->
  selfHires self = Some hires ->
  stretchBlt' vram self source destRect sourceRect opacity
  = (hiresW ← width hires; w ← width self;
     hiresH ← height hires; h ← height self;
     out ← stretchBlt' vram hires source
             (scaleRect destRect hiresW w hiresH h) sourceRect opacity;
     Ok (mkOutcome (out_vram out)
                   (set_selfHires self (Some (out_dest out)))
                   (out_path out))).
Proof.
  intros H1 H2 H3. destruct self, source; simpl in *. subst. reflexivity.
Qed.

(** [stretchBlt'] from a source with a mirror blits from the mirror. *)
Lemma stretchBlt_source_hires vram self source hires destRect sourceRect opacity :
  disposed self = false -> disposed source = false ->
  selfHires self = None -> selfHires source = Some hires ->
  stretchBlt' vram self source destRect sourceRect opacity
  = (hiresW ← width hires; w ← width source;
     hiresH ← height hires; h ← height source;
     stretchBlt' vram self hires destRect
                (scaleRect sourceRect hiresW w hiresH h) opacity).
Proof.
  intros H1 H2 H3 H4. destruct self, source; simpl in *. subst.
  destruct hires; reflexivity.
Qed.


Lemma quot_scale_nonneg a c W : 0 <= a -> 0 < c -> 0 < W -> 0 <= Z.quot (a * c) W.
Proof. intros. apply Z.quot_pos; nia. Qed.

Lemma quot_scale_nonpos a c W : a <= 0 -> 0 < c -> 0 < W -> Z.quot (a * c) W <= 0.
Proof.
  intros. replace (a * c) with (- ((- a) * c)) by lia.
  rewrite Z.quot_opp_l by lia.
  pose proof (quot_scale_nonneg (- a) c W). lia.
Qed.

(** Rescaling to the mirror keeps a rectangle outside the bitmap. *)
Lemma outside_axis_scale pos len W hW :
  0 < W -> 0 < hW -> outside_axis pos len W ->
  outside_axis (Z.quot (pos * hW) W) (Z.quot (len * hW) W) hW.
Proof.
  intros HW HhW [Hl|Hr]; unfold outside_axis.
  - left. destruct (Z.le_gt_cases 0 len) as [Hlen|Hlen].
    + assert (pos + len <= 0) by lia.
      assert (Z.quot (pos * hW) W <= Z.quot (- (len * hW)) W)
        by (apply Z.quot_le_mono; nia).
      rewrite Z.quot_opp_l in * by lia.
      pose proof (quot_scale_nonneg len hW W Hlen HhW HW). lia.
    + assert (pos <= 0) by lia.
      pose proof (quot_scale_nonpos pos hW W ltac:(lia) HhW HW).
      pose proof (quot_scale_nonpos len hW W ltac:(lia) HhW HW). lia.
  - right. destruct (Z.le_gt_cases 0 len) as [Hlen|Hlen].
    + assert (W <= pos) by lia.
      assert (Z.quot (W * hW) W <= Z.quot (pos * hW) W)
        by (apply Z.quot_le_mono; nia).
      rewrite (Z.mul_comm W hW), Z.quot_mul in * by lia.
      pose proof (quot_scale_nonneg len hW W Hlen HhW HW). lia.
    + assert (W <= pos + len) by lia.
      assert (Z.quot (hW * W + (- len) * hW) W <= Z.quot (pos * hW) W)
        by (apply Z.quot_le_mono; nia).
      rewrite Z.quot_div_nonneg in H0 by nia.
      rewrite Z.add_comm, Z.div_add in H0 by lia.
      rewrite <- Z.quot_div_nonneg in H0 by nia.
      replace (- len * hW) with (- (len * hW)) in H0 by lia.
      rewrite Z.quot_opp_l in H0 by lia.
      pose proof (quot_scale_nonpos len hW W ltac:(lia) HhW HW). lia.
Qed.

(** Products within [int] are the products of the integers. *)
Lemma scaleRect_exact r hiresW w hiresH h :
  int_range (rect_x r * hiresW) -> int_range (rect_y r * hiresH) ->
  int_range (rect_w r * hiresW) -> int_range (rect_h r * hiresH) ->
  scaleRect r hiresW w hiresH h
  = mkIntRect (Z.quot (rect_x r * hiresW) w) (Z.quot (rect_y r * hiresH) h)
              (Z.quot (rect_w r * hiresW) w) (Z.quot (rect_h r * hiresH) h).
Proof.
  unfold int_range, scaleRect. intros Hx Hy Hw Hh.
  rewrite !PixmanFacts.wrap_id by (simpl; lia). reflexivity.
Qed.

Lemma outside_scale source hires r :
  0 < width_of source -> 0 < height_of source ->
  0 < width_of hires -> 0 < height_of hires ->
  int_range (rect_x r * width_of hires) ->
  int_range (rect_y r * height_of hires) ->
  int_range (rect_w r * width_of hires) ->
  int_range (rect_h r * height_of hires) ->
  outside source r ->
  outside hires (scaleRect r (width_of hires) (width_of source)
                             (height_of hires) (height_of source)).
Proof.
  intros Hw Hh Hhw Hhh Hix Hiy Hiw Hih Hout.
  rewrite scaleRect_exact by assumption.
  destruct Hout as [Hx|Hy]; [left|right]; simpl;
    apply outside_axis_scale; assumption.
Qed.

(** The clipped blit of a rectangle outside the source changes nothing. *)
Lemma blitClipped_outside vram self source destRect sourceRect opacity :
  disposed self = false -> disposed source = false ->
  0 < width_of source <= 2 ^ 24 -> 0 < height_of source <= 2 ^ 24 ->
  rect_small destRect -> rect_small sourceRect ->
  outside source sourceRect ->
  blitClipped' vram self source destRect sourceRect opacity
  = Ok (mkOutcome vram self None).
Proof.
  intros Hd Hs Hw Hh (Hdx & Hdy & Hdw & Hdh) (Hsx & Hsy & Hsw & Hsh) Hout.
  unfold blitClipped.
  destruct (clamp opacity 0 255 =? 0); [reflexivity|].
  rewrite (width_live source Hs), (width_live self Hd). simpl.
  destruct Hout as [Hx|Hy].
  - pose proof (ShrinkFacts.shrinkRects_outside _ _ _ (rect_x destRect)
                  (rect_w destRect) (width_of self) Hsx Hsw Hdx Hdw Hw Hx) as E.
    destruct (shrinkRects _ _ _ _ _ _) as [ret [[[a b] c] d]].
    simpl in E. subst ret. reflexivity.
  - destruct (shrinkRects (rect_x sourceRect) _ _ _ _ _) as [ret [[[a b] c] d]].
    destruct ret; [reflexivity|].
    rewrite (height_live source Hs), (height_live self Hd). simpl.
    pose proof (ShrinkFacts.shrinkRects_outside _ _ _ (rect_y destRect)
                  (rect_h destRect) (height_of self) Hsy Hsh Hdy Hdh Hh Hy) as E.
    destruct (shrinkRects _ _ _ _ _ _) as [ret [[[a' b'] c'] d']].
    simpl in E. subst ret. reflexivity.
Qed.

Lemma stretchBlt_outside_source vram self opacity :
  disposed self = false -> selfHires self = None ->
  forall source destRect sourceRect,
  live source -> dimensioned source -> scalable source sourceRect ->
  rect_small destRect -> rect_small (snd (mirrored source sourceRect)) ->
  outside source sourceRect ->
  stretchBlt' vram self source destRect sourceRect opacity
  = Ok (mkOutcome vram self None).
Proof.
  intros Hd Hh source. induction source as [d pp|d pp hires IH] using Bitmap_mirror_ind;
    intros destRect sourceRect Hlive Hdim Hsc Hdr Hsr Hout.
  - destruct Hlive as [Hl _]. destruct Hdim as (Hw & Hhh & _). simpl in *.
    rewrite stretchBlt_plain by auto.
    apply blitClipped_outside; auto.
  - destruct Hlive as [Hl Hlh]. destruct Hdim as (Hw & Hhh & Hdimh).
    destruct Hsc as (_ & _ & Hix & Hiy & Hiw & Hih & Hsch).
    simpl in Hl, Hlh, Hdimh, Hsr, Hix, Hiy, Hiw, Hih, Hsch.
    assert (Hlh' := Hlh). destruct hires as [dh pph hh]. destruct Hlh' as [Hdh _].
    assert (Hdimh' := Hdimh). destruct Hdimh' as (Hwh & Hhhh & _).
    rewrite (stretchBlt_source_hires vram self _ (mkBitmap dh pph hh)) by auto.
    rewrite (width_live _ Hdh), (height_live _ Hdh).
    rewrite (width_live (mkBitmap d pp _) Hl), (height_live (mkBitmap d pp _) Hl).
    simpl mbind.
    apply IH; auto.
    apply outside_scale; auto; lia.
Qed.



(** C8.  [blt'] from a disposed source into a destination that is not
    disposed returns without an error and leaves the textures and the
    destination as they were; [stretchBlt'] on a disposed destination raises
    the disposed-access error, and with it does no work. *)
Theorem blt_disposed_source_stretchBlt_disposed_self
    vram self gone source other x y rect destRect sourceRect opacity :
  disposed self = false -> disposed source = true -> disposed gone = true ->
  blt' vram self x y source rect opacity = Ok (mkOutcome vram self None) /\
  stretchBlt' vram gone other destRect sourceRect opacity
  = Err RGSSError_disposed.
Proof.
  intros Hs Hsrc Hg. split.
  - unfold blt, isDisposed. rewrite Hsrc. reflexivity.
  - destruct gone, other; simpl in *. subst. reflexivity.
Qed.

Lemma clamp_opacity_range opacity : 0 <= clamp opacity 0 255 <= 255.
Proof.
  unfold clamp. destruct (opacity <? 0) eqn:E1; [lia|].
  destruct (255 <? opacity) eqn:E2; [lia|].
  apply Z.ltb_ge in E1, E2. lia.
Qed.

(** Settles the three equivalences about the path once the path taken is
    known and the conditions are decided. *)
Ltac path_cases :=
  simpl; repeat split; intros;
  repeat match goal with
         | H : exists _, _ |- _ => destruct H
         | H : _ /\ _ |- _ => destruct H
         end;
  try discriminate; try (eexists; reflexivity);
  try lia; try tauto; try (exfalso; congruence);
  try (left; reflexivity);
  try (right; split; [lia|reflexivity]).

(** The clipped blit onto a texture: the path taken. *)
Lemma blitClipped_dispatch
    vram self source destRect sourceRect opacity destRect' sourceRect' dst :
  disposed self = false -> disposed source = false ->
  megaSurface (p self) = None ->
  getGLTypes (p self) = Ok dst ->
  (megaSurface (p source) = None -> exists src, getGLTypes (p source) = Ok src) ->
  clamp opacity 0 255 <> 0 ->
  clipRects self source destRect sourceRect = Some (destRect', sourceRect') ->
  exists out,
    blitClipped' vram self source destRect sourceRect opacity = Ok out /\
    let o := clamp opacity 0 255 in
    let touches := touchesTaintedArea (p self) destRect' in
    let mega := has (megaSurface (p source)) in
    let tooBig := sourceTooBig maxTexSize source sourceRect' in
    (out_path out = Some FastBlit <->
       mega = false /\ o = 255 /\ touches = false) /\
    ((exists direct, out_path out = Some (UploadBlit direct)) <->
       mega = true /\ touches = false /\ (o = 255 \/ tooBig = true)) /\
    (out_path out = Some ShaderBlit <->
       touches = true \/ (o <> 255 /\ tooBig = false)).
Proof.
  intros Hd Hs Hmega Hdst Hsrc Ho Hclip.
  unfold blitClipped.
  pose proof (clamp_opacity_range opacity) as Hrange.
  set (o := clamp opacity 0 255) in *.
  destruct (o =? 0) eqn:E0; [apply Z.eqb_eq in E0; contradiction|].
  rewrite (width_live source Hs), (width_live self Hd). simpl mbind.
  unfold clipRects in Hclip.
  destruct (shrinkRects (rect_x sourceRect) _ _ _ _ _) as [retx [[[sx sw] dx] dw]].
  destruct retx; [discriminate|].
  rewrite (height_live source Hs), (height_live self Hd). simpl mbind.
  destruct (shrinkRects (rect_y sourceRect) _ _ _ _ _) as [rety [[[sy sh] dy] dh]].
  destruct rety; [discriminate|].
  injection Hclip as <- <-.
  rewrite Hmega. unfold blitTexture, sourceTooBig.
  set (touches := touchesTaintedArea (p self) _).
  rewrite Hdst.
  destruct (megaSurface (p source)) as [s|] eqn:Esrc; simpl has; simpl negb.
  - (* mega source *)
    simpl andb. cbv zeta. cbn [rect_w rect_h rect_x rect_y].
    destruct (((maxTexSize <? sw) || (maxTexSize <? sh)) ||
              ((maxTexSize <? surf_w s) || (maxTexSize <? surf_h s))) eqn:Ebig.
    + (* the source is cropped or resized in software; opacity becomes 255 *)
      simpl (255 =? 255).
      destruct touches eqn:Et; simpl negb; simpl andb; cbv iota.
      * eexists; split; [simpl; reflexivity|]. path_cases.
      * destruct (negb subImageFix && _ && _ && _ && _);
          (eexists; split; [simpl; reflexivity|]); path_cases.
    + destruct (o =? 255) eqn:Eo.
      * apply Z.eqb_eq in Eo.
        assert (Elt : (o <? 255) = false) by (apply Z.ltb_ge; lia).
        destruct touches eqn:Et; simpl negb; simpl andb; cbv iota.
        -- simpl mbind. rewrite Elt. simpl orb. cbv iota.
           eexists; split; [simpl; reflexivity|]. path_cases.
        -- destruct (negb subImageFix && _ && _ && _ && _);
             simpl mbind; rewrite Elt; simpl orb; cbv iota;
             (eexists; split; [simpl; reflexivity|]); path_cases.
      * apply Z.eqb_neq in Eo. simpl andb. cbv iota. simpl mbind.
        replace (o <? 255) with true by (symmetry; apply Z.ltb_lt; lia).
        eexists; split; [simpl; reflexivity|]. path_cases.
  - (* texture source *)
    destruct (Hsrc eq_refl) as [src Hsrc']. rewrite Hsrc'.
    destruct (o =? 255) eqn:Eo.
    + apply Z.eqb_eq in Eo.
      destruct touches eqn:Et; simpl andb; cbv iota.
      * simpl mbind. rewrite orb_true_r.
        eexists; split; [simpl; reflexivity|]. path_cases.
      * eexists; split; [simpl; reflexivity|]. path_cases.
    + apply Z.eqb_neq in Eo. simpl andb. cbv iota. simpl mbind.
      replace (o <? 255) with true by (symmetry; apply Z.ltb_lt; lia).
      eexists; split; [simpl; reflexivity|]. path_cases.
Qed.

(** The bitmap [stretchBlt'] ends up working on has no mirror and is not
    disposed. *)
Lemma mirrored_leaf b :
  forall r t r', live b -> mirrored b r = (t, r') ->
  disposed t = false /\ selfHires t = None.
Proof.
  induction b as [d pp|d pp hires IH] using Bitmap_mirror_ind;
    intros r t r' Hl Hm; simpl in *.
  - injection Hm as <- <-. destruct Hl. auto.
  - destruct Hl as [_ Hl]. eapply IH; eassumption.
Qed.

(** From a source with mirrors, [stretchBlt'] is the clipped blit from the
    last mirror. *)
Lemma stretchBlt_source_mirrored vram self opacity :
  disposed self = false -> selfHires self = None ->
  forall source destRect sourceRect origin sRect,
  live source -> mirrored source sourceRect = (origin, sRect) ->
  stretchBlt' vram self source destRect sourceRect opacity
  = blitClipped' vram self origin destRect sRect opacity.
Proof.
  intros Hd Hh source.
  induction source as [d pp|d pp hires IH] using Bitmap_mirror_ind;
    intros destRect sourceRect origin sRect Hlive Hm.
  - destruct Hlive as [Hl _]. simpl in *. injection Hm as <- <-.
    apply stretchBlt_plain; auto.
  - destruct Hlive as [Hl Hlh]. simpl in Hl, Hlh, Hm.
    assert (Hlh' := Hlh). destruct hires as [dh pph hh]. destruct Hlh' as [Hdh _].
    rewrite (stretchBlt_source_hires vram self _ (mkBitmap dh pph hh)) by auto.
    rewrite (width_live _ Hdh), (height_live _ Hdh).
    rewrite (width_live (mkBitmap d pp _) Hl), (height_live (mkBitmap d pp _) Hl).
    simpl mbind. apply IH; auto.
Qed.

(** Through the mirrors of destination and source, [stretchBlt'] returns
    when the clipped blit between the last mirrors does, and takes the
    path it takes. *)
Lemma stretchBlt_mirrored_path vram opacity :
  forall self source destRect sourceRect target dRect origin sRect out0,
  live self -> live source ->
  mirrored self destRect = (target, dRect) ->
  mirrored source sourceRect = (origin, sRect) ->
  blitClipped' vram target origin dRect sRect opacity = Ok out0 ->
  exists out,
    stretchBlt' vram self source destRect sourceRect opacity = Ok out /\
    out_path out = out_path out0.
Proof.
  intros self. induction self as [d pp|d pp hires IH] using Bitmap_mirror_ind;
    intros source destRect sourceRect target dRect origin sRect out0
           Hls Hlsrc Hm Hms Hblit.
  - destruct Hls as [Hd _]. simpl in Hd, Hm. injection Hm as <- <-.
    exists out0. split; [|reflexivity].
    rewrite (stretchBlt_source_mirrored vram (mkBitmap d pp None) opacity
               Hd eq_refl source destRect sourceRect origin sRect Hlsrc Hms).
    exact Hblit.
  - destruct Hls as [Hd Hlh]. simpl in Hd, Hlh, Hm.
    assert (Hsd : disposed source = false) by (destruct source; apply Hlsrc).
    assert (Hlh' := Hlh). destruct hires as [dh pph hh]. destruct Hlh' as [Hdh _].
    rewrite (stretchBlt_self_hires vram _ (mkBitmap dh pph hh)) by auto.
    rewrite (width_live _ Hdh), (height_live _ Hdh).
    rewrite (width_live (mkBitmap d pp _) Hd), (height_live (mkBitmap d pp _) Hd).
    destruct (IH source _ sourceRect target dRect origin sRect out0
                Hlh Hlsrc Hm Hms Hblit) as (out & Heq & Hpath).
    cbv beta iota delta [mbind result_bind]. rewrite Heq.
    eexists. split; [reflexivity|]. exact Hpath.
Qed.


End BlitFacts.

Module BlitExamples.

Local Abbreviation stretchBlt1024 :=
  (stretchBlt 1024 false sample_blit sample_upload sample_shader
              sample_SDL_Blit).



(** The hypothesis on the products.  The source is 16384 pixels wide, its
    mirror 32768; the source rectangle starts at x = 131072, outside the
    source.  The product 131072 * 32768 = 2^32 is 0 as an int: the mirror is
    read from x = 0, and the blit runs. *)
Example stretchBlt_outside_product_overflow :
  let self := texture_bitmap 1 10 1 (Some (mkSurface 10 1 [0; 0; 0; 0])) in
  let source := with_mirror (texture_bitmap 2 16384 1 None)
                            (texture_bitmap 3 32768 1 None) in
  let sourceRect := mkIntRect 131072 0 10 1 in
  let destRect := mkIntRect 0 0 10 1 in
  outside source sourceRect /\
  mirrored source sourceRect
  = (texture_bitmap 3 32768 1 None, mkIntRect 0 0 20 1) /\
  exists out,
    stretchBlt1024 sample_vram self source destRect sourceRect 255 = Ok out /\
    out_path out = Some FastBlit /\
    taintedRegion (p (out_dest out)) = [Pixman.Box 0 0 10 1] /\
    surface (p (out_dest out)) = None.
Proof.
  split; [|split].
  - left. unfold outside_axis, width_of; simpl. lia.
  - vm_compute. reflexivity.
  - eexists. split; [vm_compute; reflexivity|].
    repeat split; vm_compute; reflexivity.
Qed.

Lemma blt_disposed_source_stretchBlt_disposed_self_witness :
  blt 1024 false sample_blit sample_upload sample_shader sample_SDL_Blit
      sample_vram (texture_bitmap 1 4 4 None) 0 0 disposed_bitmap
      (mkIntRect 0 0 4 4) 255
  = Ok (mkOutcome sample_vram (texture_bitmap 1 4 4 None) None) /\
  stretchBlt1024 sample_vram disposed_bitmap (texture_bitmap 2 4 4 None)
    (mkIntRect 0 0 4 4) (mkIntRect 0 0 4 4) 255
  = Err RGSSError_disposed.
Proof.
  apply blt_disposed_source_stretchBlt_disposed_self; reflexivity.
Defined.


(** A destination rectangle flipped on the x axis is not normalized before
    [touchesTaintedArea] is asked: over a destination tainted all over,
    the flipped rectangle from 10 down to 0 is found "fully out", and the
    blit takes the direct copy. *)
Example stretchBlt_flipped_rect_fast :
  let self := tainted_bitmap (texture_bitmap 1 10 10 None)
                             (mkIntRect 0 0 10 10) in
  Pixman.contains_point (taintedRegion (p self)) 5 5 = true /\
  exists out,
    stretchBlt1024 sample_vram self (texture_bitmap 2 10 10 None)
      (mkIntRect 10 0 (-10) 10) (mkIntRect 0 0 10 10) 255
    = Ok out /\
    out_path out = Some FastBlit.
Proof.
  split; [reflexivity|].
  eexists. split; [vm_compute; reflexivity|]. reflexivity.
Qed.


End BlitExamples.

(** ** Pixel access *)
Section PixelFacts.

Variable TEX_uploadSubImage : Image -> IntRect -> Image -> Image.

Local Abbreviation setPixel' := (setPixel TEX_uploadSubImage).
Local Abbreviation setPixel_fuel' := (setPixel_fuel TEX_uploadSubImage).

Lemma pixelIndex_eq surf x y : pixelIndex surf x y = x + y * surf_w surf.
Proof.
  unfold pixelIndex.
  replace (x * 4 + y * (4 * surf_w surf)) with ((x + y * surf_w surf) * 4) by lia.
  apply Z.div_mul. lia.
Qed.

Lemma inSurface_bounds surf x y :
  Z.of_nat (length (surf_pixels surf)) = surf_w surf * surf_h surf ->
  0 <= x < surf_w surf -> 0 <= y < surf_h surf ->
  inSurface surf x y = true.
Proof.
  intros Hlen Hx Hy. unfold inSurface. rewrite pixelIndex_eq.
  apply andb_true_iff. split; [apply Z.leb_le|apply Z.ltb_lt]; nia.
Qed.

Lemma pixelIndex_inj surf x y x' y' :
  0 <= x < surf_w surf -> 0 <= x' < surf_w surf ->
  pixelIndex surf x y = pixelIndex surf x' y' -> x = x' /\ y = y'.
Proof.
  rewrite !pixelIndex_eq. intros Hx Hx' E.
  assert (y = y') by nia. subst. lia.
Qed.

(** Writing one pixel of a surface: that pixel reads back the word
    written, every other pixel reads as before. *)
Lemma setPixelAt_same surf x y v :
  inSurface surf x y = true -> getPixelAt (setPixelAt surf x y v) x y = v.
Proof.
  intros Hin. unfold setPixelAt. rewrite Hin.
  unfold getPixelAt, inSurface in *. rewrite !pixelIndex_eq in *. simpl.
  rewrite length_insert, Hin.
  rewrite list_lookup_insert_eq; [reflexivity|].
  apply andb_true_iff in Hin as [H1 H2].
  apply Z.leb_le in H1. apply Z.ltb_lt in H2. lia.
Qed.

Lemma setPixelAt_other surf x y v x' y' :
  0 <= x < surf_w surf -> 0 <= x' < surf_w surf ->
  (x', y') <> (x, y) ->
  getPixelAt (setPixelAt surf x y v) x' y' = getPixelAt surf x' y'.
Proof.
  intros Hx Hx' Hne. unfold setPixelAt.
  destruct (inSurface surf x y) eqn:Hin; [|reflexivity].
  unfold getPixelAt, inSurface in *. rewrite !pixelIndex_eq in *. simpl.
  rewrite length_insert.
  destruct ((0 <=? x' + y' * surf_w surf) &&
            (x' + y' * surf_w surf <? Z.of_nat (length (surf_pixels surf)))) eqn:Hin';
    [|reflexivity].
  rewrite list_lookup_insert_ne; [reflexivity|].
  apply andb_true_iff in Hin as [H1 H2], Hin' as [H1' H2'].
  apply Z.leb_le in H1, H1'.
  intros E. apply Z2Nat.inj in E; try lia.
  apply Hne. assert (y = y') by nia. subst. f_equal. lia.
Qed.

Lemma has_onModified_false d : onModified d false = d.
Proof. unfold onModified. rewrite andb_false_r. reflexivity. Qed.

Lemma surface_addTaintedArea d r : surface (addTaintedArea d r) = surface d.
Proof. unfold addTaintedArea. destruct (pixmanUseRegion32 d); reflexivity. Qed.

Lemma megaSurface_addTaintedArea d r :
  megaSurface (addTaintedArea d r) = megaSurface d.
Proof. unfold addTaintedArea. destruct (pixmanUseRegion32 d); reflexivity. Qed.

(** The cache after [setPixel'], whatever the mirror did. *)
Lemma setPixel_fuel_surface fuel vram self x y color surf vram' self' :
  megaSurface (p self) = None -> surface (p self) = Some surf ->
  setPixel_fuel' fuel vram self x y color = Ok (vram', self') ->
  surface (p self') = Some (setPixelAt surf x y (colorWord color)).
Proof.
  intros Hmega Hsurf Hset.
  destruct fuel; simpl in Hset.
  - destruct (guardDisposed self); [|discriminate]. simpl in Hset.
    destruct (GUARD_ANIMATED self); [|discriminate]. simpl in Hset.
    destruct (selfHires self); simpl in Hset;
      rewrite megaSurface_addTaintedArea, Hmega, surface_addTaintedArea, Hsurf in Hset;
      rewrite has_onModified_false in Hset; injection Hset as <- <-; reflexivity.
  - destruct (guardDisposed self); [|discriminate]. simpl in Hset.
    destruct (GUARD_ANIMATED self); [|discriminate]. simpl in Hset.
    destruct (selfHires self) as [hires|]; simpl in Hset.
    + destruct (width hires); [|discriminate]. simpl in Hset.
      destruct (width self); [|discriminate]. simpl in Hset.
      destruct (height hires); [|discriminate]. simpl in Hset.
      destruct (height self); [|discriminate]. simpl in Hset.
      destruct (foldM _ _ _) as [[vram1 hires1]|]; [|discriminate].
      simpl in Hset.
      rewrite megaSurface_addTaintedArea, Hmega, surface_addTaintedArea, Hsurf in Hset.
      rewrite has_onModified_false in Hset. injection Hset as <- <-. reflexivity.
    + rewrite megaSurface_addTaintedArea, Hmega, surface_addTaintedArea, Hsurf in Hset.
      rewrite has_onModified_false in Hset. injection Hset as <- <-. reflexivity.
Qed.

(** The textures after [setPixel']: the four bytes of the colour are
    uploaded at (x, y) into the texture of the bitmap, after what the
    writes to the mirror did; without a mirror nothing else is written. *)
Lemma setPixel_fuel_vram fuel vram self x y color vram' self' :
  megaSurface (p self) = None ->
  setPixel_fuel' fuel vram self x y color = Ok (vram', self') ->
  exists vram0,
    (selfHires self = None -> vram0 = vram) /\
    vram'
    = <[tex (gl (p self)) :=
          TEX_uploadSubImage (tex_image vram0 (gl (p self)))
            (mkIntRect x y 1 1)
            [ uint8_of_double (clampQ (red color) 0 255);
              uint8_of_double (clampQ (green color) 0 255);
              uint8_of_double (clampQ (blue color) 0 255);
              uint8_of_double (clampQ (alpha color) 0 255) ]]> vram0.
Proof.
  intros Hmega Hset.
  destruct fuel; simpl in Hset.
  - destruct (guardDisposed self); [|discriminate]. simpl in Hset.
    destruct (GUARD_ANIMATED self); [|discriminate]. simpl in Hset.
    exists vram. split; [reflexivity|].
    destruct (selfHires self); simpl in Hset;
      rewrite Hmega in Hset; simpl in Hset;
      injection Hset as <- _; reflexivity.
  - destruct (guardDisposed self); [|discriminate]. simpl in Hset.
    destruct (GUARD_ANIMATED self); [|discriminate]. simpl in Hset.
    destruct (selfHires self) as [hires|]; simpl in Hset.
    + destruct (width hires); [|discriminate]. simpl in Hset.
      destruct (width self); [|discriminate]. simpl in Hset.
      destruct (height hires); [|discriminate]. simpl in Hset.
      destruct (height self); [|discriminate]. simpl in Hset.
      destruct (foldM _ _ _) as [[vram1 hires1]|]; [|discriminate].
      simpl in Hset. rewrite Hmega in Hset. simpl in Hset.
      exists vram1. split; [discriminate|].
      injection Hset as <- _. reflexivity.
    + rewrite Hmega in Hset. simpl in Hset.
      exists vram. split; [reflexivity|].
      injection Hset as <- _. reflexivity.
Qed.

Lemma setPixel_plain vram self x y color :
  disposed self = false -> enabled (animation (p self)) = false ->
  selfHires self = None ->
  exists vram' self', setPixel' vram self x y color = Ok (vram', self').
Proof.
  intros Hd Ha Hh. unfold setPixel.
  destruct self as [d pp hh]; simpl in Hd, Ha, Hh. subst.
  cbn [mirrors selfHires setPixel_fuel'].
  unfold guardDisposed, GUARD_ANIMATED, guard_not.
  cbn [disposed p]. rewrite Ha. simpl.
  do 2 eexists. reflexivity.
Qed.

(** The byte of a channel: [(uint8_t) clamp<double>(c, 0, 255)] is 0 for a
    channel below 0, 255 for one above 255, and the integer part of the
    channel between the two. *)
Lemma uint8_clamp c :
  uint8_of_double (clampQ c 0 255) = Z.max 0 (Z.min 255 (Qfloor c)).
Proof.
  unfold clampQ, uint8_of_double, Float.Qltb.
  destruct (Qle_bool 0 c) eqn:E0; simpl negb; cbv iota.
  - pose proof E0 as E0b. apply Qle_bool_iff in E0.
    assert (H0 : 0 <= Qfloor c).
    { change 0 with (Qfloor (inject_Z 0)). apply Qfloor_resp_le. exact E0. }
    destruct (Qle_bool c 255) eqn:E1; simpl negb; cbv iota.
    + apply Qle_bool_iff in E1. rewrite E0b.
      assert (H1 : Qfloor c <= 255).
      { change 255 with (Qfloor (inject_Z 255)). apply Qfloor_resp_le. exact E1. }
      rewrite Z.mod_small by lia. lia.
    + assert (H1 : 255 <= Qfloor c).
      { change 255 with (Qfloor (inject_Z 255)). apply Qfloor_resp_le.
        apply Qlt_le_weak, Qnot_le_lt. intros H.
        apply Qle_bool_iff in H. exact (eq_true_false_abs _ H E1). }
      replace (Z.max 0 (Z.min 255 (Qfloor c))) with 255 by lia.
      reflexivity.
  - assert (H0 : Qfloor c < 0).
    { assert (Hc : (c < 0)%Q).
      { apply Qnot_le_lt. intros H. apply Qle_bool_iff in H.
        exact (eq_true_false_abs _ H E0). }
      pose proof (Qfloor_le c) as Hf.
      apply Z.lt_nge. intros Hge.
      apply (Qlt_irrefl 0).
      apply Qle_lt_trans with c; [|exact Hc].
      apply Qle_trans with (inject_Z (Qfloor c)); [|exact Hf].
      change (inject_Z 0 <= inject_Z (Qfloor c))%Q.
      rewrite <- Zle_Qle. exact Hge. }
    replace (Z.max 0 (Z.min 255 (Qfloor c))) with 0 by lia.
    reflexivity.
Qed.

Lemma uint8_clamp_range c : 0 <= uint8_of_double (clampQ c 0 255) <= 255.
Proof. rewrite uint8_clamp. lia. Qed.

(** A value below 2^k and a value shifted by k bits share no bit. *)
Lemma lor_shiftl lo hi k :
  0 <= k -> 0 <= lo < 2 ^ k -> Z.lor lo (Z.shiftl hi k) = lo + hi * 2 ^ k.
Proof.
  intros Hk Hlo.
  assert (Hland : Z.land lo (Z.shiftl hi k) = 0).
  { apply Z.bits_inj'. intros n Hn. rewrite Z.land_spec, Z.bits_0.
    destruct (Z.lt_ge_cases n k) as [Hlt|Hge].
    - rewrite Z.shiftl_spec_low by assumption. apply andb_false_r.
    - destruct (Z.eq_dec lo 0) as [->|Hne]; [rewrite Z.bits_0; reflexivity|].
      rewrite Z.bits_above_log2; [reflexivity|lia|].
      assert (Z.log2 lo < k) by (apply Z.log2_lt_pow2; lia). lia. }
  pose proof (Z.add_lor_land lo (Z.shiftl hi k)) as Hadd.
  rewrite Hland, Z.shiftl_mul_pow2 in Hadd by assumption.
  rewrite Z.shiftl_mul_pow2 by assumption. lia.
Qed.

(** SDL_MapRGBA on four bytes: red in the low byte, then green, blue and
    alpha. *)
Lemma SDL_MapRGBA_bytes r g b a :
  0 <= r <= 255 -> 0 <= g <= 255 -> 0 <= b <= 255 -> 0 <= a <= 255 ->
  SDL_MapRGBA r g b a = r + g * 2 ^ 8 + b * 2 ^ 16 + a * 2 ^ 24.
Proof.
  intros Hr Hg Hb Ha. unfold SDL_MapRGBA.
  rewrite Z.shiftl_0_r.
  rewrite (lor_shiftl r g 8) by lia.
  rewrite (lor_shiftl _ b 16) by lia.
  rewrite (lor_shiftl _ a 24) by lia.
  reflexivity.
Qed.

(** C9.  For a bitmap that is neither disposed, mega nor animated, with a
    populated CPU cache of the size of the bitmap, and a pixel (x, y) inside
    the bitmap: [setPixel'] returns when there is no mirror to write through,
    and whenever it returns
    - the texture of the bitmap has received, at (x, y), the four bytes of
      the colour limited to [0, 255]: each channel c as the integer part of
      c, or 0 for c below 0, or 255 for c above 255 (without a mirror no
      other texture is written);
    - the cache is still there, with the same size, and its pixel (x, y)
      holds these same four bytes, red in the low byte, then green, blue
      and alpha;
    - every other pixel of the cache is as before. *)
Theorem setPixel_patches_cache vram self x y color surf :
  disposed self = false -> enabled (animation (p self)) = false ->
  megaSurface (p self) = None -> surface (p self) = Some surf ->
  surf_w surf = width_of self -> surf_h surf = height_of self ->
  Z.of_nat (length (surf_pixels surf)) = surf_w surf * surf_h surf ->
  0 <= x < width_of self -> 0 <= y < height_of self ->
  let byte (c : Q) := Z.max 0 (Z.min 255 (Qfloor c)) in
  let r := byte (red color) in
  let g := byte (green color) in
  let b := byte (blue color) in
  let a := byte (alpha color) in
  (selfHires self = None ->
   exists vram' self', setPixel' vram self x y color = Ok (vram', self')) /\
  forall vram' self',
    setPixel' vram self x y color = Ok (vram', self') ->
    exists surf' vram0,
      (selfHires self = None -> vram0 = vram) /\
      vram' = <[tex (gl (p self)) :=
                  TEX_uploadSubImage (tex_image vram0 (gl (p self)))
                    (mkIntRect x y 1 1) [r; g; b; a]]> vram0 /\
      surface (p self') = Some surf' /\
      surf_w surf' = surf_w surf /\ surf_h surf' = surf_h surf /\
      getPixelAt surf' x y = r + g * 2 ^ 8 + b * 2 ^ 16 + a * 2 ^ 24 /\
      forall x' y',
        0 <= x' < width_of self -> 0 <= y' < height_of self ->
        (x', y') <> (x, y) ->
        getPixelAt surf' x' y' = getPixelAt surf x' y'.
Proof.
  intros Hd Ha Hmega Hsurf Hw Hh Hlen Hx Hy byte r g b a. split.
  - intros Hhires. apply setPixel_plain; assumption.
  - intros vram' self' Hset.
    destruct (setPixel_fuel_vram _ _ _ _ _ _ _ _ Hmega Hset)
      as (vram0 & Hplain & Hvram).
    exists (setPixelAt surf x y (colorWord color)), vram0.
    split; [exact Hplain|].
    split; [rewrite !uint8_clamp in Hvram; exact Hvram|].
    split; [eapply setPixel_fuel_surface; eassumption|].
    assert (Hin : inSurface surf x y = true)
      by (apply inSurface_bounds; [assumption|lia|lia]).
    repeat split.
    + unfold setPixelAt. rewrite Hin. reflexivity.
    + unfold setPixelAt. rewrite Hin. reflexivity.
    + rewrite setPixelAt_same by exact Hin. unfold colorWord.
      rewrite SDL_MapRGBA_bytes by apply uint8_clamp_range.
      rewrite !uint8_clamp. reflexivity.
    + intros x' y' Hx' Hy' Hne. apply setPixelAt_other; [lia|lia|exact Hne].
Qed.

End PixelFacts.

Section GetPixelFacts.

(** C10.  On a bitmap that is neither disposed nor animated and has no
    hi-res mirror, [getPixel] at coordinates outside the bitmap (x < 0,
    y < 0, x >= width or y >= height) returns the colour (0, 0, 0, 0)
    without an error and leaves the bitmap as it was. *)
Theorem getPixel_out_of_bounds vram self x y :
  disposed self = false -> enabled (animation (p self)) = false ->
  selfHires self = None ->
  x < 0 \/ y < 0 \/ width_of self <= x \/ height_of self <= y ->
  getPixel vram self x y = Ok (mkColor 0 0 0 0, self).
Proof.
  intros Hd Ha Hh Hout. unfold getPixel.
  pose proof (width_live self Hd) as Hw.
  pose proof (height_live self Hd) as Hhh.
  destruct self as [d pp hh]; simpl in Hd, Ha, Hh. subst.
  cbn [mirrors selfHires getPixel_fuel].
  rewrite Hw, Hhh.
  unfold guardDisposed, GUARD_ANIMATED, guard_not.
  cbn [disposed p]. rewrite Ha. simpl mbind.
  assert ((x <? 0) || (y <? 0) ||
          (width_of (mkBitmap false pp None) <=? x) ||
          (height_of (mkBitmap false pp None) <=? y) = true) as ->.
  { rewrite !orb_true_iff, !Z.ltb_lt, !Z.leb_le. tauto. }
  reflexivity.
Qed.

End GetPixelFacts.

(** ** Frames *)
Section FrameFacts.

Variable frameRate : Q.
Variable GLMeta_blit : Image -> IntRect -> Image -> IntRect -> Image.
Variable TexPool : Type.
Variable texPool_request : TexPool -> Z -> Z -> result (TEXFBO * TexPool).
Variable texPool_release : TexPool -> TEXFBO -> TexPool.

Local Abbreviation addFrame' :=
  (addFrame frameRate GLMeta_blit TexPool texPool_request).
Local Abbreviation removeFrame' := (removeFrame TexPool texPool_release).

Lemma live_disposed b : live b -> disposed b = false.
Proof. destruct b; intros [H _]; exact H. Qed.

Lemma live_set_p b d : live b -> live (set_p b d).
Proof. destruct b as [dd pp [h|]]; simpl; tauto. Qed.

(** [taintArea] on a live bitmap returns, and touches the tainted area
    only. *)
Lemma taintArea_live self :
  forall r, live self ->
  exists self', taintArea self r = Ok self' /\
    gl (p self') = gl (p self) /\
    animation (p self') = animation (p self) /\
    megaSurface (p self') = megaSurface (p self).
Proof.
  induction self as [d pp|d pp hires IH] using Bitmap_mirror_ind;
    intros r Hlive.
  - destruct Hlive as [Hd _]. simpl in Hd. subst. simpl.
    eexists. split; [reflexivity|].
    unfold addTaintedArea. destruct (pixmanUseRegion32 pp); simpl; auto.
  - destruct Hlive as [Hd Hl]. simpl in Hd, Hl. subst.
    pose proof (live_disposed _ Hl) as Hdh.
    cbn [taintArea]. unfold guardDisposed, guard_not. cbn [disposed]. simpl mbind at 1.
    cbn [selfHires].
    rewrite (width_live _ Hdh), (height_live _ Hdh).
    rewrite (width_live (mkBitmap false pp (Some hires)) eq_refl),
            (height_live (mkBitmap false pp (Some hires)) eq_refl).
    simpl mbind.
    destruct (IH (scaleRect r (width_of hires)
                    (width_of (mkBitmap false pp (Some hires)))
                    (height_of hires)
                    (height_of (mkBitmap false pp (Some hires)))) Hl)
      as (h' & Eh & _).
    rewrite Eh. simpl.
    eexists. split; [reflexivity|].
    unfold addTaintedArea. destruct (pixmanUseRegion32 pp); simpl; auto.
Qed.


Local Arguments taintArea : simpl never.

Lemma rect_live b :
  disposed b = false ->
  rect b = Ok (mkIntRect 0 0 (width_of b) (height_of b)).
Proof.
  intros H. unfold rect. rewrite (width_live b H), (height_live b H).
  unfold guardDisposed, guard_not. rewrite H. reflexivity.
Qed.

Lemma clamp_low v hi : v <= 0 -> 0 <= hi -> clamp v 0 hi = 0.
Proof.
  intros Hv Hhi. unfold clamp.
  destruct (v <? 0) eqn:E1; [reflexivity|]. apply Z.ltb_ge in E1.
  destruct (hi <? v) eqn:E2; [apply Z.ltb_lt in E2; lia|]. lia.
Qed.

Lemma clamp_high v hi : hi <= v -> 0 <= hi -> clamp v 0 hi = hi.
Proof.
  intros Hv Hhi. unfold clamp.
  destruct (v <? 0) eqn:E1; [apply Z.ltb_lt in E1; lia|].
  destruct (hi <? v) eqn:E2; [reflexivity|]. apply Z.ltb_ge in E2. lia.
Qed.

(** [addFrame'] on a static bitmap: the frame list holds the old texture and
    the new frame, the new frame where [position] asks for it. *)
Lemma addFrame_static vram pool self source position newframe pool' :
  disposed self = false ->
  megaSurface (p self) = None ->
  enabled (animation (p self)) = false ->
  frames (animation (p self)) = [] ->
  disposed source = false ->
  width_of source = width_of self -> height_of source = height_of self ->
  (surface (p source) = None -> exists t, getGLTypes (p source) = Ok t) ->
  texPool_request pool (width_of source) (height_of source)
  = Ok (newframe, pool') ->
  exists vram1 self1 img,
    addFrame' vram pool self source position
    = Ok (if position <? 0 then 2 else position, vram1, pool', self1) /\
    vram1 = <[tex newframe := img]> vram /\
    disposed self1 = false /\ selfHires self1 = selfHires self /\
    megaSurface (p self1) = None /\
    enabled (animation (p self1)) = true /\
    frames (animation (p self1))
    = (if position =? 0 then [newframe; gl (p self)]
       else [gl (p self); newframe]).
Proof.
  intros Hd Hmega Hen Hfr Hsd Hw Hh Hsrc Hreq.
  unfold addFrame.
  unfold guardDisposed, GUARD_MEGA, hasHires, guardDisposed, guard_not.
  rewrite Hd, Hsd, Hmega. simpl mbind.
  rewrite (height_live source Hsd), (height_live self Hd),
          (width_live source Hsd), (width_live self Hd). simpl mbind.
  rewrite Hw, Hh, !Z.eqb_refl. simpl orb. cbv iota.
  rewrite <- Hw, <- Hh, Hreq. simpl mbind.
  rewrite Hen. simpl negb. cbv iota. rewrite Hfr.
  destruct (surface (p source)) as [surf|] eqn:Esurf.
  - simpl mbind.
    destruct (position <? 0) eqn:Epos.
    + apply Z.ltb_lt in Epos.
      replace (position =? 0) with false by (symmetry; apply Z.eqb_neq; lia).
      do 3 eexists. split; [reflexivity|].
      repeat split; try reflexivity; destruct self; simpl in *; congruence.
    + apply Z.ltb_ge in Epos.
      destruct (position =? 0) eqn:Ez.
      * apply Z.eqb_eq in Ez. subst position.
        do 3 eexists. split; [reflexivity|].
        repeat split; try reflexivity; destruct self; simpl in *; congruence.
      * apply Z.eqb_neq in Ez.
        do 3 eexists. split; [reflexivity|].
        repeat split; try reflexivity; try (destruct self; simpl in *; congruence).
        simpl. unfold Anim.size. simpl.
        rewrite clamp_high by lia. reflexivity.
  - destruct (Hsrc eq_refl) as [t Ht]. rewrite Ht. simpl mbind.
    rewrite rect_live by (destruct self; simpl in *; congruence).
    simpl mbind.
    destruct (position <? 0) eqn:Epos.
    + apply Z.ltb_lt in Epos.
      replace (position =? 0) with false by (symmetry; apply Z.eqb_neq; lia).
      do 3 eexists. split; [reflexivity|].
      repeat split; try reflexivity; destruct self; simpl in *; congruence.
    + apply Z.ltb_ge in Epos.
      destruct (position =? 0) eqn:Ez.
      * apply Z.eqb_eq in Ez. subst position.
        do 3 eexists. split; [reflexivity|].
        repeat split; try reflexivity; destruct self; simpl in *; congruence.
      * apply Z.eqb_neq in Ez.
        do 3 eexists. split; [reflexivity|].
        repeat split; try reflexivity; try (destruct self; simpl in *; congruence).
        simpl. unfold Anim.size. simpl.
        rewrite clamp_high by lia. reflexivity.
Qed.


(** [removeFrame'] on two frames, taking out the one at index [k]: the
    bitmap is static again on the texture of the frame that stays. *)
Lemma removeFrame_two pool self position k keep gone :
  live self ->
  megaSurface (p self) = None ->
  enabled (animation (p self)) = true ->
  (position <? 0) = false ->
  clamp position 0 1 = Z.of_nat k ->
  frames (animation (p self)) !! k = Some gone ->
  delete k (frames (animation (p self))) = [keep] ->
  length (frames (animation (p self))) = 2%nat ->
  exists self',
    removeFrame' pool self position = Ok (texPool_release pool gone, self') /\
    enabled (animation (p self')) = false /\
    megaSurface (p self') = None /\
    gl (p self') = keep.
Proof.
  intros Hlive Hmega Hen Hpos Hclamp Hlook Hdel Hlen.
  pose proof (live_disposed _ Hlive) as Hd.
  unfold removeFrame.
  unfold guardDisposed, GUARD_UNANIMATED, guard_not.
  rewrite Hd, Hen. simpl mbind. rewrite Hpos.
  unfold Anim.size. cbn [frames animation]. rewrite Hlen.
  change (Z.of_nat 2 - 1) with 1.
  rewrite Hclamp.
  replace (Z.of_nat k <? 0) with false by (symmetry; apply Z.ltb_ge; lia).
  rewrite Nat2Z.id, Hlook, Hdel.
  rewrite rect_live by (destruct self; simpl in *; congruence).
  simpl mbind.
  match goal with |- context [taintArea ?b ?r] =>
    destruct (taintArea_live b r) as (self' & Et & Hgl & Han & Hms)
  end.
  { apply live_set_p. exact Hlive. }
  rewrite Et. simpl mbind.
  exists self'. split; [reflexivity|].
  rewrite Han, Hms, Hgl. simpl. repeat split. exact Hmega.
Qed.

(** C7.  Let a static bitmap (not mega, not animated, no frames) and a
    source of the same dimensions be given, neither disposed, and let the
    texture pool hand out a texture other than the one of the bitmap.  Then
    [addFrame'] returns and makes the bitmap an animation, with the old
    texture as frame 0 unless the new frame was asked for at position 0;
    [removeFrame'] at the value [addFrame'] returned releases the new frame
    and returns, and the bitmap is static again, on its old texture, whose
    pixels are those from before the promotion. *)
Theorem addFrame_removeFrame_restores
    vram pool self source position newframe pool' :
  live self ->
  megaSurface (p self) = None ->
  enabled (animation (p self)) = false ->
  frames (animation (p self)) = [] ->
  disposed source = false ->
  width_of source = width_of self -> height_of source = height_of self ->
  (surface (p source) = None -> exists t, getGLTypes (p source) = Ok t) ->
  texPool_request pool (width_of source) (height_of source)
  = Ok (newframe, pool') ->
  tex newframe <> tex (gl (p self)) ->
  exists ret vram1 self1 self2,
    addFrame' vram pool self source position = Ok (ret, vram1, pool', self1) /\
    enabled (animation (p self1)) = true /\
    (position <> 0 ->
     frames (animation (p self1)) !! 0%nat = Some (gl (p self))) /\
    removeFrame' pool' self1 ret
    = Ok (texPool_release pool' newframe, self2) /\
    enabled (animation (p self2)) = false /\
    megaSurface (p self2) = None /\
    gl (p self2) = gl (p self) /\
    tex_image vram1 (gl (p self2)) = tex_image vram (gl (p self)).
Proof.
  intros Hlive Hmega Hen Hfr Hsd Hw Hh Hsrc Hreq Hfresh.
  pose proof (live_disposed _ Hlive) as Hd.
  destruct (addFrame_static vram pool self source position newframe pool'
              Hd Hmega Hen Hfr Hsd Hw Hh Hsrc Hreq)
    as (vram1 & self1 & img & Hadd & Hv & Hd1 & Hh1 & Hm1 & He1 & Hfr1).
  assert (Hlive1 : live self1).
  { destruct self1 as [d1 p1 h1], self as [d0 p0 h0]; simpl in *.
    subst. destruct Hlive as [_ Hl]. split; [reflexivity|exact Hl]. }
  assert (Hrem : exists self2,
    removeFrame' pool' self1 (if position <? 0 then 2 else position)
    = Ok (texPool_release pool' newframe, self2) /\
    enabled (animation (p self2)) = false /\
    megaSurface (p self2) = None /\
    gl (p self2) = gl (p self)).
  { destruct (position <? 0) eqn:Epos.
    - apply Z.ltb_lt in Epos.
      replace (position =? 0) with false in Hfr1
        by (symmetry; apply Z.eqb_neq; lia).
      apply (removeFrame_two pool' self1 2 1%nat); auto;
        rewrite Hfr1; reflexivity.
    - destruct (position =? 0) eqn:Ez.
      + apply Z.eqb_eq in Ez. subst position.
        apply (removeFrame_two pool' self1 0 0%nat); auto;
          rewrite Hfr1; reflexivity.
      + apply Z.eqb_neq in Ez. pose proof Epos as Epos'.
        apply Z.ltb_ge in Epos'.
        apply (removeFrame_two pool' self1 position 1%nat); auto;
          try (rewrite Hfr1; reflexivity).
        apply clamp_high; lia. }
  destruct Hrem as (self2 & Hrem & He2 & Hm2 & Hgl2).
  exists (if position <? 0 then 2 else position), vram1, self1, self2.
  split; [exact Hadd|]. split; [exact He1|]. split.
  { intros Hne. rewrite Hfr1.
    replace (position =? 0) with false by (symmetry; apply Z.eqb_neq; lia).
    reflexivity. }
  split; [exact Hrem|]. split; [exact He2|]. split; [exact Hm2|].
  split; [exact Hgl2|].
  rewrite Hgl2, Hv. unfold tex_image.
  rewrite lookup_insert_ne by exact Hfresh. reflexivity.
Qed.

End FrameFacts.

(** ** The child viewport *)
Module ChildFacts.

Lemma wrapRange_range v m : 0 < m -> 0 <= wrapRange v 0 m < m.
Proof.
  intros Hm. unfold wrapRange. rewrite !Z.sub_0_r, Z.add_0_l.
  apply Z.mod_pos_bound. lia.
Qed.

Lemma Vec2i_eqb_eq a b : Vec2i_eqb a b = true <-> a = b.
Proof.
  unfold Vec2i_eqb. rewrite andb_true_iff, !Z.eqb_eq.
  destruct a, b; simpl. split; [intros [-> ->]; reflexivity|].
  intros E; injection E; auto.
Qed.

(** A position the loop body computes with the update flag set, on an axis
    that does not wrap, is within the pan range. *)
Lemma panAxis_range_nowrap adj minO maxO maxO2 selfLen srcLen overflow cur :
  0 <= panAxis true false adj minO maxO maxO2 selfLen srcLen overflow cur
    <= Z.max (srcLen - selfLen) 0.
Proof.
  unfold panAxis. simpl. apply AnimFacts.clamp_range. lia.
Qed.

(** When the loop leaves the update flag set, the stored position is the
    new position, and the loop body computed it with the flag set. *)
Lemma panLoop_stored step upd parentPos newParentPos u pp np :
  panLoop 2 step upd parentPos newParentPos = (u, pp, np) ->
  u = true ->
  pp = np /\ exists cur, np = step true cur.
Proof.
  simpl. intros H Hu. destruct upd.
  - (* needed from the start: stored in the first pass *)
    assert (E : Vec2i_eqb (step true newParentPos) (step true newParentPos) = true)
      by (apply Vec2i_eqb_eq; reflexivity).
    rewrite E in H. simpl in H. injection H as _ <- <-. eauto.
  - destruct (Vec2i_eqb (step false newParentPos) parentPos) eqn:E1;
      simpl in H.
    + injection H as <- _ _. discriminate.
    + assert (E : Vec2i_eqb (step true (step false newParentPos))
                            (step true (step false newParentPos)) = true)
        by (apply Vec2i_eqb_eq; reflexivity).
      rewrite E in H. simpl in H. injection H as _ <- <-. eauto.
Qed.

Lemma panLoop_not_stored step upd parentPos newParentPos u pp np :
  panLoop 2 step upd parentPos newParentPos = (u, pp, np) ->
  u = false -> pp = parentPos.
Proof.
  simpl. intros H Hu. destruct upd.
  - assert (E : Vec2i_eqb (step true newParentPos) (step true newParentPos) = true)
      by (apply Vec2i_eqb_eq; reflexivity).
    rewrite E in H. simpl in H. injection H as <- _ _. discriminate.
  - destruct (Vec2i_eqb (step false newParentPos) parentPos) eqn:E1;
      simpl in H.
    + injection H as _ <- _. reflexivity.
    + assert (E : Vec2i_eqb (step true (step false newParentPos))
                            (step true (step false newParentPos)) = true)
        by (apply Vec2i_eqb_eq; reflexivity).
      rewrite E in H. simpl in H. injection H as <- _ _. discriminate.
Qed.

(** The loop body with the update flag set computes the centred position
    on both axes, whatever the position was. *)
Lemma panAxis_update wrap adj minO maxO maxO2 selfLen srcLen overflow cur :
  panAxis true wrap adj minO maxO maxO2 selfLen srcLen overflow cur
  = let pos := if srcLen <=? selfLen then 0 else adj - Z.quot overflow 2 in
    if wrap then pos else clamp pos 0 (Z.max (srcLen - selfLen) 0).
Proof. unfold panAxis. destruct wrap; reflexivity. Qed.

(** C1, as the code has it.  For a source rectangle of positive extent:
    a call that does not assign [pChild->parentPos] leaves it as it was; a
    call that assigns it without wrap mode stores, on each axis where the
    child is smaller than the source, a position within
    [0, sourceExtent - childSize]; a call that assigns it in wrap mode
    stores the centred position before wrapping (0 on an axis where the
    child is at least as large as the source, otherwise the offset wrapped
    into [0, sourceExtent) minus half of what the child has beyond the
    visible rectangle), and renders the child from that position, mirrored
    for a mirrored sprite, wrapped into the source; and in wrap mode the
    position the child is rendered from, [newParentPos] after the wrapping
    step, lies within [0, sourceExtent) on both axes. *)
Theorem childUpdate_pan_range (v : ChildView) (parentPos : Vec2i) :
  0 < rect_w (cv_adjustedSrcRect v) -> 0 < rect_h (cv_adjustedSrcRect v) ->
  let r := childUpdate_pan v parentPos in
  let srcW := rect_w (cv_adjustedSrcRect v) in
  let srcH := rect_h (cv_adjustedSrcRect v) in
  let overflowX := Z.max (cv_selfWidth v - rect_w (cv_visibleRect v)) 0 in
  let overflowY := Z.max (cv_selfHeight v - rect_h (cv_visibleRect v)) 0 in
  let centredX :=
    if srcW <=? cv_selfWidth v then 0
    else wrapRange (- rect_x (cv_visibleRect v) + cv_realOX v) 0 srcW
         - Z.quot overflowX 2 in
  let centredY :=
    if srcH <=? cv_selfHeight v then 0
    else wrapRange (- rect_y (cv_visibleRect v) + cv_realOY v) 0 srcH
         - Z.quot overflowY 2 in
  (pan_stored r = false -> pan_parentPos r = parentPos) /\
  (pan_stored r = true -> cv_wrap v = false ->
   (cv_selfWidth v < srcW ->
    0 <= vec_x (pan_parentPos r) <= srcW - cv_selfWidth v) /\
   (cv_selfHeight v < srcH ->
    0 <= vec_y (pan_parentPos r) <= srcH - cv_selfHeight v)) /\
  (pan_stored r = true -> cv_wrap v = true ->
   pan_parentPos r = mkVec2i centredX centredY /\
   pan_newParentPos r
   = mkVec2i
       (wrapRange (if cv_mirror v
                   then Z.max (srcW - cv_selfWidth v) 0 - centredX
                   else centredX) 0 srcW)
       (wrapRange centredY 0 srcH)) /\
  (pan_updateNeeded r = true -> cv_wrap v = true ->
   0 <= vec_x (pan_newParentPos r) < srcW /\
   0 <= vec_y (pan_newParentPos r) < srcH).
Proof.
  intros HW HH. unfold childUpdate_pan. cbv zeta.
  destruct (panLoop 2 _ _ _ _) as [[u pp] np] eqn:Hloop.
  cbn [pan_stored pan_parentPos pan_newParentPos pan_updateNeeded].
  split; [|split; [|split]].
  - intros Hu. eapply panLoop_not_stored; eassumption.
  - intros Hu Hwrap.
    destruct (panLoop_stored _ _ _ _ _ _ _ Hloop Hu) as (-> & cur & ->).
    rewrite Hwrap. cbn [vec_x vec_y].
    split; intros Hlt.
    + match goal with |- context [panAxis true false ?a ?b ?c ?d ?e ?f ?g ?h] =>
        pose proof (panAxis_range_nowrap a b c d e f g h) end. lia.
    + match goal with |- context [panAxis true false ?a ?b ?c ?d ?e ?f ?g ?h] =>
        pose proof (panAxis_range_nowrap a b c d e f g h) end. lia.
  - intros Hu Hwrap.
    destruct (panLoop_stored _ _ _ _ _ _ _ Hloop Hu) as (-> & cur & ->).
    rewrite Hu, Hwrap, !panAxis_update. simpl orb. simpl andb. cbv iota zeta.
    split; [reflexivity|].
    destruct (cv_mirror v); reflexivity.
  - intros Hupd Hwrap. rewrite Hupd, Hwrap. simpl andb. cbv iota.
    cbn [vec_x vec_y]. split; apply wrapRange_range; assumption.
Qed.

End ChildFacts.

Module MoreExamples.

(** The colour (255, -5, 127.5, 300) written at (1, 0): the bytes 255, 0,
    127 and 255 go to the texture, and the cached pixel becomes
    255 + 0 * 2^8 + 127 * 2^16 + 255 * 2^24. *)
Lemma setPixel_patches_cache_witness :
  exists vram' self' surf',
    setPixel sample_upload sample_vram
      (texture_bitmap 1 2 2 (Some (mkSurface 2 2 [0; 0; 0; 0]))) 1 0
      (mkColor 255 (-5) (255 # 2) 300)
    = Ok (vram', self') /\
    vram' = <[1%nat := sample_upload [0; 0; 0; 0] (mkIntRect 1 0 1 1)
                         [255; 0; 127; 255]]> sample_vram /\
    surface (p self') = Some surf' /\
    getPixelAt surf' 1 0 = 4286513407 /\
    getPixelAt surf' 0 0 = 0 /\ getPixelAt surf' 0 1 = 0 /\
    getPixelAt surf' 1 1 = 0.
Proof.
  destruct (setPixel_patches_cache sample_upload sample_vram
              (texture_bitmap 1 2 2 (Some (mkSurface 2 2 [0; 0; 0; 0]))) 1 0
              (mkColor 255 (-5) (255 # 2) 300) (mkSurface 2 2 [0; 0; 0; 0]))
    as (Hret & Hpatch);
    try reflexivity; try (unfold width_of, height_of; simpl; lia).
  destruct (Hret eq_refl) as (vram' & self' & Heq).
  destruct (Hpatch vram' self' Heq)
    as (surf' & vram0 & Hplain & Hvram & Hs & _ & _ & Hxy & Hother).
  rewrite (Hplain eq_refl) in Hvram.
  exists vram', self', surf'.
  split; [exact Heq|]. split; [exact Hvram|].
  split; [exact Hs|]. split; [exact Hxy|].
  repeat split.
  - rewrite (Hother 0 0); [reflexivity| | |discriminate];
      unfold width_of, height_of; simpl; lia.
  - rewrite (Hother 0 1); [reflexivity| | |discriminate];
      unfold width_of, height_of; simpl; lia.
  - rewrite (Hother 1 1); [reflexivity| | |discriminate];
      unfold width_of, height_of; simpl; lia.
Defined.

Lemma getPixel_out_of_bounds_witness :
  getPixel sample_vram (texture_bitmap 1 4 4 None) (-1) 0
  = Ok (mkColor 0 0 0 0, texture_bitmap 1 4 4 None).
Proof.
  apply getPixel_out_of_bounds; try reflexivity. left. lia.
Defined.

Lemma addFrame_removeFrame_restores_witness :
  let self := texture_bitmap 1 4 4 None in
  let source := texture_bitmap 2 4 4 None in
  exists ret vram1 self1 self2,
    addFrame 60 sample_blit nat sample_request sample_vram 5%nat self source (-1)
    = Ok (ret, vram1, 6%nat, self1) /\
    enabled (animation (p self1)) = true /\
    (-1 <> 0 -> frames (animation (p self1)) !! 0%nat = Some (gl (p self))) /\
    removeFrame nat sample_release 6%nat self1 ret = Ok (6%nat, self2) /\
    enabled (animation (p self2)) = false /\
    megaSurface (p self2) = None /\
    gl (p self2) = gl (p self) /\
    tex_image vram1 (gl (p self2)) = tex_image sample_vram (gl (p self)).
Proof.
  intros self source.
  apply (addFrame_removeFrame_restores 60 sample_blit nat sample_request
           sample_release sample_vram 5%nat self source (-1)
           (mkTEXFBO 5 5 4 4) 6%nat); try reflexivity.
  - split; [reflexivity|exact I].
  - intros _. eexists. reflexivity.
  - simpl. discriminate.
Defined.

Lemma childUpdate_pan_range_witness :
  pan_parentPos (childUpdate_pan sample_plane_scrolled (mkVec2i 0 0))
  = mkVec2i (-2) 47 /\
  pan_newParentPos (childUpdate_pan sample_plane_scrolled (mkVec2i 0 0))
  = mkVec2i 98 47 /\
  0 <= vec_x (pan_parentPos (childUpdate_pan sample_sprite (mkVec2i 0 0)))
    <= 90.
Proof.
  destruct (ChildFacts.childUpdate_pan_range sample_plane_scrolled
              (mkVec2i 0 0)) as (_ & _ & Hwrap & _).
  - simpl. lia.
  - simpl. lia.
  - destruct Hwrap as [Hstored Hrendered]; [reflexivity|reflexivity|].
    split; [exact Hstored|]. split; [exact Hrendered|].
    destruct (ChildFacts.childUpdate_pan_range sample_sprite (mkVec2i 0 0))
      as (_ & H & _).
    + simpl. lia.
    + simpl. lia.
    + destruct H as [Hx _]; [reflexivity|reflexivity|].
      apply Hx. simpl. lia.
Defined.

(** C1 as stated fails on a wrapping axis: the position stored in
    [pChild->parentPos] is the centred position before wrapping, here -3; it
    is the local copy used for rendering that is wrapped, to 97. *)
Lemma childUpdate_pan_wrap_stores_unwrapped :
  let r := childUpdate_pan sample_plane (mkVec2i 0 0) in
  pan_stored r = true /\
  pan_parentPos r = mkVec2i (-3) (-3) /\
  ~ (0 <= vec_x (pan_parentPos r) < 100) /\
  pan_newParentPos r = mkVec2i 97 97.
Proof.
  simpl. repeat split; try reflexivity. vm_compute. intros [H _]. apply H. reflexivity.
Qed.

(** A call that finds the offset inside the window the child covers stores
    nothing: the position of an earlier call stays, also when the source
    rectangle has shrunk under it. *)
Example childUpdate_pan_keeps_position :
  let r := childUpdate_pan sample_sprite_shrunk (mkVec2i 90 0) in
  pan_stored r = false /\
  pan_parentPos r = mkVec2i 90 0 /\
  ~ (vec_x (pan_parentPos r) <= 50 - 10).
Proof.
  simpl. repeat split; try reflexivity. vm_compute. intros H. apply H. reflexivity.
Qed.

End MoreExamples.

(** ** The animation interface *)
Module PlaybackFacts.

Import Float Anim.

Lemma wrap32_int z : int_range z -> wrap 32 (z mod 2 ^ 32) = z.
Proof.
  unfold int_range, wrap. intros Hz.
  change (2 ^ (32 - 1)) with 2147483648 in *.
  change (2 ^ 32) with 4294967296 in *.
  change (2 ^ 31) with 2147483648 in *.
  rewrite Z.add_mod_idemp_l by lia.
  rewrite Z.mod_small by lia. lia.
Qed.

Lemma wrap32_mod z : wrap 32 z mod 2 ^ 32 = z mod 2 ^ 32.
Proof.
  unfold wrap.
  change (2 ^ (32 - 1)) with 2147483648.
  change (2 ^ 32) with 4294967296.
  replace ((z + 2147483648) mod 4294967296 - 2147483648)
    with ((z + 2147483648) mod 4294967296 + (-1) * 4294967296 + 2147483648)
    by lia.
  rewrite <- Z.add_mod_idemp_l by lia.
  rewrite Z.mod_add by lia.
  rewrite Z.mod_mod by lia.
  rewrite Z.add_mod_idemp_l by lia.
  replace (z + 2147483648 + 2147483648) with (z + 1 * 4294967296) by lia.
  apply Z.mod_add. lia.
Qed.

Lemma currentFrameI_unsigned a : currentFrameI a mod 2 ^ 32 = currentFrameI a.
Proof.
  unfold currentFrameI.
  destruct (negb (playing a) || needsReset a); apply Z.mod_mod; lia.
Qed.

Lemma currentFrameI_stopped a :
  playing a = false -> currentFrameI a = lastFrame a mod 2 ^ 32.
Proof. intros H. unfold currentFrameI. rewrite H. reflexivity. Qed.

Lemma currentFrameI_reset a :
  needsReset a = true -> currentFrameI a = lastFrame a mod 2 ^ 32.
Proof.
  intros H. unfold currentFrameI. rewrite H, orb_true_r. reflexivity.
Qed.

Lemma size_nonneg a : 0 <= size a.
Proof. unfold size. lia. Qed.

Lemma Bitmap_currentFrameI_stopped b c :
  disposed b = false -> enabled (animation (p b)) = true ->
  playing (animation (p b)) = false ->
  lastFrame (animation (p b)) = c -> 0 <= c < 2 ^ 31 ->
  Bitmap_currentFrameI b = Ok c.
Proof.
  intros Hd He Hp Hl Hc. unfold Bitmap_currentFrameI, guardDisposed.
  rewrite Hd, He. simpl. rewrite currentFrameI_stopped by exact Hp.
  rewrite Hl. f_equal. apply wrap32_int. unfold int_range. lia.
Qed.

(** [Bitmap::stop] on an animation that shows frame [c]: the animation is
    stopped with [lastFrame = c]. *)
Lemma Bitmap_stop_showing b c n :
  showing b c n ->
  exists b', Bitmap_stop b = Ok b' /\
    disposed b' = false /\ selfHires b' = selfHires b /\
    enabled (animation (p b')) = true /\
    playing (animation (p b')) = false /\
    lastFrame (animation (p b')) = c /\
    loop (animation (p b')) = loop (animation (p b)) /\
    frames (animation (p b')) = frames (animation (p b)).
Proof.
  intros (Hd & He & Hn & Hlt & Hint & Hc & Hr).
  unfold Bitmap_stop, guardDisposed, GUARD_UNANIMATED, hasHires, guardDisposed.
  rewrite Hd, He. simpl.
  unfold Bitmap_currentFrameI, guardDisposed in Hc.
  rewrite Hd, He in Hc. simpl in Hc. injection Hc as Hc.
  destruct (playing (animation (p b))) eqn:Hp; simpl.
  - eexists; split; [reflexivity|]. simpl. rewrite Hc. repeat split; auto.
  - eexists; split; [reflexivity|]. repeat split; auto.
    rewrite currentFrameI_stopped in Hc by exact Hp.
    rewrite wrap32_int in Hc by exact Hint. exact Hc.
Qed.

Lemma showing_stopped b c n :
  disposed b = false -> enabled (animation (p b)) = true ->
  playing (animation (p b)) = false ->
  size (animation (p b)) = n -> n < 2 ^ 31 ->
  lastFrame (animation (p b)) = c -> 0 <= c < n ->
  showing b c n.
Proof.
  intros Hd He Hp Hn Hlt Hl Hc. unfold showing, int_range.
  repeat split; auto; try lia.
  apply Bitmap_currentFrameI_stopped; auto. lia.
Qed.

(** The bitmap [b1] that [Bitmap::stop] leaves, with [lastFrame] set to
    [v], shows frame [v]. *)
Lemma showing_set_lastFrame b1 v n :
  disposed b1 = false -> enabled (animation (p b1)) = true ->
  playing (animation (p b1)) = false ->
  size (animation (p b1)) = n -> n < 2 ^ 31 -> 0 <= v < n ->
  showing (with_animation b1 (set_lastFrame (animation (p b1)) v)) v n.
Proof.
  intros Hd He Hp Hn Hlt Hv.
  apply showing_stopped; simpl; auto.
Qed.

Lemma nextFrame_showing b c n :
  showing b c n ->
  exists b', nextFrame b = Ok b' /\
    playing (animation (p b')) = false /\
    loop (animation (p b')) = loop (animation (p b)) /\
    frames (animation (p b')) = frames (animation (p b)) /\
    showing b' (if c <? n - 1 then c + 1
                else if loop (animation (p b)) then 0 else c) n.
Proof.
  intros Hs. pose proof Hs as (Hd & He & Hn & Hlt & Hint & Hc & Hr).
  destruct (Bitmap_stop_showing b c n Hs)
    as (b1 & Hstop & Hd1 & Hh1 & He1 & Hp1 & Hl1 & Hloop1 & Hf1).
  unfold nextFrame, guardDisposed, GUARD_UNANIMATED, hasHires, guardDisposed.
  rewrite Hd, He. simpl. rewrite Hstop. simpl.
  assert (Hsz : size (animation (p b1)) = n)
    by (unfold size; rewrite Hf1; exact Hn).
  rewrite Hsz, Hl1.
  unfold size_t. rewrite (Z.mod_small c (2 ^ 32)) by lia.
  rewrite (Z.mod_small c) by lia.
  rewrite (Z.mod_small (n - 1)) by lia.
  destruct (n - 1 <=? c) eqn:E.
  - apply Z.leb_le in E.
    assert ((c <? n - 1) = false) as -> by (apply Z.ltb_ge; lia).
    rewrite Hloop1.
    destruct (loop (animation (p b))) eqn:El; simpl.
    + eexists; split; [reflexivity|].
      split; [exact Hp1|]. split; [exact Hloop1|]. split; [exact Hf1|].
      apply showing_set_lastFrame; auto. lia.
    + eexists; split; [reflexivity|].
      split; [exact Hp1|]. split; [congruence|]. split; [exact Hf1|].
      apply showing_stopped; auto.
  - apply Z.leb_gt in E.
    assert ((c <? n - 1) = true) as -> by (apply Z.ltb_lt; lia).
    eexists; split; [reflexivity|].
    split; [exact Hp1|]. split; [exact Hloop1|]. split; [exact Hf1|].
    apply showing_set_lastFrame; auto. lia.
Qed.

Lemma previousFrame_showing b c n :
  showing b c n ->
  exists b', previousFrame b = Ok b' /\
    playing (animation (p b')) = false /\
    loop (animation (p b')) = loop (animation (p b)) /\
    frames (animation (p b')) = frames (animation (p b)) /\
    showing b' (if 0 <? c then c - 1
                else if loop (animation (p b)) then n - 1 else 0) n.
Proof.
  intros Hs. pose proof Hs as (Hd & He & Hn & Hlt & Hint & Hc & Hr).
  destruct (Bitmap_stop_showing b c n Hs)
    as (b1 & Hstop & Hd1 & Hh1 & He1 & Hp1 & Hl1 & Hloop1 & Hf1).
  unfold previousFrame, guardDisposed, GUARD_UNANIMATED, hasHires,
    guardDisposed.
  rewrite Hd, He. simpl. rewrite Hstop. simpl.
  assert (Hsz : size (animation (p b1)) = n)
    by (unfold size; rewrite Hf1; exact Hn).
  rewrite Hsz, Hl1, Hloop1.
  destruct (c <=? 0) eqn:E.
  - apply Z.leb_le in E.
    assert ((0 <? c) = false) as -> by (apply Z.ltb_ge; lia).
    destruct (loop (animation (p b))) eqn:El; simpl;
      (eexists; split; [reflexivity|]);
      (split; [exact Hp1|]); (split; [exact Hloop1|]);
      (split; [exact Hf1|]);
      apply showing_set_lastFrame; auto; lia.
  - apply Z.leb_gt in E.
    assert ((0 <? c) = true) as -> by (apply Z.ltb_lt; lia).
    eexists; split; [reflexivity|].
    split; [exact Hp1|]. split; [exact Hloop1|]. split; [exact Hf1|].
    apply showing_set_lastFrame; auto. lia.
Qed.

(** X1.  An animation of [n] frames that shows frame [c]: [nextFrame] stops it
    and shows frame [c + 1], or at the last frame the first one when
    looping and the last one still when not; [previousFrame] stops it and
    shows frame [c - 1], or at the first frame the last one when looping
    and the first one still when not.  The frame list is not touched. *)
Theorem nextFrame_previousFrame_step b c n :
  showing b c n ->
  (exists b', nextFrame b = Ok b' /\
     playing (animation (p b')) = false /\
     frames (animation (p b')) = frames (animation (p b)) /\
     Bitmap_currentFrameI b' =
       Ok (if c <? n - 1 then c + 1
           else if loop (animation (p b)) then 0 else c)) /\
  (exists b', previousFrame b = Ok b' /\
     playing (animation (p b')) = false /\
     frames (animation (p b')) = frames (animation (p b)) /\
     Bitmap_currentFrameI b' =
       Ok (if 0 <? c then c - 1
           else if loop (animation (p b)) then n - 1 else 0)).
Proof.
  intros Hs. split.
  - destruct (nextFrame_showing b c n Hs) as (b' & H & Hp & _ & Hf & Hs').
    exists b'. repeat split; auto. apply Hs'.
  - destruct (previousFrame_showing b c n Hs) as (b' & H & Hp & _ & Hf & Hs').
    exists b'. repeat split; auto. apply Hs'.
Qed.

(** X2.  A looping animation: [nextFrame] followed by [previousFrame], and
    [previousFrame] followed by [nextFrame], show the frame shown
    before. *)
Theorem nextFrame_previousFrame_loop b c n :
  showing b c n -> loop (animation (p b)) = true ->
  (exists b1 b2, nextFrame b = Ok b1 /\ previousFrame b1 = Ok b2 /\
     Bitmap_currentFrameI b2 = Ok c) /\
  (exists b1 b2, previousFrame b = Ok b1 /\ nextFrame b1 = Ok b2 /\
     Bitmap_currentFrameI b2 = Ok c).
Proof.
  intros Hs Hloop. pose proof Hs as (_ & _ & _ & _ & _ & _ & Hr). split.
  - destruct (nextFrame_showing b c n Hs) as (b1 & H1 & _ & Hl1 & _ & Hs1).
    destruct (previousFrame_showing b1 _ n Hs1) as (b2 & H2 & _ & _ & _ & Hs2).
    exists b1, b2. repeat split; auto.
    destruct Hs2 as (_ & _ & _ & _ & _ & Hc2 & _). rewrite Hc2. f_equal.
    rewrite Hl1, Hloop.
    destruct (c <? n - 1) eqn:E.
    + apply Z.ltb_lt in E.
      assert ((0 <? c + 1) = true) as -> by (apply Z.ltb_lt; lia). lia.
    + apply Z.ltb_ge in E. simpl. lia.
  - destruct (previousFrame_showing b c n Hs) as (b1 & H1 & _ & Hl1 & _ & Hs1).
    destruct (nextFrame_showing b1 _ n Hs1) as (b2 & H2 & _ & _ & _ & Hs2).
    exists b1, b2. repeat split; auto.
    destruct Hs2 as (_ & _ & _ & _ & _ & Hc2 & _). rewrite Hc2. f_equal.
    rewrite Hl1, Hloop.
    destruct (0 <? c) eqn:E.
    + apply Z.ltb_lt in E.
      assert ((c - 1 <? n - 1) = true) as -> by (apply Z.ltb_lt; lia). lia.
    + apply Z.ltb_ge in E.
      assert ((n - 1 <? n - 1) = false) as -> by (apply Z.ltb_ge; lia).
      lia.
Qed.

(** X3.  [setAnimationFPS] on a bitmap that is neither disposed nor mega
    returns; it stores [FPS], and 0 in place of a negative [FPS], keeps
    the frame list and whether the animation plays, and the frame shown
    after the call is the frame shown before it. *)
Theorem setAnimationFPS_keeps_frame b FPS :
  disposed b = false -> megaSurface (p b) = None ->
  exists b', setAnimationFPS b FPS = Ok b' /\
    getAnimationFPS b' = Ok (if Qltb FPS 0 then 0%Q else FPS) /\
    (0 <= fps (animation (p b')))%Q /\
    playing (animation (p b')) = playing (animation (p b)) /\
    frames (animation (p b')) = frames (animation (p b)) /\
    Bitmap_currentFrameI b' = Bitmap_currentFrameI b.
Proof.
  intros Hd Hm.
  unfold setAnimationFPS, getAnimationFPS, guardDisposed, GUARD_MEGA,
    hasHires, guardDisposed.
  rewrite Hd, Hm. simpl.
  eexists. split; [reflexivity|]. simpl. rewrite Hd, Hm. simpl.
  split.
  { destruct (playing (animation (p b))); reflexivity. }
  split.
  { assert (0 <= (if Qltb FPS 0 then 0 else FPS))%Q.
    { unfold Qltb. destruct (Qle_bool 0 FPS) eqn:E; simpl.
      - apply Qle_bool_iff. exact E.
      - apply Qle_refl. }
    destruct (playing (animation (p b))); exact H. }
  split.
  { destruct (playing (animation (p b))); reflexivity. }
  split.
  { destruct (playing (animation (p b))); reflexivity. }
  unfold Bitmap_currentFrameI, guardDisposed. simpl. rewrite Hd. simpl.
  assert (He : enabled
            (if playing (animation (p b))
             then play (set_fps (stop (animation (p b)))
                          (if Qltb FPS 0 then 0%Q else FPS))
             else set_fps (stop (animation (p b)))
                          (if Qltb FPS 0 then 0%Q else FPS))
          = enabled (animation (p b)))
    by (destruct (playing (animation (p b))); reflexivity).
  rewrite He.
  destruct (enabled (animation (p b))); [|reflexivity]. simpl.
  f_equal.
  f_equal.
  destruct (playing (animation (p b))) eqn:Hp.
  - rewrite currentFrameI_reset by reflexivity. simpl.
    rewrite wrap32_mod. apply currentFrameI_unsigned.
  - rewrite (currentFrameI_stopped (set_fps _ _)) by reflexivity. simpl.
    rewrite wrap32_mod. apply currentFrameI_unsigned.
Qed.

Lemma fl64_int z : (Z.abs z <= 2 ^ 53)%Z -> fl64 (inject_Z z) = inject_Z z.
Proof. intros H. apply FloatFacts.round_int; [lia|exact H]. Qed.

(** With no time played the raw index is [lastFrame]. *)
Lemma rawFrame_at_reset a :
  playTime a = 0%Q -> 0 <= lastFrame a < 2 ^ 31 ->
  rawFrame a = lastFrame a.
Proof.
  intros Ht Hl. unfold rawFrame. rewrite Ht.
  assert (E1 : fl64 (0 / fl32 (1 / fps a)) = 0%Q).
  { unfold fl64.
    rewrite (FloatFacts.round_comp 53 _ (inject_Z 0)).
    - apply FloatFacts.round_int; simpl; lia.
    - unfold Qdiv. simpl inject_Z. apply Qmult_0_l. }
  rewrite E1.
  assert (E2 : fl64 (inject_Z (lastFrame a) + 0) = inject_Z (lastFrame a)).
  { unfold fl64.
    rewrite (FloatFacts.round_comp 53 _ (inject_Z (lastFrame a))).
    - apply FloatFacts.round_int; [lia|].
      assert (2 ^ 31 < 2 ^ 53) by (apply Z.pow_lt_mono_r; lia). lia.
    - apply Qplus_0_r. }
  rewrite E2. apply Qfloor_Z.
Qed.

(** A playing animation after the timer reset, before time is counted,
    shows frame [lastFrame]. *)
Lemma currentFrameI_at_reset a :
  playTime a = 0%Q -> 0 <= lastFrame a < size a -> size a < 2 ^ 31 ->
  currentFrameI a = lastFrame a.
Proof.
  intros Ht Hl Hn. unfold currentFrameI.
  destruct (negb (playing a) || needsReset a).
  - apply Z.mod_small. lia.
  - assert (Hraw : currentFrameIRaw a = lastFrame a).
    { unfold currentFrameIRaw.
      destruct (Qle_bool (fps a) 0).
      - apply Z.mod_small. lia.
      - rewrite rawFrame_at_reset by (auto; lia). apply Z.mod_small. lia. }
    rewrite Hraw. rewrite PixmanFacts.wrap_id by lia.
    destruct (loop a).
    + rewrite Z.rem_small by lia. apply Z.mod_small. lia.
    + assert ((size a - 1 <? lastFrame a) = false) as ->
        by (apply Z.ltb_ge; lia).
      apply Z.mod_small. lia.
Qed.

(** X4.  For a frame index [f] inside the frame list of an animation:
    [gotoAndStop(f)] leaves the animation stopped on frame [f];
    [gotoAndPlay(f)] leaves it playing and showing frame [f], and it shows
    frame [f] still after the timer reset of the next [prepare], whatever
    the clock, the frame rate and the loop flag are. *)
Theorem gotoAndPlay_shows_frame b f frame_f runTime :
  disposed b = false -> enabled (animation (p b)) = true ->
  size (animation (p b)) < 2 ^ 31 ->
  0 <= f -> frames (animation (p b)) !! Z.to_nat f = Some frame_f ->
  (exists b', gotoAndStop b f = Ok b' /\
     playing (animation (p b')) = false /\
     Bitmap_currentFrameI b' = Ok f /\
     getGLTypes (p b') = Ok frame_f) /\
  (exists b', gotoAndPlay b f = Ok b' /\
     playing (animation (p b')) = true /\
     Bitmap_currentFrameI b' = Ok f /\
     getGLTypes (p b') = Ok frame_f /\
     let d := prepare runTime (p b') in
     playing (animation d) = true /\
     playTime (animation d) = 0%Q /\
     Bitmap_currentFrameI (set_p b' d) = Ok f /\
     getGLTypes d = Ok frame_f).
Proof.
  intros Hd He Hn Hf Hlook.
  assert (Hlt : f < size (animation (p b))).
  { apply lookup_lt_Some in Hlook. unfold size. lia. }
  assert (Hclamp : clamp f 0 (size (stop (animation (p b)))) = f).
  { unfold clamp.
    assert ((f <? 0) = false) as -> by (apply Z.ltb_ge; lia).
    assert ((size (stop (animation (p b))) <? f) = false) as ->
      by (apply Z.ltb_ge; unfold size in *; simpl; lia).
    reflexivity. }
  assert (Hfm : f mod 2 ^ 32 = f) by (apply Z.mod_small; lia).
  assert (Hw : wrap 32 f = f) by (apply PixmanFacts.wrap_id; lia).
  split.
  - unfold gotoAndStop, guardDisposed, GUARD_UNANIMATED.
    rewrite Hd, He. simpl.
    eexists. split; [reflexivity|]. simpl.
    split; [reflexivity|].
    unfold Bitmap_currentFrameI, getGLTypes, guardDisposed. simpl.
    rewrite Hd, He. simpl.
    unfold currentFrame.
    rewrite currentFrameI_stopped by reflexivity. simpl.
    rewrite Hclamp, Hfm, Hw.
    assert ((f <? 0) = false) as -> by (apply Z.ltb_ge; lia).
    rewrite Hlook. split; reflexivity.
  - unfold gotoAndPlay, guardDisposed, GUARD_UNANIMATED.
    rewrite Hd, He. simpl.
    eexists. split; [reflexivity|]. simpl.
    split; [reflexivity|].
    unfold Bitmap_currentFrameI, getGLTypes, guardDisposed. simpl.
    rewrite Hd, He. simpl.
    unfold currentFrame.
    rewrite currentFrameI_reset by reflexivity. simpl.
    rewrite Hclamp, Hfm, Hw.
    assert ((f <? 0) = false) as -> by (apply Z.ltb_ge; lia).
    rewrite Hlook. split; [reflexivity|]. split; [reflexivity|].
    unfold prepare. simpl. rewrite He. simpl.
    unfold updateTimer. simpl.
    split; [reflexivity|]. split; [reflexivity|].
    rewrite He. simpl.
    match goal with |- context [currentFrameI ?a'] =>
      assert (Hshown : currentFrameI a' = f)
    end.
    { rewrite currentFrameI_at_reset; simpl.
      - rewrite currentFrameI_reset by reflexivity. simpl.
        rewrite Hclamp, Hfm. exact Hw.
      - reflexivity.
      - rewrite currentFrameI_reset by reflexivity. simpl.
        rewrite Hclamp, Hfm, Hw. unfold size in *. simpl. lia.
      - unfold size in *. simpl. lia. }
    rewrite Hshown, Hw.
    assert ((f <? 0) = false) as -> by (apply Z.ltb_ge; lia).
    rewrite Hlook. split; reflexivity.
Qed.

(** X5.  A playing animation that does not loop, after its timer reset:
    [isPlaying] is true exactly as long as the raw frame index lies inside
    the frame list; from then on it is false, and the frame shown is the
    last one. *)
Theorem isPlaying_until_last_frame b :
  let a := animation (p b) in
  disposed b = false -> enabled a = true ->
  playing a = true -> needsReset a = false -> loop a = false ->
  0 < size a < 2 ^ 31 -> currentFrameIRaw a < 2 ^ 31 ->
  isPlaying b = Ok (currentFrameIRaw a <? size a) /\
  Bitmap_currentFrameI b =
    Ok (if currentFrameIRaw a <? size a then currentFrameIRaw a
        else size a - 1).
Proof.
  intros a Hd He Hp Hr Hl Hn Hraw.
  unfold isPlaying, hasHires, guardDisposed.
  rewrite Hd. simpl. fold a. rewrite Hp, Hl. simpl.
  unfold size_t. rewrite (Z.mod_small (size a)) by lia.
  split; [reflexivity|].
  unfold Bitmap_currentFrameI, guardDisposed. rewrite Hd. simpl.
  fold a. rewrite He. simpl. f_equal.
  unfold currentFrameI. rewrite Hp, Hr, Hl. simpl.
  assert (0 <= currentFrameIRaw a).
  { unfold currentFrameIRaw.
    destruct (Qle_bool (fps a) 0); apply Z.mod_pos_bound; lia. }
  rewrite (PixmanFacts.wrap_id 32 (currentFrameIRaw a)) by lia.
  destruct (size a - 1 <? currentFrameIRaw a) eqn:E.
  - apply Z.ltb_lt in E.
    assert ((currentFrameIRaw a <? size a) = false) as ->
      by (apply Z.ltb_ge; lia).
    rewrite Z.mod_small by lia. apply PixmanFacts.wrap_id; lia.
  - apply Z.ltb_ge in E.
    assert ((currentFrameIRaw a <? size a) = true) as ->
      by (apply Z.ltb_lt; lia).
    rewrite Z.mod_small by lia.
    apply PixmanFacts.wrap_id; lia.
Qed.

End PlaybackFacts.

Module PlaybackExamples.

Import PlaybackFacts.

Lemma showing_three_frames : showing (animated_bitmap three_frames) 0 3.
Proof.
  unfold showing, int_range. simpl.
  repeat split; try reflexivity; lia.
Defined.

Lemma nextFrame_previousFrame_step_witness :
  (exists b', nextFrame (animated_bitmap three_frames) = Ok b' /\
     playing (animation (p b')) = false /\
     frames (animation (p b')) = [frame 1; frame 2; frame 3] /\
     Bitmap_currentFrameI b' = Ok 1) /\
  (exists b', previousFrame (animated_bitmap three_frames) = Ok b' /\
     playing (animation (p b')) = false /\
     frames (animation (p b')) = [frame 1; frame 2; frame 3] /\
     Bitmap_currentFrameI b' = Ok 2).
Proof.
  exact (nextFrame_previousFrame_step (animated_bitmap three_frames) 0 3
           showing_three_frames).
Defined.

Lemma nextFrame_previousFrame_loop_witness :
  (exists b1 b2, nextFrame (animated_bitmap three_frames) = Ok b1 /\
     previousFrame b1 = Ok b2 /\ Bitmap_currentFrameI b2 = Ok 0) /\
  (exists b1 b2, previousFrame (animated_bitmap three_frames) = Ok b1 /\
     nextFrame b1 = Ok b2 /\ Bitmap_currentFrameI b2 = Ok 0).
Proof.
  exact (nextFrame_previousFrame_loop (animated_bitmap three_frames) 0 3
           showing_three_frames eq_refl).
Defined.

Lemma setAnimationFPS_keeps_frame_witness :
  exists b', setAnimationFPS (animated_bitmap three_frames_playing) (-5) = Ok b' /\
    getAnimationFPS b' = Ok 0%Q /\
    (0 <= fps (animation (p b')))%Q /\
    playing (animation (p b')) = true /\
    frames (animation (p b')) = [frame 1; frame 2; frame 3] /\
    Bitmap_currentFrameI b' =
      Bitmap_currentFrameI (animated_bitmap three_frames_playing).
Proof.
  exact (setAnimationFPS_keeps_frame (animated_bitmap three_frames_playing)
           (-5) eq_refl eq_refl).
Defined.

Lemma gotoAndPlay_shows_frame_witness :
  (exists b', gotoAndStop (animated_bitmap three_frames) 2 = Ok b' /\
     playing (animation (p b')) = false /\
     Bitmap_currentFrameI b' = Ok 2 /\
     getGLTypes (p b') = Ok (frame 3)) /\
  (exists b', gotoAndPlay (animated_bitmap three_frames) 2 = Ok b' /\
     playing (animation (p b')) = true /\
     Bitmap_currentFrameI b' = Ok 2 /\
     getGLTypes (p b') = Ok (frame 3) /\
     let d := prepare (7 # 2) (p b') in
     playing (animation d) = true /\
     playTime (animation d) = 0%Q /\
     Bitmap_currentFrameI (set_p b' d) = Ok 2 /\
     getGLTypes d = Ok (frame 3)).
Proof.
  apply (gotoAndPlay_shows_frame (animated_bitmap three_frames) 2 (frame 3)
           (7 # 2)).
  - reflexivity.
  - reflexivity.
  - vm_compute. reflexivity.
  - discriminate.
  - reflexivity.
Defined.

Lemma isPlaying_until_last_frame_witness :
  isPlaying (animated_bitmap (five_frames false 10%Q)) = Ok false /\
  Bitmap_currentFrameI (animated_bitmap (five_frames false 10%Q)) = Ok 4.
Proof.
  apply (isPlaying_until_last_frame
           (animated_bitmap (five_frames false 10%Q)));
    try reflexivity.
  - vm_compute. split; reflexivity.
Defined.

End PlaybackExamples.

(** ** Frames of an animation *)
Section AnimatedFrameFacts.

Variable frameRate : Q.
Variable GLMeta_blit : Image -> IntRect -> Image -> IntRect -> Image.
Variable TexPool : Type.
Variable texPool_request : TexPool -> Z -> Z -> result (TEXFBO * TexPool).
Variable texPool_release : TexPool -> TEXFBO -> TexPool.

Local Abbreviation addFrame' :=
  (addFrame frameRate GLMeta_blit TexPool texPool_request).
Local Abbreviation removeFrame' := (removeFrame TexPool texPool_release).

(** The index at which [addFrame] puts the new frame, and at which
    [removeFrame], called with the value [addFrame] returned, takes a
    frame out: [n] is the number of frames before the call. *)
Lemma insertFrame_lookup k x (l : list TEXFBO) :
  0 <= k <= Z.of_nat (length l) ->
  insertFrame k x l !! Z.to_nat k = Some x /\
  delete (Z.to_nat k) (insertFrame k x l) = l /\
  length (insertFrame k x l) = S (length l).
Proof.
  intros Hk. unfold insertFrame.
  assert (Hlen : length (take (Z.to_nat k) l) = Z.to_nat k)
    by (rewrite length_take; lia).
  repeat split.
  - rewrite <- Hlen at 1. apply list_lookup_middle. reflexivity.
  - rewrite <- Hlen at 1. rewrite delete_middle. apply take_drop.
  - rewrite length_app. simpl. rewrite length_take, length_drop. lia.
Qed.

Lemma set_frames_id a : set_frames a (frames a) = a.
Proof. destruct a; reflexivity. Qed.

Lemma set_frames_twice a l1 l2 :
  set_frames (set_frames a l1) l2 = set_frames a l2.
Proof. reflexivity. Qed.

(** [addFrame] on an animation: the new frame joins the frame list, the
    rest of the animation stays. *)
Lemma addFrame_animated vram pool self source position newframe pool' :
  disposed self = false ->
  megaSurface (p self) = None ->
  enabled (animation (p self)) = true ->
  disposed source = false ->
  width_of source = width_of self -> height_of source = height_of self ->
  (surface (p source) = None -> exists t, getGLTypes (p source) = Ok t) ->
  texPool_request pool (width_of source) (height_of source)
  = Ok (newframe, pool') ->
  let a := animation (p self) in
  let n := Anim.size a in
  exists vram1 d1,
    addFrame' vram pool self source position
    = Ok (if position <? 0 then n + 1 else position, vram1, pool',
          set_p self (set_animation d1
            (set_frames a
               (if position <? 0 then frames a ++ [newframe]
                else insertFrame (clamp position 0 n) newframe (frames a))))) /\
    d1 = (if has (surface (p source)) then set_surface (p self) None
          else p self).
Proof.
  intros Hd Hmega Hen Hsd Hw Hh Hsrc Hreq a n.
  unfold addFrame.
  unfold guardDisposed, GUARD_MEGA, hasHires, guardDisposed, guard_not.
  rewrite Hd, Hsd, Hmega. simpl mbind.
  rewrite (height_live source Hsd), (height_live self Hd),
          (width_live source Hsd), (width_live self Hd). simpl mbind.
  rewrite Hw, Hh, !Z.eqb_refl. simpl orb. cbv iota.
  rewrite <- Hw, <- Hh, Hreq. simpl mbind.
  rewrite Hen. simpl negb. cbv iota.
  assert (Hself : set_p self (p self) = self) by (destruct self; reflexivity).
  rewrite Hself.
  destruct (surface (p source)) as [surf|] eqn:Esurf.
  - simpl mbind. simpl has.
    fold a. destruct (position <? 0) eqn:Epos.
    + do 2 eexists. split; [|reflexivity].
      unfold set_frames, n, Anim.size. simpl.
      rewrite length_app. simpl.
      replace (Z.of_nat (length (frames a) + 1))
        with (Z.of_nat (length (frames a)) + 1) by lia.
      reflexivity.
    + do 2 eexists. split; [|reflexivity]. reflexivity.
  - destruct (Hsrc eq_refl) as [t Ht]. rewrite Ht. simpl mbind.
    rewrite rect_live by exact Hd. simpl mbind. simpl has.
    fold a. destruct (position <? 0) eqn:Epos.
    + do 2 eexists. split; [|reflexivity].
      unfold set_frames, n, Anim.size. simpl.
      rewrite length_app. simpl.
      replace (Z.of_nat (length (frames a) + 1))
        with (Z.of_nat (length (frames a)) + 1) by lia.
      reflexivity.
    + do 2 eexists. split; [|reflexivity]. reflexivity.
Qed.

(** The index [removeFrame] works on. *)
Lemma removeFrame_index position n :
  0 < n ->
  0 <= (if position <? 0 then n - 1 else clamp position 0 (n - 1)) < n.
Proof.
  intros Hn. destruct (position <? 0); [lia|].
  pose proof (AnimFacts.clamp_range position 0 (n - 1)). lia.
Qed.

(** [removeFrame] on an animation that keeps two frames or more. *)
Lemma removeFrame_animated pool self position k gone :
  disposed self = false ->
  enabled (animation (p self)) = true ->
  let a := animation (p self) in
  (if position <? 0 then Anim.size a - 1
   else clamp position 0 (Anim.size a - 1)) = Z.of_nat k ->
  frames a !! k = Some gone ->
  (2 <= length (delete k (frames a)))%nat ->
  removeFrame' pool self position
  = Ok (texPool_release pool gone,
        with_animation self (set_frames a (delete k (frames a)))).
Proof.
  intros Hd Hen a Hpos Hlook Hlen.
  unfold removeFrame, guardDisposed, GUARD_UNANIMATED, guard_not.
  rewrite Hd, Hen. simpl mbind. fold a. rewrite Hpos.
  assert ((Z.of_nat k <? 0) = false) as -> by (apply Z.ltb_ge; lia).
  rewrite Nat2Z.id, Hlook.
  destruct (delete k (frames a)) as [|f1 [|f2 fs]] eqn:E;
    simpl in Hlen; try lia.
  unfold with_animation, set_frames. unfold a in *. rewrite Hen.
  reflexivity.
Qed.

(** X6.  On an animation of two frames or more, [addFrame] followed by
    [removeFrame] at the value [addFrame] returned gives back the
    animation: the same frames in the same order, the same position and
    timing, with the new texture released to the pool; on the way the
    number of frames is one more.  Only the cached surface of the bitmap
    is gone when the source had one. *)
Theorem addFrame_removeFrame_animated
    vram pool self source position newframe pool' :
  disposed self = false ->
  megaSurface (p self) = None ->
  enabled (animation (p self)) = true ->
  (2 <= length (frames (animation (p self))))%nat ->
  disposed source = false ->
  width_of source = width_of self -> height_of source = height_of self ->
  (surface (p source) = None -> exists t, getGLTypes (p source) = Ok t) ->
  texPool_request pool (width_of source) (height_of source)
  = Ok (newframe, pool') ->
  exists ret vram1 self1 self2,
    addFrame' vram pool self source position = Ok (ret, vram1, pool', self1) /\
    numFrames self1 = Ok (Anim.size (animation (p self)) + 1) /\
    removeFrame' pool' self1 ret
    = Ok (texPool_release pool' newframe, self2) /\
    numFrames self2 = Ok (Anim.size (animation (p self))) /\
    self2 = set_p self (if has (surface (p source))
                        then set_surface (p self) None else p self).
Proof.
  intros Hd Hmega Hen Hlen Hsd Hw Hhh Hsrc Hreq.
  destruct (addFrame_animated vram pool self source position newframe pool'
              Hd Hmega Hen Hsd Hw Hhh Hsrc Hreq) as (vram1 & d1 & Hadd & Hd1).
  set (a := animation (p self)) in *.
  set (n := Anim.size a) in *.
  assert (Hn : n = Z.of_nat (length (frames a))) by reflexivity.
  set (k := if position <? 0 then n else clamp position 0 n).
  assert (Hk : 0 <= k <= n).
  { unfold k. destruct (position <? 0); [lia|].
    apply AnimFacts.clamp_range. lia. }
  set (fs1 := if position <? 0 then frames a ++ [newframe]
              else insertFrame (clamp position 0 n) newframe (frames a)) in *.
  assert (Hfs1 : fs1 !! Z.to_nat k = Some newframe /\
                 delete (Z.to_nat k) fs1 = frames a /\
                 length fs1 = S (length (frames a))).
  { unfold fs1, k. destruct (position <? 0) eqn:Epos.
    - rewrite Hn, Nat2Z.id. repeat split.
      + apply list_lookup_middle. reflexivity.
      + rewrite delete_middle. apply app_nil_r.
      + rewrite length_app. simpl. lia.
    - apply insertFrame_lookup.
      rewrite <- Hn. apply AnimFacts.clamp_range. lia. }
  destruct Hfs1 as (Hlook & Hdel & Hlen1).
  set (self1 := set_p self (set_animation d1 (set_frames a fs1))) in *.
  assert (Ed1 : enabled (animation (p self1)) = true).
  { unfold self1. simpl. exact Hen. }
  assert (Hdisp1 : disposed self1 = false) by exact Hd.
  exists (if position <? 0 then n + 1 else position), vram1, self1,
         (with_animation self1 (set_frames (animation (p self1)) (frames a))).
  split; [exact Hadd|]. split.
  { unfold numFrames, hasHires, guardDisposed. rewrite Hdisp1. simpl.
    rewrite Hen. simpl. f_equal. unfold Anim.size. simpl.
    rewrite Hlen1. unfold n, Anim.size. lia. }
  split.
  { rewrite <- Hdel.
    apply (removeFrame_animated pool' self1 _ (Z.to_nat k) newframe); auto.
    - unfold self1. simpl. unfold Anim.size. simpl. rewrite Hlen1.
      replace (Z.of_nat (S (length (frames a))) - 1) with n by lia.
      unfold k. rewrite Z2Nat.id by (fold k; lia).
      destruct (position <? 0) eqn:Epos.
      + assert ((n + 1 <? 0) = false) as -> by (apply Z.ltb_ge; lia).
        apply clamp_high; lia.
      + rewrite Epos. reflexivity.
    - unfold self1. simpl. rewrite Hdel. exact Hlen. }
  split.
  { unfold numFrames, hasHires, guardDisposed. simpl. rewrite Hd. simpl.
    rewrite Hen. simpl. reflexivity. }
  unfold with_animation, self1. simpl.
  rewrite Hd1. unfold set_p, set_animation, set_frames. simpl.
  destruct self as [dd pp hh]. simpl in *.
  destruct pp as [aa g ms sf t1 t2 u]. simpl in *.
  unfold a. simpl. destruct aa. simpl.
  destruct (has (surface (p source))); reflexivity.
Qed.

Lemma taintArea_disposed self r self' :
  taintArea self r = Ok self' -> disposed self' = disposed self.
Proof.
  destruct self as [dd pp [hh|]]; cbn [taintArea selfHires];
    unfold guardDisposed, guard_not; cbn [disposed]; destruct dd;
    simpl mbind; try discriminate.
  - destruct (width hh); simpl mbind; try discriminate.
    destruct (width _); simpl mbind; try discriminate.
    destruct (height hh); simpl mbind; try discriminate.
    destruct (height _); simpl mbind; try discriminate.
    destruct (taintArea hh _); simpl mbind; try discriminate.
    intros H. injection H as <-. reflexivity.
  - intros H. injection H as <-. reflexivity.
Qed.

Local Arguments taintArea : simpl never.

(** X7.  [removeFrame] on an animation of two frames or more, whatever the
    position asked for: the call returns, one frame of the list goes back
    to the pool, the textures the bitmap holds afterwards are the other
    frames in their order, and [numFrames] is one less.  The bitmap stays
    an animation exactly when more than one frame is left. *)
Theorem removeFrame_numFrames pool self position :
  live self ->
  enabled (animation (p self)) = true ->
  (2 <= length (frames (animation (p self))))%nat ->
  let a := animation (p self) in
  let n := Anim.size a in
  let pos := Z.to_nat (if position <? 0 then n - 1
                       else clamp position 0 (n - 1)) in
  exists gone self1,
    frames a !! pos = Some gone /\
    removeFrame' pool self position = Ok (texPool_release pool gone, self1) /\
    textures (p self1) = delete pos (frames a) /\
    numFrames self1 = Ok (n - 1) /\
    isAnimated self1 = Ok (2 <? n).
Proof.
  intros Hlive Hen Hlen a n pos.
  pose proof (live_disposed _ Hlive) as Hd.
  assert (Hn : n = Z.of_nat (length (frames a))) by reflexivity.
  assert (Hlen' : (2 <= length (frames a))%nat) by exact Hlen.
  assert (Hn0 : 0 < n) by lia.
  pose proof (removeFrame_index position n Hn0) as Hidx.
  assert (Hpos : (pos < length (frames a))%nat) by (unfold pos; lia).
  destruct (lookup_lt_is_Some_2 _ _ Hpos) as [gone Hgone].
  assert (Hdl : length (delete pos (frames a)) = (length (frames a) - 1)%nat).
  { rewrite length_delete by (exists gone; exact Hgone). reflexivity. }
  destruct (delete pos (frames a)) as [|f1 [|f2 fs]] eqn:Edel.
  - simpl in Hdl. lia.
  - (* one frame left: the bitmap is static again *)
    simpl in Hdl.
    assert (Hn2 : n = 2) by lia.
    unfold removeFrame, guardDisposed, GUARD_UNANIMATED, guard_not.
    rewrite Hd, Hen. simpl mbind. fold a. fold n.
    assert (((if position <? 0 then n - 1 else clamp position 0 (n - 1)) <? 0)
            = false) as -> by (apply Z.ltb_ge; lia).
    fold pos. rewrite Hgone, Edel.
    rewrite rect_live by exact Hd. simpl mbind.
    match goal with |- context [taintArea ?b ?r] =>
      destruct (taintArea_live b r) as (self' & Et & Hgl & Han & Hms)
    end.
    { apply live_set_p. exact Hlive. }
    rewrite Et. simpl mbind.
    exists gone, self'. split; [reflexivity|]. split; [reflexivity|].
    assert (Hd' : disposed self' = false)
      by (rewrite (taintArea_disposed _ _ _ Et); exact Hd).
    split.
    { unfold textures. rewrite Han, Hgl. reflexivity. }
    split.
    { unfold numFrames, hasHires, guardDisposed. rewrite Hd'. simpl.
      rewrite Han. simpl. f_equal. lia. }
    unfold isAnimated, guardDisposed. rewrite Hd'. simpl. rewrite Han.
    simpl. f_equal. symmetry. apply Z.ltb_ge. lia.
  - (* two frames or more left *)
    simpl in Hdl.
    assert (Hen' : enabled a = true) by exact Hen.
    exists gone, (with_animation self (set_frames a (delete pos (frames a)))).
    split; [exact Hgone|]. split.
    { apply removeFrame_animated; auto.
      - fold a. fold n. unfold pos. rewrite Z2Nat.id by lia. reflexivity.
      - fold a. rewrite Edel. simpl. lia. }
    split.
    { unfold textures. simpl. rewrite Hen'. exact Edel. }
    split.
    { unfold numFrames, hasHires, guardDisposed. simpl. rewrite Hd. simpl.
      rewrite Hen'. simpl. f_equal. unfold Anim.size. simpl.
      rewrite Edel. simpl. lia. }
    unfold isAnimated, guardDisposed. simpl. rewrite Hd. simpl.
    rewrite Hen'. f_equal. symmetry. apply Z.ltb_lt. lia.
Qed.

End AnimatedFrameFacts.

Module FrameExamples.

Lemma addFrame_removeFrame_animated_witness :
  let self := animated_bitmap three_frames in
  let source := texture_bitmap 2 32 32 None in
  exists ret vram1 self1 self2,
    addFrame 60 sample_blit nat sample_request sample_vram 9%nat self source 1
    = Ok (ret, vram1, 10%nat, self1) /\
    numFrames self1 = Ok (3 + 1) /\
    removeFrame nat sample_release 10%nat self1 ret = Ok (10%nat, self2) /\
    numFrames self2 = Ok 3 /\
    self2 = set_p self (p self).
Proof.
  intros self source.
  apply (addFrame_removeFrame_animated 60 sample_blit nat sample_request
           sample_release sample_vram 9%nat self source 1
           (mkTEXFBO 9 9 32 32) 10%nat); try reflexivity.
  - simpl. lia.
  - intros _. eexists. reflexivity.
Defined.

Lemma removeFrame_numFrames_witness :
  exists gone self1,
    [frame 1; frame 2; frame 3] !! 2%nat = Some gone /\
    removeFrame nat sample_release 4%nat (animated_bitmap three_frames) 7
    = Ok (4%nat, self1) /\
    textures (p self1) = [frame 1; frame 2] /\
    numFrames self1 = Ok 2 /\
    isAnimated self1 = Ok true.
Proof.
  apply (removeFrame_numFrames nat sample_release 4%nat
           (animated_bitmap three_frames) 7).
  - split; [reflexivity|exact I].
  - reflexivity.
  - simpl. lia.
Defined.

End FrameExamples.

(** ** Text helpers *)
Module TextFacts.

(** A property checked on every integer of a range holds on the range. *)
Lemma zrange_forallb (P : Z -> bool) lo hi :
  forallb P (zrange lo hi) = true ->
  forall z, lo <= z < hi -> P z = true.
Proof.
  intros H z Hz. rewrite forallb_forall in H. apply H.
  unfold zrange. apply in_map_iff.
  exists (Z.to_nat (z - lo)). split; [lia|].
  apply in_seq. lia.
Qed.

(** A string of [unsigned char] values without an inner NUL. *)
Lemma char_at_head c s : char_at (c :: s) 0 = Ok c.
Proof. reflexivity. Qed.

Lemma char_at_tail c s i : char_at (c :: s) (S i) = char_at s i.
Proof.
  unfold char_at. simpl.
  destruct (s !! i); [reflexivity|].
  destruct (Nat.eqb_spec i (length s)); reflexivity.
Qed.

Lemma char_at_end : char_at [] 0 = Ok 0.
Proof. reflexivity. Qed.

(** X8.  On every NUL-terminated string [utf8_to_ucs2] reads inside the
    string, the terminator included.  It returns a 16-bit value and moves
    the cursor forward by at most three bytes, never beyond the
    terminator; when it does not move the cursor the value is 0xFFFF. *)
Theorem utf8_to_ucs2_stays_inside (input : list Z) :
  Forall (fun c => 0 < c < 256) input ->
  exists v e,
    utf8_to_ucs2 input = Ok (v, e) /\
    0 <= v < 2 ^ 16 /\
    (e <= 3)%nat /\ (e <= length input)%nat /\
    (e = 0%nat -> v = 65535).
Proof.
  intros Hall. unfold utf8_to_ucs2.
  assert (Hm : 0 <= (-1) mod 2 ^ 16 < 2 ^ 16) by (apply Z.mod_pos_bound; lia).
  assert (Hfail : forall n : nat,
    exists v e, Ok ((-1) mod 2 ^ 16, 0%nat) = Ok (v, e) /\
      0 <= v < 2 ^ 16 /\ (e <= 3)%nat /\ (e <= n)%nat /\
      (e = 0%nat -> v = 65535)).
  { intros n. do 2 eexists. split; [reflexivity|].
    repeat split; try lia; try apply Hm. }
  assert (Hok : forall v (e n : nat), (0 < e <= 3)%nat -> (e <= n)%nat ->
    exists v' e', Ok (v mod 2 ^ 16, e) = Ok (v', e') /\
      0 <= v' < 2 ^ 16 /\ (e' <= 3)%nat /\ (e' <= n)%nat /\
      (e' = 0%nat -> v' = 65535)).
  { intros v e n He Hn. do 2 eexists. split; [reflexivity|].
    repeat split; try lia; apply Z.mod_pos_bound; lia. }
  destruct input as [|c0 [|c1 [|c2 s]]];
    repeat match goal with
           | H : Forall _ (_ :: _) |- _ => inversion H; clear H; subst
           end;
    repeat (rewrite ?char_at_tail, ?char_at_head, ?char_at_end; simpl mbind);
    repeat match goal with
           | H : 0 < ?c < 256 |- context [?c =? 0] =>
               replace (c =? 0) with false by (symmetry; apply Z.eqb_neq; lia)
           end;
    change (0 =? 0) with true; cbv iota;
    repeat match goal with
           | |- context [if ?b then _ else _] => destruct b
           end;
    try apply Hfail; apply Hok; simpl; lia.
Qed.

Lemma decodes2_range c : 128 <= c < 2048 -> decodes2 c = true.
Proof. apply zrange_forallb. vm_compute. reflexivity. Qed.

Lemma decodes3_range c : 2048 <= c < 65536 -> decodes3 c = true.
Proof.
  intros Hc.
  assert (Hhi : 32 <= c / 64 < 1024) by (Z.div_mod_to_equations; lia).
  assert (Hlo : 0 <= c mod 64 < 64) by (Z.div_mod_to_equations; lia).
  assert (Hc' : c = 64 * (c / 64) + c mod 64) by (apply Z.div_mod; lia).
  rewrite Hc'. clear Hc' Hc. revert Hhi Hlo.
  generalize (c / 64) (c mod 64). clear c. intros hi lo Hhi Hlo.
  assert (H : forallb (fun hi =>
                forallb (fun lo => decodes3 (64 * hi + lo)) (zrange 0 64))
              (zrange 32 1024) = true) by (vm_compute; reflexivity).
  pose proof (zrange_forallb _ _ _ H hi Hhi) as H1. cbv beta in H1.
  exact (zrange_forallb _ _ _ H1 lo Hlo).
Qed.

(** X9.  [utf8_to_ucs2] decodes UTF-8: on a string that starts with the
    encoding of a code point from 1 to 0xFFFF it returns the code point
    and moves the cursor behind the encoding. *)
Theorem utf8_to_ucs2_decodes c (rest : list Z) :
  0 < c < 65536 ->
  utf8_to_ucs2 (utf8_encode c ++ rest) = Ok (c, length (utf8_encode c)).
Proof.
  intros Hc. unfold utf8_encode.
  destruct (c <? 128) eqn:E1.
  - apply Z.ltb_lt in E1. unfold utf8_to_ucs2. simpl.
    assert ((c =? 0) = false) as -> by (apply Z.eqb_neq; lia).
    assert ((c <? 128) = true) as -> by (apply Z.ltb_lt; lia).
    rewrite Z.mod_small by lia. reflexivity.
  - apply Z.ltb_ge in E1. destruct (c <? 2048) eqn:E2.
    + apply Z.ltb_lt in E2.
      pose proof (decodes2_range c ltac:(lia)) as H. unfold decodes2 in H.
      cbv zeta in H. rewrite !andb_true_iff, !negb_true_iff in H.
      destruct H as (((((H1 & H2) & H3) & H4) & H5) & H6).
      apply Z.eqb_eq in H6.
      unfold utf8_to_ucs2. simpl app. rewrite char_at_head. simpl mbind.
      rewrite H1, H2, H3, H4.
      rewrite ?char_at_tail, ?char_at_head. simpl mbind.
      rewrite H5, H6. reflexivity.
    + apply Z.ltb_ge in E2.
      pose proof (decodes3_range c ltac:(lia)) as H. unfold decodes3 in H.
      cbv zeta in H. rewrite !andb_true_iff, !negb_true_iff in H.
      destruct H as (((((H1 & H2) & H3) & H4) & H5) & H6).
      apply Z.eqb_eq in H6.
      unfold utf8_to_ucs2. simpl app. rewrite char_at_head. simpl mbind.
      rewrite H1, H2, H3.
      rewrite ?char_at_tail, ?char_at_head. simpl mbind. rewrite H4.
      rewrite ?char_at_tail, ?char_at_head. simpl mbind.
      rewrite H5, H6. reflexivity.
Qed.

(** X10.  [fixupString] keeps the length of the string and every character
    other than CR and LF, puts a space where a CR or LF was, and leaves
    its own result as it is. *)
Theorem fixupString_spaces (str : list Z) :
  length (fixupString str) = length str /\
  (forall i c, str !! i = Some c ->
     fixupString str !! i
     = Some (if (c =? 13) || (c =? 10) then 32 else c)) /\
  Forall (fun c => c <> 13 /\ c <> 10) (fixupString str) /\
  fixupString (fixupString str) = fixupString str.
Proof.
  unfold fixupString. repeat split.
  - apply length_map.
  - intros i c H.
    change (List.map ?f str) with (f <$> str).
    rewrite list_lookup_fmap, H. reflexivity.
  - apply Forall_forall. intros c Hin.
    apply list_elem_of_In, in_map_iff in Hin. destruct Hin as (c' & <- & _).
    destruct (c' =? 13) eqn:E1; simpl; [lia|].
    destruct (c' =? 10) eqn:E2; simpl; [lia|].
    apply Z.eqb_neq in E1, E2. lia.
  - rewrite map_map. apply map_ext. intros c.
    destruct (c =? 13) eqn:E1; simpl; [reflexivity|].
    destruct (c =? 10) eqn:E2; simpl; [reflexivity|].
    rewrite E1, E2. reflexivity.
Qed.

Lemma utf8_to_ucs2_stays_inside_witness :
  exists v e,
    utf8_to_ucs2 [226; 130] = Ok (v, e) /\
    0 <= v < 2 ^ 16 /\
    (e <= 3)%nat /\ (e <= 2)%nat /\
    (e = 0%nat -> v = 65535).
Proof.
  apply (utf8_to_ucs2_stays_inside [226; 130]).
  repeat constructor.
Defined.

Lemma utf8_to_ucs2_decodes_witness :
  utf8_to_ucs2 ([226; 130; 172] ++ [33]) = Ok (8364, 3%nat).
Proof.
  apply (utf8_to_ucs2_decodes 8364 [33]). lia.
Defined.

End TextFacts.

(** ** Clipping of rectangles that need none *)
Module ClipFacts.

Import Float FloatFacts ShrinkFacts.

(** A span inside the bitmap on the clipped side, with a positive span on
    the other side: [shrinkRects] (float) changes nothing. *)
Lemma shrinkRectsF_inside sp sl sB dp dl dB normalize :
  0 <= sp -> 0 < sl -> sp + sl <= sB -> sB <= 2 ^ 24 ->
  0 < dl <= 2 ^ 24 -> Z.abs dp <= 2 ^ 24 -> Z.abs (dp + dl) <= 2 ^ 24 ->
  shrinkRectsF (inject_Z sp) (inject_Z sl) sB
               (inject_Z dp) (inject_Z dl) dB normalize
  = (false, (inject_Z sp, inject_Z sl, inject_Z dp, inject_Z dl)).
Proof.
  intros Hsp Hsl Hin HsB Hdl Hdp Hde.
  unfold shrinkRectsF. cbv zeta.
  rewrite float_of_int_small by lia.
  rewrite !Qltb_0_int.
  assert ((0 <? sl) = true) as -> by (apply Z.ltb_lt; lia).
  assert ((0 <? dl) = true) as -> by (apply Z.ltb_lt; lia).
  cbv iota.
  rewrite (fl_add sl sp) by lia.
  rewrite Qleb_0_int, Qltb_int.
  assert ((0 <=? sp) = true) as -> by (apply Z.leb_le; lia).
  destruct (sl + sp <? sB) eqn:E; [reflexivity|].
  apply Z.ltb_ge in E. simpl andb. cbv iota.
  rewrite Qleb_int, Qltb_int_0.
  assert ((sB <=? sp) = false) as -> by (apply Z.leb_gt; lia).
  assert ((sl + sp <? 0) = false) as -> by (apply Z.ltb_ge; lia).
  simpl orb. cbv iota.
  rewrite (fl_add dl dp) by (replace (dl + dp) with (dp + dl) by lia; lia).
  rewrite (fl_sub (sl + sp) sp) by lia.
  rewrite (fl_sub (dl + dp) dp) by lia.
  rewrite (fl_sub (sl + sp) sB) by lia.
  rewrite Qltb_0_int, Qltb_int_0.
  assert ((0 <? sl + sp - sB) = false) as -> by (apply Z.ltb_ge; lia).
  assert ((sp <? 0) = false) as -> by (apply Z.ltb_ge; lia).
  cbv iota beta.
  replace (sl + sp - sp) with sl by lia.
  replace (dl + dp - dp) with dl by lia.
  destruct normalize; reflexivity.
Qed.

(** Two rectangles of positive extent, each inside its bitmap, with
    coordinates that single precision holds: [shrinkRects] reports
    something to blit and leaves positions and lengths as they are. *)
Lemma shrinkRects_inside sp sl sB dp dl dB :
  0 <= sp -> 0 < sl -> sp + sl <= sB -> sB <= 2 ^ 24 ->
  0 <= dp -> 0 < dl -> dp + dl <= dB -> dB <= 2 ^ 24 ->
  shrinkRects sp sl sB dp dl dB = (false, (sp, sl, dp, dl)).
Proof.
  intros Hsp Hsl Hs HsB Hdp Hdl Hd HdB. unfold shrinkRects.
  rewrite !float_of_int_small by lia.
  rewrite shrinkRectsF_inside by lia.
  cbv iota beta. simpl negb. cbv iota.
  rewrite shrinkRectsF_inside by lia.
  cbv iota beta. rewrite !c_round_int.
  assert ((sl =? 0) = false) as -> by (apply Z.eqb_neq; lia).
  assert ((dl =? 0) = false) as -> by (apply Z.eqb_neq; lia).
  reflexivity.
Qed.

(** A rectangle of positive extent inside a bitmap of the given size. *)
Lemma inside_unfold r w h :
  inside r w h ->
  0 <= rect_x r /\ 0 < rect_w r /\ rect_x r + rect_w r <= w /\
  0 <= rect_y r /\ 0 < rect_h r /\ rect_y r + rect_h r <= h.
Proof. unfold inside. tauto. Qed.

(** X11.  Blits that need no clipping are not clipped: when the source
    rectangle lies inside the source bitmap and the destination rectangle
    inside the destination bitmap, both of positive extent, on bitmaps of
    at most 2^24 pixels a side, the two clipping steps of [stretchBlt]
    leave both rectangles as they are, whatever the scaling between
    them. *)
Theorem clipRects_inside self source destRect sourceRect :
  inside sourceRect (width_of source) (height_of source) ->
  inside destRect (width_of self) (height_of self) ->
  width_of source <= 2 ^ 24 -> height_of source <= 2 ^ 24 ->
  width_of self <= 2 ^ 24 -> height_of self <= 2 ^ 24 ->
  shrinkRects (rect_x sourceRect) (rect_w sourceRect) (width_of source)
              (rect_x destRect) (rect_w destRect) (width_of self)
  = (false, (rect_x sourceRect, rect_w sourceRect,
             rect_x destRect, rect_w destRect)) /\
  shrinkRects (rect_y sourceRect) (rect_h sourceRect) (height_of source)
              (rect_y destRect) (rect_h destRect) (height_of self)
  = (false, (rect_y sourceRect, rect_h sourceRect,
             rect_y destRect, rect_h destRect)) /\
  clipRects self source destRect sourceRect = Some (destRect, sourceRect).
Proof.
  intros Hs Hd Hsw Hsh Hdw Hdh.
  apply inside_unfold in Hs, Hd.
  assert (E1 := shrinkRects_inside (rect_x sourceRect) (rect_w sourceRect)
                  (width_of source) (rect_x destRect) (rect_w destRect)
                  (width_of self)).
  assert (E2 := shrinkRects_inside (rect_y sourceRect) (rect_h sourceRect)
                  (height_of source) (rect_y destRect) (rect_h destRect)
                  (height_of self)).
  rewrite E1, E2 by lia.
  split; [reflexivity|]. split; [reflexivity|].
  unfold clipRects. rewrite E1, E2 by lia.
  destruct destRect, sourceRect; reflexivity.
Qed.

Lemma clipRects_inside_witness :
  let self := texture_bitmap 1 10 10 None in
  let source := texture_bitmap 2 100 50 None in
  shrinkRects 60 40 100 2 8 10 = (false, (60, 40, 2, 8)) /\
  shrinkRects 0 50 50 0 10 10 = (false, (0, 50, 0, 10)) /\
  clipRects self source (mkIntRect 2 0 8 10) (mkIntRect 60 0 40 50)
  = Some (mkIntRect 2 0 8 10, mkIntRect 60 0 40 50).
Proof.
  intros self source.
  apply (clipRects_inside self source (mkIntRect 2 0 8 10)
           (mkIntRect 60 0 40 50));
    unfold inside; repeat split; vm_compute;
    first [reflexivity | discriminate].
Defined.

End ClipFacts.

(** ** Blitting: opacity and the tainted area *)
Section BlitMoreFacts.

Variable maxTexSize : Z.
Variable subImageFix : bool.
Variable GLMeta_blit : Image -> IntRect -> Image -> IntRect -> Image.
Variable TEX_uploadSubImage : Image -> IntRect -> Image -> Image.
Variable BltShader_draw : Image -> IntRect -> Image -> IntRect -> Z -> Image.
Variable SDL_Blit :
  forall (scaled blend : bool) (alphaMod : Z),
    SDL_Surface -> IntRect -> SDL_Surface -> IntRect -> SDL_Surface.

Local Abbreviation stretchBlt2 :=
  (stretchBlt maxTexSize subImageFix GLMeta_blit TEX_uploadSubImage
              BltShader_draw SDL_Blit).
Local Abbreviation blitClipped2 :=
  (blitClipped maxTexSize subImageFix GLMeta_blit TEX_uploadSubImage
               BltShader_draw SDL_Blit).
Local Abbreviation blitTexture2 :=
  (blitTexture maxTexSize subImageFix GLMeta_blit TEX_uploadSubImage
               BltShader_draw SDL_Blit).

Lemma clamp_idem v lo hi : lo <= hi -> clamp (clamp v lo hi) lo hi = clamp v lo hi.
Proof.
  intros H. unfold clamp.
  destruct (v <? lo) eqn:E1.
  - rewrite Z.ltb_irrefl.
    assert ((hi <? lo) = false) as -> by (apply Z.ltb_ge; lia). reflexivity.
  - destruct (hi <? v) eqn:E2.
    + assert ((hi <? lo) = false) as -> by (apply Z.ltb_ge; lia).
      rewrite Z.ltb_irrefl. reflexivity.
    + rewrite E1, E2. reflexivity.
Qed.

Lemma blitClipped_clamps vram self source destRect sourceRect opacity :
  blitClipped2 vram self source destRect sourceRect opacity
  = blitClipped2 vram self source destRect sourceRect (clamp opacity 0 255).
Proof. unfold blitClipped. rewrite clamp_idem by lia. reflexivity. Qed.

Lemma blitClipped_transparent vram self source destRect sourceRect opacity :
  opacity <= 0 ->
  blitClipped2 vram self source destRect sourceRect opacity
  = Ok (mkOutcome vram self None).
Proof.
  intros H. unfold blitClipped.
  assert (clamp opacity 0 255 = 0) as ->.
  { unfold clamp. destruct (opacity <? 0) eqn:E; [reflexivity|].
    apply Z.ltb_ge in E.
    assert ((255 <? opacity) = false) as -> by (apply Z.ltb_ge; lia). lia. }
  reflexivity.
Qed.

Lemma set_selfHires_id b h : selfHires b = Some h -> set_selfHires b (Some h) = b.
Proof. destruct b; simpl; intros ->; reflexivity. Qed.

Lemma stretchBlt_clamps_opacity vram opacity :
  forall self source destRect sourceRect,
  live self -> live source ->
  stretchBlt2 vram self source destRect sourceRect opacity
  = stretchBlt2 vram self source destRect sourceRect (clamp opacity 0 255) /\
  stretchBlt2 vram self source destRect sourceRect (Z.min opacity 0)
  = Ok (mkOutcome vram self None).
Proof.
  assert (Hsrc : forall self, disposed self = false -> selfHires self = None ->
    forall source destRect sourceRect, live source ->
    stretchBlt2 vram self source destRect sourceRect opacity
    = stretchBlt2 vram self source destRect sourceRect (clamp opacity 0 255) /\
    stretchBlt2 vram self source destRect sourceRect (Z.min opacity 0)
    = Ok (mkOutcome vram self None)).
  { intros self Hd Hh source.
    induction source as [d pp|d pp hires IH] using Bitmap_mirror_ind;
      intros destRect sourceRect Hlive.
    - destruct Hlive as [Hl _]. simpl in Hl.
      rewrite !stretchBlt_plain by auto.
      split; [apply blitClipped_clamps|apply blitClipped_transparent; lia].
    - destruct Hlive as [Hl Hlh]. simpl in Hl, Hlh.
      pose proof (live_disposed _ Hlh) as Hdh.
      rewrite !(stretchBlt_source_hires _ _ _ _ _ _ vram self _ hires)
        by auto.
      rewrite (width_live _ Hdh), (height_live _ Hdh).
      rewrite (width_live (mkBitmap d pp _) Hl),
              (height_live (mkBitmap d pp _) Hl).
      simpl mbind. apply IH. exact Hlh. }
  intros self.
  induction self as [d pp|d pp hires IH] using Bitmap_mirror_ind;
    intros source destRect sourceRect Hls Hlsrc.
  - destruct Hls as [Hd _]. simpl in Hd. apply Hsrc; auto.
  - destruct Hls as [Hd Hlh]. simpl in Hd, Hlh.
    pose proof (live_disposed _ Hlsrc) as Hsd.
    pose proof (live_disposed _ Hlh) as Hdh.
    rewrite !(stretchBlt_self_hires _ _ _ _ _ _ vram _ hires) by auto.
    rewrite (width_live _ Hdh), (height_live _ Hdh).
    rewrite (width_live (mkBitmap d pp _) Hd),
            (height_live (mkBitmap d pp _) Hd).
    simpl mbind.
    match goal with |- context [stretchBlt2 vram hires source ?r _ opacity] =>
      destruct (IH source r sourceRect Hlh Hlsrc) as [E1 E2]
    end.
    rewrite E1, E2. split; reflexivity.
Qed.

(** X12.  For bitmaps that are not disposed, nor their hi-res mirrors, and
    rectangles whose rescaling to the mirrors is defined: [stretchBlt]
    works with the opacity limited to 0..255, and at an opacity of 0 or
    below it returns the textures and the destination as they were. *)
Theorem stretchBlt_opacity vram opacity self source destRect sourceRect :
  live self -> live source ->
  scalable self destRect -> scalable source sourceRect ->
  stretchBlt2 vram self source destRect sourceRect opacity
  = stretchBlt2 vram self source destRect sourceRect (clamp opacity 0 255) /\
  stretchBlt2 vram self source destRect sourceRect (Z.min opacity 0)
  = Ok (mkOutcome vram self None).
Proof.
  intros Hls Hlsrc _ _. apply stretchBlt_clamps_opacity; assumption.
Qed.

Lemma onModified_fields d b :
  animation (onModified d b) = animation d /\
  gl (onModified d b) = gl d /\
  megaSurface (onModified d b) = megaSurface d /\
  tainted (onModified d b) = tainted d /\
  tainted32 (onModified d b) = tainted32 d /\
  pixmanUseRegion32 (onModified d b) = pixmanUseRegion32 d.
Proof.
  unfold onModified. destruct (has (surface d) && b); repeat split.
Qed.

Lemma surface_onModified d : surface (onModified d true) = None.
Proof.
  unfold onModified. destruct (surface d) eqn:E; simpl; [reflexivity|exact E].
Qed.

Lemma touches_onModified d b r :
  touchesTaintedArea (onModified d b) r = touchesTaintedArea d r.
Proof.
  destruct (onModified_fields d b) as (_ & _ & _ & H1 & H2 & H3).
  unfold touchesTaintedArea. rewrite H1, H2, H3. reflexivity.
Qed.

Lemma addTaintedArea_fields d r :
  animation (addTaintedArea d r) = animation d /\
  gl (addTaintedArea d r) = gl d /\
  megaSurface (addTaintedArea d r) = megaSurface d /\
  surface (addTaintedArea d r) = surface d.
Proof.
  unfold addTaintedArea. destruct (pixmanUseRegion32 d); repeat split.
Qed.

(** A rectangle that was added to the tainted area touches it. *)
Lemma touches_after_add d r :
  valid_rect (pixmanUseRegion32 d) r -> 0 < rect_w r -> 0 < rect_h r ->
  touchesTaintedArea (addTaintedArea d r) r = true.
Proof.
  intros Hv Hw Hh.
  pose proof (TaintedArea.box_of_valid _ r Hv Hw Hh) as Hb.
  apply TaintedArea.touches_iff. rewrite TaintedArea.use32_add, Hb.
  apply PixmanFacts.point_overlaps
    with (px := rect_x r) (py := rect_y r).
  - rewrite TaintedArea.taintedRegion_add by assumption.
    rewrite PixmanFacts.union_point. simpl.
    replace (Pixman.in_box _ _ _) with true; [apply orb_true_r|].
    symmetry. apply PixmanFacts.in_box_iff. simpl. lia.
  - apply PixmanFacts.in_box_iff. simpl. lia.
Qed.

(** The texture branch of [stretchBlt] returns, leaves the private data
    and the rectangle to the caller, and goes through the shader when the
    destination rectangle touches the tainted area. *)
Lemma blitTexture_shape vram self source destRect sourceRect opacity touches dst :
  getGLTypes (p self) = Ok dst ->
  (megaSurface (p source) = None ->
   exists src, getGLTypes (p source) = Ok src) ->
  exists vram1 path,
    blitTexture2 vram self source destRect sourceRect opacity touches
    = Ok (vram1, p self, destRect, path) /\
    (touches = true -> path = Some ShaderBlit).
Proof.
  intros Hdst Hsrc. unfold blitTexture. rewrite Hdst.
  destruct (megaSurface (p source)) as [s|] eqn:Es;
    [|destruct (Hsrc eq_refl) as [src Hs]; rewrite Hs];
    destruct touches;
    repeat first
      [ progress (simpl; rewrite ?andb_false_r, ?andb_true_r, ?orb_true_r,
                                 ?orb_false_r)
      | match goal with
        | |- context [if ?b then _ else _] => destruct b eqn:?
        end ];
    simpl; do 2 eexists; (split; [reflexivity|]);
    intros; first [reflexivity | discriminate].
Qed.

(** The clipped blit into a texture. *)
Lemma blitClipped_texture
    vram self source destRect sourceRect opacity destRect' sourceRect' dst :
  disposed self = false -> disposed source = false ->
  megaSurface (p self) = None ->
  getGLTypes (p self) = Ok dst ->
  (megaSurface (p source) = None ->
   exists src, getGLTypes (p source) = Ok src) ->
  clamp opacity 0 255 <> 0 ->
  clipRects self source destRect sourceRect = Some (destRect', sourceRect') ->
  exists vram1 path,
    blitClipped2 vram self source destRect sourceRect opacity
    = Ok (mkOutcome vram1
            (set_p self (onModified (addTaintedArea (p self) destRect') true))
            path) /\
    (touchesTaintedArea (p self) destRect' = true ->
     path = Some ShaderBlit).
Proof.
  intros Hd Hs Hmega Hdst Hsrc Ho Hclip.
  unfold blitClipped.
  destruct (clamp opacity 0 255 =? 0) eqn:E0;
    [apply Z.eqb_eq in E0; contradiction|].
  rewrite (width_live source Hs), (width_live self Hd). simpl mbind.
  unfold clipRects in Hclip.
  destruct (shrinkRects (rect_x sourceRect) _ _ _ _ _)
    as [retx [[[sx sw] dx] dw]].
  destruct retx; [discriminate|].
  rewrite (height_live source Hs), (height_live self Hd). simpl mbind.
  destruct (shrinkRects (rect_y sourceRect) _ _ _ _ _)
    as [rety [[[sy sh] dy] dh]].
  destruct rety; [discriminate|].
  injection Hclip as <- <-.
  rewrite Hmega.
  destruct (blitTexture_shape vram self source (mkIntRect dx dy dw dh)
              (mkIntRect sx sy sw sh) (clamp opacity 0 255)
              (touchesTaintedArea (p self) (mkIntRect dx dy dw dh)) dst
              Hdst Hsrc) as (vram1 & path & E & Hpath).
  rewrite E. simpl mbind.
  exists vram1, path. split; [reflexivity|exact Hpath].
Qed.

(** X13.  A blit into a texture taints what it draws on: after a [stretchBlt]
    that draws, on bitmaps without mirrors, the clipped destination
    rectangle touches the tainted area and the cached CPU surface is
    gone; the same blit once more is composed by the shader. *)
Theorem stretchBlt_taints_destination
    vram self source destRect sourceRect opacity destRect' sourceRect' dst :
  disposed self = false -> disposed source = false ->
  selfHires self = None -> selfHires source = None ->
  megaSurface (p self) = None ->
  getGLTypes (p self) = Ok dst ->
  (megaSurface (p source) = None ->
   exists src, getGLTypes (p source) = Ok src) ->
  clamp opacity 0 255 <> 0 ->
  clipRects self source destRect sourceRect = Some (destRect', sourceRect') ->
  valid_rect (pixmanUseRegion32 (p self)) destRect' ->
  0 < rect_w destRect' -> 0 < rect_h destRect' ->
  exists out out2,
    stretchBlt2 vram self source destRect sourceRect opacity = Ok out /\
    touchesTaintedArea (p (out_dest out)) destRect' = true /\
    surface (p (out_dest out)) = None /\
    stretchBlt2 (out_vram out) (out_dest out) source destRect sourceRect
                opacity = Ok out2 /\
    out_path out2 = Some ShaderBlit.
Proof.
  intros Hd Hs Hh Hsh Hmega Hdst Hsrc Ho Hclip Hv Hw Hhh.
  rewrite stretchBlt_plain by assumption.
  destruct (blitClipped_texture vram self source destRect sourceRect opacity
              destRect' sourceRect' dst Hd Hs Hmega Hdst Hsrc Ho Hclip)
    as (vram1 & path & E & _).
  set (self1 := set_p self (onModified (addTaintedArea (p self) destRect') true))
    in *.
  destruct (onModified_fields (addTaintedArea (p self) destRect') true)
    as (Ha & Hg & Hm & _).
  destruct (addTaintedArea_fields (p self) destRect') as (Ha' & Hg' & Hm' & _).
  assert (Htouch : touchesTaintedArea (p self1) destRect' = true).
  { unfold self1. simpl. rewrite touches_onModified.
    apply touches_after_add; assumption. }
  assert (Hw1 : width_of self1 = width_of self).
  { unfold width_of, self1. simpl. rewrite Hm, Hm', Ha, Ha', Hg, Hg'.
    reflexivity. }
  assert (Hh1 : height_of self1 = height_of self).
  { unfold height_of, self1. simpl. rewrite Hm, Hm', Ha, Ha', Hg, Hg'.
    reflexivity. }
  assert (Hclip1 : clipRects self1 source destRect sourceRect
                   = Some (destRect', sourceRect')).
  { unfold clipRects. rewrite Hw1, Hh1. exact Hclip. }
  assert (Hdst1 : getGLTypes (p self1) = Ok dst).
  { unfold getGLTypes, self1. simpl. rewrite Ha, Ha', Hg, Hg'. exact Hdst. }
  assert (Hmega1 : megaSurface (p self1) = None).
  { unfold self1. simpl. rewrite Hm, Hm'. exact Hmega. }
  destruct (blitClipped_texture vram1 self1 source destRect sourceRect opacity
              destRect' sourceRect' dst Hd Hs Hmega1 Hdst1 Hsrc Ho Hclip1)
    as (vram2 & path2 & E2 & Hpath2).
  eexists. eexists. split; [exact E|]. cbn [out_dest out_vram out_path].
  split; [exact Htouch|]. split.
  { unfold self1. simpl. apply surface_onModified. }
  rewrite stretchBlt_plain by (auto; unfold self1; simpl; auto).
  split; [exact E2|]. cbn [out_path]. apply Hpath2. exact Htouch.
Qed.

(** The clipped blit from a texture into an untainted part of a texture
    at full opacity is the direct copy. *)
Lemma blitClipped_fast
    vram self source destRect sourceRect opacity destRect' sourceRect' dst src :
  disposed self = false -> disposed source = false ->
  megaSurface (p self) = None -> getGLTypes (p self) = Ok dst ->
  megaSurface (p source) = None -> getGLTypes (p source) = Ok src ->
  255 <= opacity ->
  clipRects self source destRect sourceRect = Some (destRect', sourceRect') ->
  touchesTaintedArea (p self) destRect' = false ->
  blitClipped2 vram self source destRect sourceRect opacity
  = Ok (mkOutcome
          (<[tex dst := GLMeta_blit (tex_image vram src) sourceRect'
                                    (tex_image vram dst) destRect']> vram)
          (set_p self (onModified (addTaintedArea (p self) destRect') true))
          (Some FastBlit)).
Proof.
  intros Hd Hs Hmega Hdst Hms Hsrc Ho Hclip Htouch.
  unfold blitClipped.
  assert (clamp opacity 0 255 = 255) as ->.
  { unfold clamp.
    assert ((opacity <? 0) = false) as -> by (apply Z.ltb_ge; lia).
    destruct (255 <? opacity) eqn:E; [reflexivity|].
    apply Z.ltb_ge in E. lia. }
  simpl (255 =? 0). cbv iota.
  rewrite (width_live source Hs), (width_live self Hd). simpl mbind.
  unfold clipRects in Hclip.
  destruct (shrinkRects (rect_x sourceRect) _ _ _ _ _)
    as [retx [[[sx sw] dx] dw]].
  destruct retx; [discriminate|].
  rewrite (height_live source Hs), (height_live self Hd). simpl mbind.
  destruct (shrinkRects (rect_y sourceRect) _ _ _ _ _)
    as [rety [[[sy sh] dy] dh]].
  destruct rety; [discriminate|].
  injection Hclip as <- <-.
  rewrite Hmega, Htouch. unfold blitTexture. rewrite Hms, Hdst, Hsrc.
  reflexivity.
Qed.

End BlitMoreFacts.

(** ** Drawing operations *)
Section DrawFacts.

Variable maxTexSize : Z.
Variable subImageFix : bool.
Variable GLMeta_blit : Image -> IntRect -> Image -> IntRect -> Image.
Variable TEX_uploadSubImage : Image -> IntRect -> Image -> Image.
Variable BltShader_draw : Image -> IntRect -> Image -> IntRect -> Z -> Image.
Variable SDL_Blit :
  forall (scaled blend : bool) (alphaMod : Z),
    SDL_Surface -> IntRect -> SDL_Surface -> IntRect -> SDL_Surface.
Variable FBO_clear : Image -> option IntRect -> Vec4 -> Image.
Variable SDL_FillRect : SDL_Surface -> IntRect -> Z -> Image.
Variable SimpleColorShader_draw :
  Image -> IntRect -> Vec4 -> Vec4 -> bool -> Image.

Local Abbreviation stretchBlt3 :=
  (stretchBlt maxTexSize subImageFix GLMeta_blit TEX_uploadSubImage
              BltShader_draw SDL_Blit).
Local Abbreviation clear' := (clear FBO_clear SDL_FillRect).
Local Abbreviation fillRect' := (fillRect FBO_clear SDL_FillRect).
Local Abbreviation clearRect' := (clearRect FBO_clear SDL_FillRect).
Local Abbreviation gradientFillRect' :=
  (gradientFillRect SDL_FillRect SimpleColorShader_draw).

Lemma clearTaintedArea_region d : taintedRegion (clearTaintedArea d) = [].
Proof.
  unfold clearTaintedArea, taintedRegion.
  destruct (pixmanUseRegion32 d) eqn:E; simpl; rewrite E; reflexivity.
Qed.

Lemma taintedRegion_onModified d b :
  taintedRegion (onModified d b) = taintedRegion d.
Proof.
  destruct (onModified_fields d b) as (_ & _ & _ & H1 & H2 & H3).
  unfold taintedRegion. rewrite H1, H2, H3. reflexivity.
Qed.

Lemma untainted_touches d r :
  taintedRegion d = [] -> touchesTaintedArea d r = false.
Proof.
  intros H. unfold touchesTaintedArea, taintedRegion in *.
  destruct (pixmanUseRegion32 d); rewrite H; reflexivity.
Qed.

Lemma clearTaintedArea_fields d :
  animation (clearTaintedArea d) = animation d /\
  gl (clearTaintedArea d) = gl d /\
  megaSurface (clearTaintedArea d) = megaSurface d /\
  surface (clearTaintedArea d) = surface d.
Proof.
  unfold clearTaintedArea. destruct (pixmanUseRegion32 d); repeat split.
Qed.

Lemma clear_result_fields d0 :
  let D := onModified (clearTaintedArea d0) true in
  animation D = animation d0 /\ gl D = gl d0 /\
  megaSurface D = megaSurface d0 /\
  taintedRegion D = [] /\ surface D = None.
Proof.
  intros D. unfold D.
  destruct (onModified_fields (clearTaintedArea d0) true)
    as (H1 & H2 & H3 & _).
  destruct (clearTaintedArea_fields d0) as (H4 & H5 & H6 & _).
  rewrite H1, H2, H3, H4, H5, H6, taintedRegion_onModified,
    clearTaintedArea_region, surface_onModified.
  repeat split.
Qed.

(** X14.  [clear] on a bitmap that is neither disposed nor animated, nor its
    hi-res mirror: the call returns; nothing is tainted any more and no
    CPU surface is cached, in the bitmap and in its mirror, and the bitmap
    has the size it had.  No rectangle touches the tainted area then. *)
Theorem clear_cleared vram self :
  live self -> unanimated self ->
  exists vram1 self1,
    clear' vram self = Ok (vram1, self1) /\
    live self1 /\ unanimated self1 /\ cleared self1 /\
    width_of self1 = width_of self /\ height_of self1 = height_of self /\
    (forall r, touchesTaintedArea (p self1) r = false).
Proof.
  revert vram.
  induction self as [d pp|d pp hires IH] using Bitmap_mirror_ind;
    intros vram [Hd Hl] [Ha Hu]; simpl in Hd, Hl, Ha, Hu; subst.
  - cbn [clear selfHires].
    unfold guardDisposed, GUARD_ANIMATED, guard_not. cbn [disposed p].
    rewrite Ha. simpl mbind.
    destruct (megaSurface pp) as [s|] eqn:Em.
    + rewrite rect_live by reflexivity. simpl mbind.
      do 2 eexists. split; [reflexivity|].
      match goal with |- context [onModified (clearTaintedArea ?d0) true] =>
        pose proof (clear_result_fields d0) as HD; cbv zeta in HD;
        set (D := onModified (clearTaintedArea d0) true) in *
      end.
      destruct HD as (E1 & E2 & E3 & E4 & E5). simpl in E1, E2, E3.
      unfold live, unanimated, cleared, width_of, height_of.
      cbn [disposed p selfHires].
      simpl. rewrite ?E1, ?E2, ?E3, ?E4, ?E5. simpl. rewrite ?Ha, ?Em.
      repeat split; auto; try (intros r; apply untainted_touches; exact E4).
    + unfold getGLTypes. rewrite Ha. simpl mbind.
      do 2 eexists. split; [reflexivity|].
      match goal with |- context [onModified (clearTaintedArea ?d0) true] =>
        pose proof (clear_result_fields d0) as HD; cbv zeta in HD;
        set (D := onModified (clearTaintedArea d0) true) in *
      end.
      destruct HD as (E1 & E2 & E3 & E4 & E5). simpl in E1, E2, E3.
      unfold live, unanimated, cleared, width_of, height_of.
      cbn [disposed p selfHires].
      simpl. rewrite ?E1, ?E2, ?E3, ?E4, ?E5. simpl. rewrite ?Ha, ?Em.
      repeat split; auto; try (intros r; apply untainted_touches; exact E4).
  - cbn [clear selfHires].
    unfold guardDisposed, GUARD_ANIMATED, guard_not. cbn [disposed p].
    rewrite Ha. simpl mbind.
    destruct (IH vram Hl Hu) as (vram1 & h1 & Eh & Hl1 & Hu1 & Hc1 & Hw1 & Hh1 & _).
    rewrite Eh. simpl mbind. cbn [p set_selfHires].
    destruct (megaSurface pp) as [s|] eqn:Em.
    + rewrite rect_live by reflexivity. simpl mbind.
      do 2 eexists. split; [reflexivity|].
      match goal with |- context [onModified (clearTaintedArea ?d0) true] =>
        pose proof (clear_result_fields d0) as HD; cbv zeta in HD;
        set (D := onModified (clearTaintedArea d0) true) in *
      end.
      destruct HD as (E1 & E2 & E3 & E4 & E5). simpl in E1, E2, E3.
      unfold live, unanimated, cleared, width_of, height_of.
      cbn [disposed p selfHires set_p]. fold live. fold unanimated. fold cleared.
      simpl. rewrite ?E1, ?E2, ?E3, ?E4, ?E5. simpl. rewrite ?Ha, ?Em.
      repeat split; auto; try (intros r; apply untainted_touches; exact E4).
    + unfold getGLTypes. cbn [p]. rewrite Ha. simpl mbind.
      do 2 eexists. split; [reflexivity|].
      match goal with |- context [onModified (clearTaintedArea ?d0) true] =>
        pose proof (clear_result_fields d0) as HD; cbv zeta in HD;
        set (D := onModified (clearTaintedArea d0) true) in *
      end.
      destruct HD as (E1 & E2 & E3 & E4 & E5). simpl in E1, E2, E3.
      unfold live, unanimated, cleared, width_of, height_of.
      cbn [disposed p selfHires set_p]. fold live. fold unanimated. fold cleared.
      simpl. rewrite ?E1, ?E2, ?E3, ?E4, ?E5. simpl. rewrite ?Ha, ?Em.
      repeat split; auto; try (intros r; apply untainted_touches; exact E4).
Qed.

(** [clear] on a texture without a mirror. *)
Lemma clear_texture vram self :
  disposed self = false -> enabled (animation (p self)) = false ->
  selfHires self = None -> megaSurface (p self) = None ->
  clear' vram self
  = Ok (<[tex (gl (p self)) :=
            FBO_clear (tex_image vram (gl (p self))) None Vec4_zero]> vram,
        set_p self (onModified (clearTaintedArea (p self)) true)).
Proof.
  intros Hd Ha Hh Hm. destruct self as [d pp hh]. simpl in *. subst.
  cbn [clear selfHires].
  unfold guardDisposed, GUARD_ANIMATED, guard_not. cbn [disposed p].
  rewrite Ha. simpl mbind. rewrite Hm.
  unfold getGLTypes. rewrite Ha. reflexivity.
Qed.

(** X15.  After [clear], a blit at full opacity from a texture into the
    texture is composed by the direct copy, whatever was drawn on the
    bitmap before; the blit taints the rectangle it draws on. *)
Theorem clear_then_blit_fast
    vram self source destRect sourceRect opacity destRect' sourceRect' src :
  disposed self = false -> enabled (animation (p self)) = false ->
  selfHires self = None -> megaSurface (p self) = None ->
  disposed source = false -> selfHires source = None ->
  megaSurface (p source) = None -> getGLTypes (p source) = Ok src ->
  255 <= opacity ->
  clipRects self source destRect sourceRect = Some (destRect', sourceRect') ->
  exists vram1 self1 out,
    clear' vram self = Ok (vram1, self1) /\
    stretchBlt3 vram1 self1 source destRect sourceRect opacity = Ok out /\
    out_path out = Some FastBlit /\
    taintedRegion (p (out_dest out))
    = taintedRegion (addTaintedArea (clearTaintedArea (p self)) destRect').
Proof.
  intros Hd Ha Hh Hm Hs Hsh Hms Hsrc Ho Hclip.
  rewrite clear_texture by assumption.
  set (self1 := set_p self (onModified (clearTaintedArea (p self)) true)).
  destruct (clear_result_fields (p self)) as (E1 & E2 & E3 & E4 & E5).
  cbv zeta in E1, E2, E3, E4, E5.
  assert (Hw1 : width_of self1 = width_of self)
    by (unfold width_of, self1; simpl; rewrite E1, E2, E3; reflexivity).
  assert (Hh1 : height_of self1 = height_of self)
    by (unfold height_of, self1; simpl; rewrite E1, E2, E3; reflexivity).
  assert (Hclip1 : clipRects self1 source destRect sourceRect
                   = Some (destRect', sourceRect'))
    by (unfold clipRects; rewrite Hw1, Hh1; exact Hclip).
  assert (Hdst1 : getGLTypes (p self1) = Ok (gl (p self))).
  { unfold getGLTypes, self1. simpl. rewrite E1, E2, Ha. reflexivity. }
  assert (Hm1 : megaSurface (p self1) = None)
    by (unfold self1; simpl; rewrite E3; exact Hm).
  assert (Ht1 : touchesTaintedArea (p self1) destRect' = false)
    by (apply untainted_touches; unfold self1; simpl; exact E4).
  do 3 eexists. split; [reflexivity|].
  rewrite stretchBlt_plain by (auto; unfold self1; simpl; auto).
  rewrite (blitClipped_fast maxTexSize subImageFix GLMeta_blit
             TEX_uploadSubImage BltShader_draw SDL_Blit _ self1 source
             destRect sourceRect opacity destRect' sourceRect'
             (gl (p self)) src) by assumption.
  split; [reflexivity|]. split; [reflexivity|].
  cbn [out_dest]. unfold self1. cbn [p set_p].
  rewrite taintedRegion_onModified.
  unfold addTaintedArea, taintedRegion, onModified, clearTaintedArea.
  destruct (p self) as [a g ms sf t1 t2 u]. simpl.
  destruct u, sf; reflexivity.
Qed.

(** [BitmapPrivate::fillRect] on a bitmap that is not animated returns
    and leaves everything but the pixels. *)
Lemma BitmapPrivate_fillRect_fields vram d rect color :
  enabled (animation d) = false ->
  exists vram1 d0,
    BitmapPrivate_fillRect FBO_clear SDL_FillRect vram d rect color
    = Ok (vram1, d0) /\
    animation d0 = animation d /\ gl d0 = gl d /\
    has (megaSurface d0) = has (megaSurface d) /\
    surface d0 = surface d /\
    tainted d0 = tainted d /\ tainted32 d0 = tainted32 d /\
    pixmanUseRegion32 d0 = pixmanUseRegion32 d.
Proof.
  intros Ha. unfold BitmapPrivate_fillRect.
  destruct (megaSurface d) as [s|] eqn:Em.
  - do 2 eexists. split; [reflexivity|]. simpl. repeat split.
  - unfold getGLTypes. rewrite Ha. simpl.
    do 2 eexists. split; [reflexivity|]. rewrite Em. repeat split.
Qed.

Lemma taintedRegion_fields d0 d :
  tainted d0 = tainted d -> tainted32 d0 = tainted32 d ->
  pixmanUseRegion32 d0 = pixmanUseRegion32 d ->
  taintedRegion d0 = taintedRegion d /\
  forall r, touchesTaintedArea d0 r = touchesTaintedArea d r.
Proof.
  intros H1 H2 H3. unfold taintedRegion, touchesTaintedArea.
  rewrite H1, H2, H3. split; reflexivity.
Qed.

(** The pixels of the tainted area after [substractTaintedArea]. *)
Lemma substractTaintedArea_points d r px py :
  valid_rect (pixmanUseRegion32 d) r -> 0 < rect_w r -> 0 < rect_h r ->
  Pixman.contains_point (taintedRegion (substractTaintedArea d r)) px py
  = if touchesTaintedArea d r
    then Pixman.in_box (rect_box r) px py &&
         negb (Pixman.contains_point (taintedRegion d) px py)
    else Pixman.contains_point (taintedRegion d) px py.
Proof.
  intros Hv Hw Hh.
  pose proof (TaintedArea.box_of_valid _ r Hv Hw Hh) as Hb.
  unfold substractTaintedArea.
  destruct (touchesTaintedArea d r); simpl negb; cbv iota; [|reflexivity].
  assert (Hg : Pixman.good_box (rect_box r) = true)
    by (apply PixmanFacts.good_box_iff; simpl; lia).
  unfold taintedRegion, Pixman.init_rect.
  destruct (pixmanUseRegion32 d) eqn:E; simpl; rewrite E;
    rewrite Hb; fold (rect_box r); rewrite Hg;
    rewrite PixmanFacts.subtract_point; simpl;
    rewrite orb_false_r; reflexivity.
Qed.

(** X16.  [fillRect] with a colour that is not fully transparent, on a bitmap
    without a mirror that is neither disposed nor animated: the call
    returns, the cached CPU surface is gone, and the tainted area is the
    one from before together with the rectangle, which it now touches. *)
Theorem fillRect_taints vram self rect color :
  disposed self = false -> enabled (animation (p self)) = false ->
  selfHires self = None ->
  valid_rect (pixmanUseRegion32 (p self)) rect ->
  0 < rect_w rect -> 0 < rect_h rect ->
  Qeq_bool (v4_w color) 0 = false ->
  exists vram1 self1,
    fillRect' vram self rect color = Ok (vram1, self1) /\
    surface (p self1) = None /\
    touchesTaintedArea (p self1) rect = true /\
    forall px py,
      Pixman.contains_point (taintedRegion (p self1)) px py
      = Pixman.contains_point (taintedRegion (p self)) px py ||
        Pixman.in_box (rect_box rect) px py.
Proof.
  intros Hd Ha Hh Hv Hw Hhh Hc.
  destruct self as [d pp hh]. simpl in *. subst.
  cbn [fillRect selfHires].
  unfold guardDisposed, GUARD_ANIMATED, guard_not. cbn [disposed p].
  rewrite Ha. simpl mbind.
  destruct (BitmapPrivate_fillRect_fields vram pp rect color Ha)
    as (vram1 & d0 & E & _ & _ & _ & _ & H1 & H2 & H3).
  rewrite E. simpl mbind. rewrite Hc.
  do 2 eexists. split; [reflexivity|]. cbn [p set_p].
  destruct (taintedRegion_fields d0 pp H1 H2 H3) as [Hreg _].
  split; [apply surface_onModified|]. split.
  - rewrite touches_onModified.
    apply (touches_after_add d0 rect); auto. rewrite H3. exact Hv.
  - intros px py. rewrite taintedRegion_onModified.
    rewrite TaintedArea.taintedRegion_add by (auto; rewrite H3; exact Hv).
    rewrite PixmanFacts.union_point, Hreg. simpl.
    rewrite orb_false_r. reflexivity.
Qed.

(** X17.  [clearRect], and [fillRect] with a fully transparent colour, on a
    bitmap without a mirror that is neither disposed nor animated: the
    call returns and the cached CPU surface is gone.  When the rectangle
    touched the tainted area, the tainted area is afterwards what was not
    tainted of the rectangle: the code subtracts the tainted area from
    the rectangle.  When it did not, the tainted area stays. *)
Theorem clearRect_untaints vram self rect cr cg cb :
  disposed self = false -> enabled (animation (p self)) = false ->
  selfHires self = None ->
  valid_rect (pixmanUseRegion32 (p self)) rect ->
  0 < rect_w rect -> 0 < rect_h rect ->
  exists vram1 self1 vram2 self2,
    clearRect' vram self rect = Ok (vram1, self1) /\
    fillRect' vram self rect (mkVec4 cr cg cb 0) = Ok (vram2, self2) /\
    surface (p self1) = None /\ surface (p self2) = None /\
    taintedRegion (p self2) = taintedRegion (p self1) /\
    forall px py,
      Pixman.contains_point (taintedRegion (p self1)) px py
      = if touchesTaintedArea (p self) rect
        then Pixman.in_box (rect_box rect) px py &&
             negb (Pixman.contains_point (taintedRegion (p self)) px py)
        else Pixman.contains_point (taintedRegion (p self)) px py.
Proof.
  intros Hd Ha Hh Hv Hw Hhh.
  destruct self as [d pp hh]. simpl in *. subst.
  cbn [clearRect fillRect selfHires].
  unfold guardDisposed, GUARD_ANIMATED, guard_not. cbn [disposed p].
  rewrite Ha. simpl mbind.
  destruct (BitmapPrivate_fillRect_fields vram pp rect Vec4_zero Ha)
    as (vram1 & d1 & E1 & _ & _ & _ & _ & H1 & H2 & H3).
  destruct (BitmapPrivate_fillRect_fields vram pp rect (mkVec4 cr cg cb 0) Ha)
    as (vram2 & d2 & E2 & _ & _ & _ & _ & K1 & K2 & K3).
  rewrite E1, E2. simpl mbind.
  change (Qeq_bool (v4_w (mkVec4 cr cg cb 0)) 0) with true. cbv iota.
  do 4 eexists. split; [reflexivity|]. split; [reflexivity|].
  cbn [p set_p].
  split; [apply surface_onModified|]. split; [apply surface_onModified|].
  destruct (taintedRegion_fields d1 pp H1 H2 H3) as [Hreg1 Ht1].
  rewrite !taintedRegion_onModified.
  split.
  - unfold substractTaintedArea, touchesTaintedArea, taintedRegion.
    rewrite H1, H2, H3, K1, K2, K3.
    destruct (pixmanUseRegion32 pp) eqn:Eu;
      match goal with
      | |- context [negb (negb ?b)] => destruct b
      end; simpl; rewrite ?H1, ?H2, ?H3, ?K1, ?K2, ?K3, ?Eu; reflexivity.
  - intros px py.
    rewrite substractTaintedArea_points by (auto; rewrite H3; exact Hv).
    rewrite Ht1, Hreg1. reflexivity.
Qed.


Lemma memcpy_whole (dst src : Image) n :
  Z.of_nat (length src) = n -> Z.of_nat (length dst) = n ->
  memcpy dst src n = Ok src.
Proof.
  intros Hs Hd. unfold memcpy.
  assert ((Z.of_nat (length src) <? n) = false) as -> by (apply Z.ltb_ge; lia).
  assert ((Z.of_nat (length dst) <? n) = false) as -> by (apply Z.ltb_ge; lia).
  simpl. f_equal.
  rewrite take_ge by lia. rewrite drop_ge by lia. apply app_nil_r.
Qed.

Local Arguments taintArea : simpl never.


End DrawFacts.

(** ** Pixel access: writing and reading back *)
Section PixelRoundTrip.

Variable TEX_uploadSubImage : Image -> IntRect -> Image -> Image.

Local Abbreviation setPixel2 := (setPixel TEX_uploadSubImage).

(** The bytes of a packed pixel. *)
Lemma packed_bytes r g b a :
  0 <= r <= 255 -> 0 <= g <= 255 -> 0 <= b <= 255 -> 0 <= a <= 255 ->
  let word := r + g * 2 ^ 8 + b * 2 ^ 16 + a * 2 ^ 24 in
  Z.land (Z.shiftr word 0) 255 = r /\
  Z.land (Z.shiftr word 8) 255 = g /\
  Z.land (Z.shiftr word 16) 255 = b /\
  Z.land (Z.shiftr word 24) 255 = a.
Proof.
  intros Hr Hg Hb Ha word. unfold word.
  change 255 with (Z.ones 8).
  rewrite !Z.land_ones, !Z.shiftr_div_pow2 by lia.
  change (2 ^ 0) with 1. change (2 ^ 8) with 256.
  change (2 ^ 16) with 65536. change (2 ^ 24) with 16777216.
  repeat split; Z.div_mod_to_equations; lia.
Qed.

(** [setPixel] on a static texture bitmap without a mirror. *)
Lemma setPixel_static vram d x y color surf :
  enabled (animation d) = false -> megaSurface d = None ->
  surface d = Some surf ->
  exists vram' d',
    setPixel2 vram (mkBitmap false d None) x y color
    = Ok (vram', mkBitmap false d' None) /\
    animation d' = animation d /\ gl d' = gl d /\
    megaSurface d' = None /\
    surface d' = Some (setPixelAt surf x y (colorWord color)).
Proof.
  intros Ha Hm Hs. unfold setPixel.
  cbn [mirrors selfHires setPixel_fuel].
  unfold guardDisposed, GUARD_ANIMATED, guard_not.
  cbn [disposed p]. rewrite Ha. simpl mbind.
  destruct (addTaintedArea_fields d (mkIntRect x y 1 1))
    as (Ea & Eg & Em & Es).
  rewrite Em, Hm, Es, Hs. rewrite has_onModified_false.
  do 2 eexists. split; [reflexivity|].
  cbn [animation gl megaSurface surface set_surface].
  rewrite Ea, Eg, Em, Hm. repeat split; reflexivity.
Qed.

(** [getPixel] inside a static texture bitmap with a cached surface. *)
Lemma getPixel_cached vram d x y surf :
  enabled (animation d) = false -> megaSurface d = None ->
  surface d = Some surf ->
  0 <= x < tf_width (gl d) -> 0 <= y < tf_height (gl d) ->
  getPixel vram (mkBitmap false d None) x y
  = Ok (mkColor (inject_Z (Z.land (Z.shiftr (getPixelAt surf x y) 0) 255))
                (inject_Z (Z.land (Z.shiftr (getPixelAt surf x y) 8) 255))
                (inject_Z (Z.land (Z.shiftr (getPixelAt surf x y) 16) 255))
                (inject_Z (Z.land (Z.shiftr (getPixelAt surf x y) 24) 255)),
        mkBitmap false d None).
Proof.
  intros Ha Hm Hs Hx Hy. unfold getPixel.
  cbn [mirrors selfHires getPixel_fuel].
  unfold guardDisposed, GUARD_ANIMATED, guard_not, width, height,
    guardDisposed, guard_not.
  cbn [disposed p]. rewrite Ha, Hm. simpl mbind.
  assert ((x <? 0) || (y <? 0) || (tf_width (gl d) <=? x) ||
          (tf_height (gl d) <=? y) = false) as ->.
  { rewrite !orb_false_iff, !Z.ltb_ge, !Z.leb_gt. lia. }
  rewrite Hs. reflexivity.
Qed.

(** X20.  A pixel written with [setPixel] is the pixel [getPixel] reads
    back.  On a static texture bitmap without a mirror, with a cached CPU
    surface of the size of the bitmap, and for a pixel (x, y) inside the
    bitmap: [setPixel] returns; [getPixel] at (x, y) then returns the
    colour with each channel limited to [0, 255] and cut to its integer
    part, and leaves the bitmap; and at every other pixel of the bitmap
    [getPixel] returns the colour it returned before the write. *)
Theorem setPixel_getPixel vram self x y color surf :
  disposed self = false -> enabled (animation (p self)) = false ->
  selfHires self = None ->
  megaSurface (p self) = None -> surface (p self) = Some surf ->
  surf_w surf = width_of self -> surf_h surf = height_of self ->
  Z.of_nat (length (surf_pixels surf)) = surf_w surf * surf_h surf ->
  0 <= x < width_of self -> 0 <= y < height_of self ->
  let byte (c : Q) := inject_Z (Z.max 0 (Z.min 255 (Qfloor c))) in
  exists vram' self',
    setPixel2 vram self x y color = Ok (vram', self') /\
    getPixel vram' self' x y
    = Ok (mkColor (byte (red color)) (byte (green color))
                  (byte (blue color)) (byte (alpha color)), self') /\
    forall x' y',
      0 <= x' < width_of self -> 0 <= y' < height_of self ->
      (x', y') <> (x, y) ->
      exists c,
        getPixel vram self x' y' = Ok (c, self) /\
        getPixel vram' self' x' y' = Ok (c, self').
Proof.
  intros Hd Ha Hh Hm Hs Hw Hhh Hlen Hx Hy byte.
  destruct self as [dis d hh]. simpl in Hd, Ha, Hh, Hm, Hs. subst dis hh.
  assert (Ew : width_of (mkBitmap false d None) = tf_width (gl d))
    by (unfold width_of; simpl; rewrite Hm, Ha; reflexivity).
  assert (Eh : height_of (mkBitmap false d None) = tf_height (gl d))
    by (unfold height_of; simpl; rewrite Hm, Ha; reflexivity).
  rewrite Ew in *. rewrite Eh in *.
  destruct (setPixel_static vram d x y color surf Ha Hm Hs)
    as (vram' & d' & Eset & Ea' & Eg' & Em' & Es').
  exists vram', (mkBitmap false d' None).
  split; [exact Eset|].
  assert (Hin : inSurface surf x y = true)
    by (apply inSurface_bounds; [assumption|lia|lia]).
  split.
  - rewrite (getPixel_cached vram' d' x y _ ltac:(congruence) Em' Es')
      by (rewrite Eg'; assumption).
    rewrite setPixelAt_same by exact Hin. unfold colorWord.
    rewrite SDL_MapRGBA_bytes by apply uint8_clamp_range.
    destruct (packed_bytes _ _ _ _
                (uint8_clamp_range (red color))
                (uint8_clamp_range (green color))
                (uint8_clamp_range (blue color))
                (uint8_clamp_range (alpha color))) as (Er & Egr & Eb & Eal).
    cbv zeta in Er, Egr, Eb, Eal. rewrite Er, Egr, Eb, Eal.
    rewrite !uint8_clamp. reflexivity.
  - intros x' y' Hx' Hy' Hne.
    eexists. split.
    + apply (getPixel_cached vram d x' y' surf Ha Hm Hs); assumption.
    + rewrite (getPixel_cached vram' d' x' y' _ ltac:(congruence) Em' Es')
        by (rewrite Eg'; assumption).
      rewrite setPixelAt_other by (try lia; exact Hne).
      reflexivity.
Qed.

End PixelRoundTrip.

Module DrawExamples.

Local Abbreviation stretchBlt1024' :=
  (stretchBlt 1024 false sample_blit sample_upload sample_shader
              sample_SDL_Blit).

Lemma stretchBlt_opacity_witness :
  let self := with_mirror (texture_bitmap 1 4 4 None)
                          (texture_bitmap 3 8 8 None) in
  let source := texture_bitmap 2 4 4 None in
  stretchBlt1024' sample_vram self source
    (mkIntRect 0 0 4 4) (mkIntRect 0 0 4 4) (-7)
  = stretchBlt1024' sample_vram self source
      (mkIntRect 0 0 4 4) (mkIntRect 0 0 4 4) 0 /\
  stretchBlt1024' sample_vram self source
    (mkIntRect 0 0 4 4) (mkIntRect 0 0 4 4) (-7)
  = Ok (mkOutcome sample_vram self None).
Proof.
  intros self source.
  apply (stretchBlt_opacity 1024 false sample_blit sample_upload
           sample_shader sample_SDL_Blit sample_vram (-7) self source
           (mkIntRect 0 0 4 4) (mkIntRect 0 0 4 4)).
  - split; [reflexivity|]. split; [reflexivity|exact I].
  - split; [reflexivity|exact I].
  - simpl. unfold int_range, width_of, height_of; simpl. lia.
  - exact I.
Defined.

Lemma stretchBlt_taints_destination_witness :
  let self := texture_bitmap 1 4 4 (Some (mkSurface 4 4 [0; 0; 0; 0])) in
  let source := texture_bitmap 2 4 4 None in
  exists out out2,
    stretchBlt1024' sample_vram self source
      (mkIntRect 0 0 4 4) (mkIntRect 0 0 4 4) 255 = Ok out /\
    touchesTaintedArea (p (out_dest out)) (mkIntRect 0 0 4 4) = true /\
    surface (p (out_dest out)) = None /\
    stretchBlt1024' (out_vram out) (out_dest out) source
      (mkIntRect 0 0 4 4) (mkIntRect 0 0 4 4) 255 = Ok out2 /\
    out_path out2 = Some ShaderBlit.
Proof.
  intros self source.
  apply (stretchBlt_taints_destination 1024 false sample_blit sample_upload
           sample_shader sample_SDL_Blit sample_vram self source
           (mkIntRect 0 0 4 4) (mkIntRect 0 0 4 4) 255
           (mkIntRect 0 0 4 4) (mkIntRect 0 0 4 4) (mkTEXFBO 1 1 4 4));
    try reflexivity.
  - intros _. eexists. reflexivity.
  - vm_compute. discriminate.
  - unfold valid_rect; simpl; lia.
Defined.

Lemma clear_cleared_witness :
  let self :=
    with_mirror
      (tainted_bitmap
         (texture_bitmap 1 2 2 (Some (mkSurface 2 2 [7; 7; 7; 7])))
         (mkIntRect 0 0 2 2))
      (tainted_bitmap (texture_bitmap 3 4 4 None) (mkIntRect 1 1 2 2)) in
  exists vram1 self1,
    clear sample_clear sample_fill sample_vram self = Ok (vram1, self1) /\
    live self1 /\ unanimated self1 /\ cleared self1 /\
    width_of self1 = 2 /\ height_of self1 = 2 /\
    (forall r, touchesTaintedArea (p self1) r = false).
Proof.
  intros self.
  apply (clear_cleared sample_clear sample_fill sample_vram self).
  - split; [reflexivity|]. split; [reflexivity|exact I].
  - split; [reflexivity|]. split; [reflexivity|exact I].
Defined.

Lemma clear_then_blit_fast_witness :
  let self := tainted_bitmap (texture_bitmap 1 4 4 None)
                             (mkIntRect 0 0 4 4) in
  let source := texture_bitmap 2 4 4 None in
  exists vram1 self1 out,
    clear sample_clear sample_fill sample_vram self = Ok (vram1, self1) /\
    stretchBlt1024' vram1 self1 source
      (mkIntRect 0 0 2 2) (mkIntRect 0 0 2 2) 255 = Ok out /\
    out_path out = Some FastBlit /\
    taintedRegion (p (out_dest out)) = [Pixman.Box 0 0 2 2].
Proof.
  intros self source.
  apply (clear_then_blit_fast 1024 false sample_blit sample_upload
           sample_shader sample_SDL_Blit sample_clear sample_fill
           sample_vram self source
           (mkIntRect 0 0 2 2) (mkIntRect 0 0 2 2) 255
           (mkIntRect 0 0 2 2) (mkIntRect 0 0 2 2) (mkTEXFBO 2 2 4 4));
    reflexivity.
Defined.

Lemma fillRect_taints_witness :
  let self := texture_bitmap 1 4 4 (Some (mkSurface 4 4 [0; 0; 0; 0])) in
  exists vram1 self1,
    fillRect sample_clear sample_fill sample_vram self (mkIntRect 1 1 2 2)
      (mkVec4 1 0 0 1)
    = Ok (vram1, self1) /\
    surface (p self1) = None /\
    touchesTaintedArea (p self1) (mkIntRect 1 1 2 2) = true /\
    forall px py,
      Pixman.contains_point (taintedRegion (p self1)) px py
      = Pixman.contains_point [] px py ||
        Pixman.in_box (Pixman.Box 1 1 3 3) px py.
Proof.
  intros self.
  apply (fillRect_taints sample_clear sample_fill sample_vram self
           (mkIntRect 1 1 2 2) (mkVec4 1 0 0 1)); try reflexivity.
  unfold valid_rect; simpl; lia.
Defined.

Lemma clearRect_untaints_witness :
  let self := tainted_bitmap (texture_bitmap 1 4 4 None)
                             (mkIntRect 0 0 2 2) in
  exists vram1 self1 vram2 self2,
    clearRect sample_clear sample_fill sample_vram self (mkIntRect 1 1 2 2)
    = Ok (vram1, self1) /\
    fillRect sample_clear sample_fill sample_vram self (mkIntRect 1 1 2 2)
      (mkVec4 1 1 1 0)
    = Ok (vram2, self2) /\
    surface (p self1) = None /\ surface (p self2) = None /\
    taintedRegion (p self2) = taintedRegion (p self1) /\
    forall px py,
      Pixman.contains_point (taintedRegion (p self1)) px py
      = Pixman.in_box (Pixman.Box 1 1 3 3) px py &&
        negb (Pixman.contains_point [Pixman.Box 0 0 2 2] px py).
Proof.
  intros self.
  apply (clearRect_untaints sample_clear sample_fill sample_vram self
           (mkIntRect 1 1 2 2) 1%Q 1%Q 1%Q); try reflexivity.
  unfold valid_rect; simpl; lia.
Defined.



(** The colour (255, -5, 127.5, 300) written at (1, 0) reads back as
    (255, 0, 127, 255); the pixel (0, 1) reads as before. *)
Lemma setPixel_getPixel_witness :
  let self := texture_bitmap 1 2 2 (Some (mkSurface 2 2 [0; 0; 0; 0])) in
  exists vram' self',
    setPixel sample_upload sample_vram self 1 0
      (mkColor 255 (-5) (255 # 2) 300)
    = Ok (vram', self') /\
    getPixel vram' self' 1 0 = Ok (mkColor 255 0 127 255, self') /\
    exists c,
      getPixel sample_vram self 0 1 = Ok (c, self) /\
      getPixel vram' self' 0 1 = Ok (c, self').
Proof.
  intros self.
  destruct (setPixel_getPixel sample_upload sample_vram self 1 0
              (mkColor 255 (-5) (255 # 2) 300) (mkSurface 2 2 [0; 0; 0; 0]))
    as (vram' & self' & Eset & Eget & Hother);
    try reflexivity; try (unfold width_of, height_of; simpl; lia).
  exists vram', self'. split; [exact Eset|]. split; [exact Eget|].
  apply Hother; try (unfold width_of, height_of; simpl; lia).
  discriminate.
Defined.

End DrawExamples.
